(** * Arcade engine: Physics, Scene, AssetManager, SoundManager,
      InputManager and GameEngine

    A shallow embedding of the TypeScript game runtime
    (physics.ts, scene.ts, entity.ts, asset.ts, sound.ts, input.ts,
    engine.ts) and the properties of its specification.

    Modelling conventions.
    - A JavaScript [number] is an exact rational [Q]: finite values, exact
      arithmetic.  NaN and the infinities are outside the model; where the
      source would compute with [undefined] as a number the engine model
      stops with [OutOfModel].
    - Objects are heap cells.  An entity reference is an address into a
      [list Entity]; arrays of entities are lists of addresses, so an
      in-place mutation is seen through every alias, as in the source.
    - A JS [Map] whose iteration order matters (the scene's entity map) is an
      insertion-ordered association list; maps read only by key are [gmap]s.
    - A behaviour hook is host code: it is a parameter of the model, an
      arbitrary heap transformer that may also issue [addEntity] and
      [removeEntity] requests on the scene it runs in.
    - What the browser decides (whether a fetch or the creation of an audio
      object succeeds) is an argument of the operation that asks for it.
      Image elements and decoded audio buffers are known by a handle. *)

From Stdlib Require Import QArith Qabs Qround Lqa Sorted.
From stdpp Require Import base option list gmap strings.

Open Scope string_scope.
Open Scope list_scope.
Open Scope Q_scope.

(** ** Numbers *)

Definition Qleb (a b : Q) : bool := Qle_bool a b.
Definition Qltb (a b : Q) : bool := negb (Qle_bool b a).
Definition Qeqb (a b : Q) : bool := Qeq_bool a b.

(** [Math.min] over four arguments, folded left to right as the engine
    calls it. *)
Definition Math_min2 (a b : Q) : Q := if Qleb a b then a else b.
Definition Math_min4 (a b c d : Q) : Q :=
  Math_min2 (Math_min2 (Math_min2 a b) c) d.

(** [x || d] on a number: zero is falsy. *)
Definition num_or (x d : Q) : Q := if Qeqb x 0 then d else x.

(** [o.f || d] where the field may be absent. *)
Definition opt_num_or (o : option Q) (d : Q) : Q :=
  match o with
  | Some q => num_or q d
  | None => d
  end.

(** [o ?? d]: only absence selects the default. *)
Definition nullish (o : option Q) (d : Q) : Q :=
  match o with
  | Some q => q
  | None => d
  end.

(** [s || d] on a string: the empty string is falsy. *)
Definition opt_str_or (o : option string) (d : string) : string :=
  match o with
  | Some s => if String.eqb s "" then d else s
  | None => d
  end.

(** ** Dynamic values of the entity data bag *)

Inductive JSVal : Type :=
| VUndefined
| VNull
| VBool (b : bool)
| VNum (q : Q)
| VStr (s : string).

Definition truthy (v : JSVal) : bool :=
  match v with
  | VUndefined | VNull => false
  | VBool b => b
  | VNum q => negb (Qeqb q 0)
  | VStr s => negb (String.eqb s "")
  end.

Definition js_or (v d : JSVal) : JSVal := if truthy v then v else d.

(** [v === 'literal'] *)
Definition str_is (v : JSVal) (literal : string) : bool :=
  match v with
  | VStr s => String.eqb s literal
  | _ => false
  end.

Definition opt_num_val (o : option Q) : JSVal :=
  match o with
  | Some q => VNum q
  | None => VUndefined
  end.

(** ** Entity (entity.ts) *)

Record Entity : Type := mkEntity {
  id : string;
  x : Q;
  y : Q;
  width : Q;
  height : Q;
  velocityX : Q;
  velocityY : Q;
  acceleration : Q;
  gravity : option Q;
  friction : option Q;
  color : string;
  solid : bool;
  bouncy : bool;
  bounceCoefficient : option Q;
  mass : Q;
  tags : list string;
  active : bool;
  visible : bool;
  onGround : bool;
  behaviors : list string;
  data : gmap string JSVal
}.

Definition set_x (v : Q) (e : Entity) : Entity :=
  mkEntity (id e) v (y e) (width e) (height e) (velocityX e) (velocityY e)
    (acceleration e) (gravity e) (friction e) (color e) (solid e) (bouncy e)
    (bounceCoefficient e) (mass e) (tags e) (active e) (visible e)
    (onGround e) (behaviors e) (data e).

Definition set_y (v : Q) (e : Entity) : Entity :=
  mkEntity (id e) (x e) v (width e) (height e) (velocityX e) (velocityY e)
    (acceleration e) (gravity e) (friction e) (color e) (solid e) (bouncy e)
    (bounceCoefficient e) (mass e) (tags e) (active e) (visible e)
    (onGround e) (behaviors e) (data e).

Definition set_velocityX (v : Q) (e : Entity) : Entity :=
  mkEntity (id e) (x e) (y e) (width e) (height e) v (velocityY e)
    (acceleration e) (gravity e) (friction e) (color e) (solid e) (bouncy e)
    (bounceCoefficient e) (mass e) (tags e) (active e) (visible e)
    (onGround e) (behaviors e) (data e).

Definition set_velocityY (v : Q) (e : Entity) : Entity :=
  mkEntity (id e) (x e) (y e) (width e) (height e) (velocityX e) v
    (acceleration e) (gravity e) (friction e) (color e) (solid e) (bouncy e)
    (bounceCoefficient e) (mass e) (tags e) (active e) (visible e)
    (onGround e) (behaviors e) (data e).

Definition set_active (v : bool) (e : Entity) : Entity :=
  mkEntity (id e) (x e) (y e) (width e) (height e) (velocityX e) (velocityY e)
    (acceleration e) (gravity e) (friction e) (color e) (solid e) (bouncy e)
    (bounceCoefficient e) (mass e) (tags e) v (visible e)
    (onGround e) (behaviors e) (data e).

Definition set_visible (v : bool) (e : Entity) : Entity :=
  mkEntity (id e) (x e) (y e) (width e) (height e) (velocityX e) (velocityY e)
    (acceleration e) (gravity e) (friction e) (color e) (solid e) (bouncy e)
    (bounceCoefficient e) (mass e) (tags e) (active e) v
    (onGround e) (behaviors e) (data e).

Definition set_onGround (v : bool) (e : Entity) : Entity :=
  mkEntity (id e) (x e) (y e) (width e) (height e) (velocityX e) (velocityY e)
    (acceleration e) (gravity e) (friction e) (color e) (solid e) (bouncy e)
    (bounceCoefficient e) (mass e) (tags e) (active e) (visible e)
    v (behaviors e) (data e).

Definition set_behaviors (v : list string) (e : Entity) : Entity :=
  mkEntity (id e) (x e) (y e) (width e) (height e) (velocityX e) (velocityY e)
    (acceleration e) (gravity e) (friction e) (color e) (solid e) (bouncy e)
    (bounceCoefficient e) (mass e) (tags e) (active e) (visible e)
    (onGround e) v (data e).

Definition set_data (v : gmap string JSVal) (e : Entity) : Entity :=
  mkEntity (id e) (x e) (y e) (width e) (height e) (velocityX e) (velocityY e)
    (acceleration e) (gravity e) (friction e) (color e) (solid e) (bouncy e)
    (bounceCoefficient e) (mass e) (tags e) (active e) (visible e)
    (onGround e) (behaviors e) v.

(** [tags.includes(tag)] *)
Definition hasTag (tag : string) (e : Entity) : bool :=
  existsb (String.eqb tag) (tags e).

(** [data.set(key, value)] and [data.get(key)]; a missing key reads as
    [undefined]. *)
Definition setData (key : string) (value : JSVal) (e : Entity) : Entity :=
  set_data (<[key := value]> (data e)) e.

Definition getData (key : string) (e : Entity) : JSVal :=
  default VUndefined (data e !! key).

(** [destroy()]: the behaviour table and the data bag are cleared and the
    entity is deactivated.  The [destroy] hooks of the behaviours are host
    code whose effects are not part of this model. *)
Definition destroy (e : Entity) : Entity :=
  set_active false (set_data ∅ (set_behaviors [] e)).

(** The constructor.  Each optional field of [EntityOptions] is an option;
    the id is caller-supplied or generated, and an empty id is replaced by
    the generated one ([options.id || ...]). *)
Record EntityOptions : Type := mkEntityOptions {
  o_id : option string;
  o_x : Q;
  o_y : Q;
  o_width : Q;
  o_height : Q;
  o_velocityX : option Q;
  o_velocityY : option Q;
  o_acceleration : option Q;
  o_gravity : option Q;
  o_friction : option Q;
  o_color : option string;
  o_solid : option bool;
  o_bouncy : option bool;
  o_bounceCoefficient : option Q;
  o_mass : option Q;
  o_tags : option (list string);
  o_active : option bool;
  o_visible : option bool
}.

Definition newEntity (generated : string) (o : EntityOptions) : Entity :=
  {| id := opt_str_or (o_id o) generated;
     x := o_x o;
     y := o_y o;
     width := o_width o;
     height := o_height o;
     velocityX := opt_num_or (o_velocityX o) 0;
     velocityY := opt_num_or (o_velocityY o) 0;
     acceleration := opt_num_or (o_acceleration o) 0;
     gravity := o_gravity o;
     friction := o_friction o;
     color := opt_str_or (o_color o) "#fff";
     solid := default true (o_solid o);
     bouncy := default false (o_bouncy o);
     bounceCoefficient := o_bounceCoefficient o;
     mass := opt_num_or (o_mass o) 1;
     tags := default [] (o_tags o);
     active := default true (o_active o);
     visible := default true (o_visible o);
     onGround := false;
     behaviors := [];
     data := ∅ |}.

(** ** The heap of entity objects *)

Abbreviation Addr := nat (only parsing).
Abbreviation Heap := (list Entity) (only parsing).

(** In-place mutation of the object at an address. *)
Definition mutate (a : Addr) (f : Entity -> Entity) (h : Heap) : Heap :=
  match h !! a with
  | Some e => <[a := f e]> h
  | None => h
  end.

(** [new Entity(...)]: the fresh object is the next heap cell. *)
Definition alloc (e : Entity) (h : Heap) : Heap * Addr := (h ++ [e], List.length h).

(** ** Physics (physics.ts) *)

Module Physics.

Record t : Type := mk {
  p_gravity : Q;
  p_friction : Q;
  terminalVelocity : Q;
  defaultBounceCoefficient : Q
}.

Record PhysicsOptions : Type := mkOptions {
  opt_gravity : option Q;
  opt_friction : option Q;
  opt_terminalVelocity : option Q;
  opt_bounceCoefficient : option Q
}.

Definition new (options : PhysicsOptions) : t :=
  {| p_gravity := nullish (opt_gravity options) (1 # 2);
     p_friction := nullish (opt_friction options) (8 # 10);
     terminalVelocity := nullish (opt_terminalVelocity options) 10;
     defaultBounceCoefficient := nullish (opt_bounceCoefficient options) (3 # 10) |}.

Inductive Direction : Type := top | bottom | left | right.

Record CollisionResult : Type := mkResult {
  collided : bool;
  direction : option Direction;
  overlap : option Q
}.

Definition no_collision : CollisionResult :=
  {| collided := false; direction := None; overlap := None |}.

(** [update(entity)]: one frame of gravity, friction, terminal velocity and
    integration.  No delta time enters. *)
Definition update (ph : t) (entity : Entity) : Entity :=
  let previousY := y entity in
  let e1 :=
    if negb (onGround entity)
    then set_velocityY (velocityY entity + nullish (gravity entity) (p_gravity ph)) entity
    else entity in
  let e2 :=
    if onGround e1
    then
      let e := set_velocityX (velocityX e1 * nullish (friction e1) (p_friction ph)) e1 in
      if Qltb (Qabs (velocityX e)) (1 # 10) then set_velocityX 0 e else e
    else e1 in
  let e3 :=
    if Qltb (terminalVelocity ph) (velocityY e2)
    then set_velocityY (terminalVelocity ph) e2
    else e2 in
  let e4 := set_x (x e3 + velocityX e3) e3 in
  let e5 := set_y (y e4 + velocityY e4) e4 in
  if Qltb 1 (y e5 - previousY) && onGround e5
  then set_onGround false e5
  else e5.

Definition overlapLeft (a b : Entity) : Q := (x a + width a) - x b.
Definition overlapRight (a b : Entity) : Q := (x b + width b) - x a.
Definition overlapTop (a b : Entity) : Q := (y a + height a) - y b.
Definition overlapBottom (a b : Entity) : Q := (y b + height b) - y a.

Definition minOverlap (a b : Entity) : Q :=
  Math_min4 (overlapLeft a b) (overlapRight a b) (overlapTop a b) (overlapBottom a b).

(** The bounds test of [detectCollision]: true when the boxes do not
    overlap. *)
Definition separated (a b : Entity) : bool :=
  Qleb (x a + width a) (x b) || Qleb (x b + width b) (x a)
  || Qleb (y a + height a) (y b) || Qleb (y b + height b) (y a).

(** [detectCollision(a, b)].  Every [Entity] owns a [tags] property, so the
    [hasOwnProperty] test of the source holds for all objects of this
    model. *)
Definition detectCollision (a b : Entity) : CollisionResult :=
  if negb (solid a) || negb (solid b) then no_collision
  else if separated a b then no_collision
  else
    let m := minOverlap a b in
    let dir :=
      if hasTag "platform" b && Qltb 0 (velocityY a)
      then
        if Qltb (overlapTop a b) (height a / 2) then top
        else if Qeqb m (overlapLeft a b) then left
        else if Qeqb m (overlapRight a b) then right
        else if Qeqb m (overlapBottom a b) then bottom
        else top
      else
        if Qeqb m (overlapTop a b) then top
        else if Qeqb m (overlapBottom a b) then bottom
        else if Qeqb m (overlapLeft a b) then left
        else right in
    {| collided := true; direction := Some dir; overlap := Some m |}.

(** The guard of [resolveCollision]: [!result.overlap] holds for a missing
    and for a zero overlap. *)
Definition rejected (result : CollisionResult) : bool :=
  negb (collided result)
  || match direction result with Some _ => false | None => true end
  || match overlap result with Some m => Qeqb m 0 | None => true end.

Definition resolveCollision (ph : t) (a b : Entity) (result : CollisionResult) : Entity :=
  if rejected result then a
  else
    let bounce :=
      if bouncy a
      then nullish (bounceCoefficient a) (defaultBounceCoefficient ph)
      else 0 in
    match direction result with
    | Some top =>
        if Qleb 0 (velocityY a)
        then set_onGround true (set_velocityY 0 (set_y (y b - height a) a))
        else a
    | Some bottom =>
        let a1 := set_y (y b + height b) a in
        set_velocityY (- velocityY a1 * bounce) a1
    | Some left =>
        let a1 := set_x (x b - width a) a in
        set_velocityX (- velocityX a1 * bounce) a1
    | Some right =>
        let a1 := set_x (x b + width b) a in
        set_velocityX (- velocityX a1 * bounce) a1
    | None => a
    end.

(** [checkCollisions(entity, others)] on references: [entity] is mutated in
    place, each [other] is read in its current state, and the object itself
    is skipped by identity. *)
Definition collideWith (ph : t) (entity : Addr) (h : Heap) (other : Addr) : Heap :=
  if Nat.eqb entity other then h
  else
    match h !! entity, h !! other with
    | Some a, Some b =>
        let result := detectCollision a b in
        if collided result
        then <[entity := resolveCollision ph a b result]> h
        else h
    | _, _ => h
    end.

Definition checkCollisions (ph : t) (entity : Addr) (others : list Addr) (h : Heap) : Heap :=
  fold_left (collideWith ph entity) others h.

End Physics.

(** ** A JS [Map] with string keys, in insertion order *)

Section JSMap.
Context {V : Type}.

Fixpoint mapGet (k : string) (m : list (string * V)) : option V :=
  match m with
  | [] => None
  | (k', v) :: m' => if String.eqb k k' then Some v else mapGet k m'
  end.

(** [set] overwrites in place when the key exists and appends otherwise. *)
Fixpoint mapSet (k : string) (v : V) (m : list (string * V)) : list (string * V) :=
  match m with
  | [] => [(k, v)]
  | (k', v') :: m' =>
      if String.eqb k k' then (k, v) :: m' else (k', v') :: mapSet k v m'
  end.

Fixpoint mapDelete (k : string) (m : list (string * V)) : list (string * V) :=
  match m with
  | [] => []
  | (k', v') :: m' =>
      if String.eqb k k' then mapDelete k m' else (k', v') :: mapDelete k m'
  end.

Definition mapKeys (m : list (string * V)) : list string := map fst m.
Definition mapValues (m : list (string * V)) : list V := map snd m.
End JSMap.

(** ** Scene (scene.ts) *)

Module Scene.

(** What a behaviour hook may ask of the scene it runs in. *)
Inductive Request : Type :=
| AddEntity (entity : Addr)
| RemoveEntity (entityId : string).

(** The [update] hook of a behaviour: it receives the entity and the delta
    time, may mutate any object, and may call [addEntity]/[removeEntity]. *)
Definition Hook : Type := Addr -> Q -> Heap -> Heap * list Request.

Record t : Type := mk {
  name : string;
  entities : list (string * Addr);
  physics : Physics.t;
  backgroundColor : string;
  entitiesToAdd : list Addr;
  entitiesToRemove : list string;
  isUpdating : bool
}.

Record SceneOptions : Type := mkOptions {
  opt_name : string;
  opt_gravity : option Q;
  opt_friction : option Q;
  opt_backgroundColor : option string
}.

Definition new (options : SceneOptions) : t :=
  {| name := opt_name options;
     entities := [];
     physics := Physics.new (Physics.mkOptions (opt_gravity options) (opt_friction options) None None);
     backgroundColor := opt_str_or (opt_backgroundColor options) "#000";
     entitiesToAdd := [];
     entitiesToRemove := [];
     isUpdating := false |}.

Definition set_entities (v : list (string * Addr)) (s : t) : t :=
  mk (name s) v (physics s) (backgroundColor s) (entitiesToAdd s) (entitiesToRemove s) (isUpdating s).
Definition set_entitiesToAdd (v : list Addr) (s : t) : t :=
  mk (name s) (entities s) (physics s) (backgroundColor s) v (entitiesToRemove s) (isUpdating s).
Definition set_entitiesToRemove (v : list string) (s : t) : t :=
  mk (name s) (entities s) (physics s) (backgroundColor s) (entitiesToAdd s) v (isUpdating s).
Definition set_isUpdating (v : bool) (s : t) : t :=
  mk (name s) (entities s) (physics s) (backgroundColor s) (entitiesToAdd s) (entitiesToRemove s) v.

(** [entities.set(entity.id, entity)]; the id is read from the object. *)
Definition insertEntity (h : Heap) (entity : Addr) (s : t) : t :=
  match h !! entity with
  | Some e => set_entities (mapSet (id e) entity (entities s)) s
  | None => s
  end.

(** [entity.destroy(); entities.delete(entityId)] when the id is present. *)
Definition deleteEntity (entityId : string) (hs : Heap * t) : Heap * t :=
  let '(h, s) := hs in
  match mapGet entityId (entities s) with
  | Some a => (mutate a destroy h, set_entities (mapDelete entityId (entities s)) s)
  | None => (h, s)
  end.

Definition addEntity (entity : Addr) (hs : Heap * t) : Heap * t :=
  let '(h, s) := hs in
  if isUpdating s
  then (h, set_entitiesToAdd (entitiesToAdd s ++ [entity]) s)
  else (h, insertEntity h entity s).

Definition removeEntity (entityId : string) (hs : Heap * t) : Heap * t :=
  let '(h, s) := hs in
  if isUpdating s
  then (h, set_entitiesToRemove (entitiesToRemove s ++ [entityId]) s)
  else deleteEntity entityId (h, s).

Definition getEntity (entityId : string) (s : t) : option Addr :=
  mapGet entityId (entities s).

Definition tagged (h : Heap) (tag : string) (a : Addr) : bool :=
  match h !! a with
  | Some e => hasTag tag e
  | None => false
  end.

Definition getEntitiesByTag (tag : string) (h : Heap) (s : t) : list Addr :=
  filter (fun a => tagged h tag a = true) (mapValues (entities s)).

Definition serve (hs : Heap * t) (r : Request) : Heap * t :=
  match r with
  | AddEntity entity => addEntity entity hs
  | RemoveEntity entityId => removeEntity entityId hs
  end.

(** One removal of [processPendingEntities]; the [if (entityId)] test skips
    the empty id. *)
Definition dropId (hs : Heap * t) (entityId : string) : Heap * t :=
  if String.eqb entityId "" then hs else deleteEntity entityId hs.

(** [processPendingEntities]: both buffers are drained with [pop], that is
    from the most recent request to the oldest, additions first. *)
Definition processPendingEntities (hs : Heap * t) : Heap * t :=
  let '(h, s) := hs in
  let s1 :=
    set_entitiesToAdd []
      (fold_left (fun s a => insertEntity h a s) (rev (entitiesToAdd s)) s) in
  let '(h2, s2) := fold_left dropId (rev (entitiesToRemove s1)) (h, s1) in
  (h2, set_entitiesToRemove [] s2).

(** [clear()] *)
Definition clear (hs : Heap * t) : Heap * t :=
  let '(h, s) := hs in
  (fold_left (fun h a => mutate a destroy h) (mapValues (entities s)) h,
   set_entitiesToRemove [] (set_entitiesToAdd [] (set_entities [] s))).

Definition hasEntity (entityId : string) (s : t) : bool :=
  match mapGet entityId (entities s) with Some _ => true | None => false end.

Definition getEntityCount (s : t) : nat := List.length (entities s).

Section WithBehaviors.
(** The behaviours known to the host, by name; [None] when the behaviour
    declares no [update] hook. *)
Variable behaviorUpdate : string -> option Hook.

(** One behaviour of [Entity.update]: run the hook and serve its scene
    calls. *)
Definition runBehavior (entity : Addr) (deltaTime : Q) (hs : Heap * t) (b : string) : Heap * t :=
  match behaviorUpdate b with
  | Some hook =>
      let '(h', requests) := hook entity deltaTime (fst hs) in
      fold_left serve requests (h', snd hs)
  | None => hs
  end.

(** [Entity.update(deltaTime)]: nothing when inactive, else every
    behaviour in attachment order. *)
Definition entityUpdate (entity : Addr) (deltaTime : Q) (hs : Heap * t) : Heap * t :=
  match fst hs !! entity with
  | Some e =>
      if active e
      then fold_left (runBehavior entity deltaTime) (behaviors e) hs
      else hs
  | None => hs
  end.

(** The state of the first loop of [Scene.update]. *)
Record Pass : Type := mkPass {
  heap : Heap;
  scene : t;
  physicsEntities : list Addr;
  platformEntities : list Addr
}.

(** The body of [entities.forEach]: update an active entity, then file it
    under platforms or under physics entities by its tags. *)
Definition visit (deltaTime : Q) (p : Pass) (entity : Addr) : Pass :=
  match heap p !! entity with
  | Some e =>
      if active e
      then
        let '(h', s') := entityUpdate entity deltaTime (heap p, scene p) in
        if tagged h' "platform" entity
        then mkPass h' s' (physicsEntities p) (platformEntities p ++ [entity])
        else mkPass h' s' (physicsEntities p ++ [entity]) (platformEntities p)
      else p
  | None => p
  end.

Definition collect (deltaTime : Q) (h : Heap) (s : t) : Pass :=
  fold_left (visit deltaTime) (mapValues (entities s)) (mkPass h s [] []).

(** The body of [physicsEntities.forEach]. *)
Definition simulate (ph : Physics.t) (physicsEntities platformEntities : list Addr)
    (h : Heap) (entity : Addr) : Heap :=
  let h1 := mutate entity (Physics.update ph) h in
  let h2 := Physics.checkCollisions ph entity physicsEntities h1 in
  Physics.checkCollisions ph entity platformEntities h2.

Definition physicsPass (ph : Physics.t) (physicsEntities platformEntities : list Addr)
    (h : Heap) : Heap :=
  fold_left (simulate ph physicsEntities platformEntities) physicsEntities h.

(** [Scene.update] up to, and not including, [isUpdating = false]. *)
Definition updatePass (deltaTime : Q) (h : Heap) (s : t) : Heap * t :=
  let p := collect deltaTime h (set_isUpdating true s) in
  (physicsPass (physics (scene p)) (physicsEntities p) (platformEntities p) (heap p),
   scene p).

Definition update (deltaTime : Q) (h : Heap) (s : t) : Heap * t :=
  let '(h1, s1) := updatePass deltaTime h s in
  processPendingEntities (h1, set_isUpdating false s1).
End WithBehaviors.

End Scene.

(** ** AssetManager (asset.ts): loading *)

Module Asset.

Inductive AssetType : Type := image | spritesheet | json | binary.

(** A decoded JSON document, as far as the loader looks into it. *)
Record JsonDoc : Type := mkJson {
  imageUrl : option string;
  imageField : option string;
  frames : list (Q * Q * Q * Q);
  body : string
}.

(** [asset.data] once loaded. *)
Inductive Payload : Type :=
| ImageData (src : string)
| SheetData (img : string) (frames : list (Q * Q * Q * Q))
| JsonData (doc : JsonDoc)
| BinaryData (bytes : list Byte.byte).

(** How an awaited operation settles. *)
Inductive Settled (A : Type) : Type :=
| Resolved (value : A)
| Rejected (message : string).
Arguments Resolved {A} value.
Arguments Rejected {A} message.

(** The network and the decoders, as the host answers them. *)
Record Host : Type := mkHost {
  loadImage : string -> Settled string;
  loadJson : string -> Settled JsonDoc;
  loadBinary : string -> Settled (list Byte.byte)
}.

Record Asset : Type := mkAsset {
  a_id : string;
  url : string;
  type : AssetType;
  loaded : bool;
  a_data : option Payload;
  error : option string
}.

Record t : Type := mk {
  assets : gmap string Asset;
  loadPromises : gmap string (Settled Asset);
  baseUrl : string
}.

Definition new (base : string) : t :=
  {| assets := ∅; loadPromises := ∅; baseUrl := base |}.

Definition set_assets (v : gmap string Asset) (m : t) : t :=
  mk v (loadPromises m) (baseUrl m).
Definition set_loadPromises (v : gmap string (Settled Asset)) (m : t) : t :=
  mk (assets m) v (baseUrl m).

Definition startsWith (p s : string) : bool := String.prefix p s.

Fixpoint includes (needle hay : string) : bool :=
  String.prefix needle hay ||
  match hay with
  | EmptyString => false
  | String _ rest => includes needle rest
  end.

Definition endsWith (suffix s : string) : bool :=
  let n := String.length s in
  let k := String.length suffix in
  (k <=? n)%nat && String.eqb (String.substring (n - k) k s) suffix.

(** [toLowerCase] on the ASCII letters. *)
Definition lowerChar (c : Ascii.ascii) : Ascii.ascii :=
  let n := Ascii.nat_of_ascii c in
  if ((65 <=? n) && (n <=? 90))%nat then Ascii.ascii_of_nat (n + 32) else c.

Fixpoint toLowerCase (s : string) : string :=
  match s with
  | EmptyString => EmptyString
  | String c rest => String (lowerChar c) (toLowerCase rest)
  end.

Definition getFullUrl (m : t) (u : string) : string :=
  if startsWith "http://" u || startsWith "https://" u || startsWith "data:" u
  then u
  else baseUrl m ++ u.

Definition inferTypeFromUrl (u : string) : AssetType :=
  let lowerUrl := toLowerCase u in
  if endsWith ".png" lowerUrl || endsWith ".jpg" lowerUrl || endsWith ".jpeg" lowerUrl
     || endsWith ".gif" lowerUrl || endsWith ".webp" lowerUrl
  then image
  else if endsWith ".json" lowerUrl
  then
    if includes "spritesheet" lowerUrl || includes "sprite-sheet" lowerUrl
       || includes "sprite_sheet" lowerUrl
    then spritesheet
    else json
  else binary.

(** The [switch] of [loadAssetData]: what the awaited loads deliver for an
    asset of the given type. *)
Definition fetchData (net : Host) (m : t) (ty : AssetType) (u : string) : Settled Payload :=
  let fullUrl := getFullUrl m u in
  match ty with
  | image =>
      match loadImage net fullUrl with
      | Resolved i => Resolved (ImageData i)
      | Rejected msg => Rejected msg
      end
  | spritesheet =>
      match loadJson net fullUrl with
      | Resolved spriteData =>
          let target :=
            getFullUrl m
              (opt_str_or (imageUrl spriteData) (opt_str_or (imageField spriteData) "")) in
          match loadImage net target with
          | Resolved i => Resolved (SheetData i (frames spriteData))
          | Rejected msg => Rejected msg
          end
      | Rejected msg => Rejected msg
      end
  | json =>
      match loadJson net fullUrl with
      | Resolved d => Resolved (JsonData d)
      | Rejected msg => Rejected msg
      end
  | binary =>
      match loadBinary net fullUrl with
      | Resolved b => Resolved (BinaryData b)
      | Rejected msg => Rejected msg
      end
  end.

(** [loadAssetData(asset)]: the asset object is mutated in place and stored
    again under its id, whichever way the load settles.  The second
    component is the asset object as the call leaves it. *)
Definition loadAssetData (net : Host) (asset : Asset) (m : t) : t * Asset * Settled Asset :=
  match fetchData net m (type asset) (url asset) with
  | Resolved d =>
      let asset' := mkAsset (a_id asset) (url asset) (type asset) true (Some d) (error asset) in
      (set_assets (<[a_id asset := asset']> (assets m)) m, asset', Resolved asset')
  | Rejected msg =>
      let asset' :=
        mkAsset (a_id asset) (url asset) (type asset) (loaded asset) (a_data asset) (Some msg) in
      (set_assets (<[a_id asset := asset']> (assets m)) m, asset', Rejected msg)
  end.

(** [loadAsset(id, url, options)], each await answered by the host.  A
    promise found in [loadPromises] is represented by the way it settles. *)
Definition loadAsset (net : Host) (i u : string) (optType : option AssetType) (m : t)
    : t * Settled Asset :=
  match assets m !! i with
  | Some existing => (m, Resolved existing)
  | None =>
      match loadPromises m !! i with
      | Some promise => (m, promise)
      | None =>
          let ty := default (inferTypeFromUrl u) optType in
          let asset := mkAsset i u ty false None None in
          let m1 := set_assets (<[i := asset]> (assets m)) m in
          let '(m2, asset', loadPromise) := loadAssetData net asset m1 in
          let m3 := set_loadPromises (<[i := loadPromise]> (loadPromises m2)) m2 in
          match loadPromise with
          | Resolved loadedAsset =>
              (set_loadPromises (delete i (loadPromises m3)) m3, Resolved loadedAsset)
          | Rejected msg =>
              let m4 := set_loadPromises (delete i (loadPromises m3)) m3 in
              let failed :=
                mkAsset (a_id asset') (url asset') (type asset') (loaded asset')
                  (a_data asset') (Some msg) in
              (set_assets (<[i := failed]> (assets m4)) m4, Rejected msg)
          end
      end
  end.

Definition getAsset (i : string) (m : t) : option Asset := assets m !! i.

End Asset.

(** ** GameEngine (engine.ts) *)

Module Engine.

(** *** The declarative game data ([gameData.parameters]) *)

Record PlatformParams : Type := mkPlatform {
  pf_x : option Q;
  pf_y : option Q;
  pf_width : option Q;
  pf_height : option Q;
  pf_color : option string;
  pf_sprite : option string;
  pf_type : option string;
  pf_movingPlatform : bool;
  pf_moveSpeed : option Q;
  pf_moveDistance : option Q;
  pf_moveDirection : option string;
  pf_disappearDuration : option Q
}.

Record Level : Type := mkLevel {
  lv_name : string;
  platforms : option (list PlatformParams);
  background : option string;
  requiredCollectibles : option Q
}.

Record World : Type := mkWorld {
  w_width : option Q;
  w_height : option Q;
  w_gravity : option Q;
  w_friction : option Q;
  levels : option (list Level)
}.

Record PlayerParams : Type := mkPlayer {
  startX : option Q;
  startY : option Q;
  pl_size : option Q;
  pl_acceleration : option Q;
  pl_speed : option Q;
  pl_jumpForce : option Q;
  pl_color : option string
}.

Record EnemyParams : Type := mkEnemy {
  en_x : option Q;
  en_y : option Q;
  en_size : option Q;
  en_speed : option Q;
  en_speedY : option Q;
  en_direction : option Q;
  en_range : option Q;
  en_behavior : option string;
  en_color : option string
}.

Record CollectibleParams : Type := mkCollectible {
  co_x : option Q;
  co_y : option Q;
  co_size : option Q;
  co_value : option Q;
  co_color : option string;
  co_sound : option string
}.

(** An absent [enemies] or [collectibles] array reads like an empty one. *)
Record Parameters : Type := mkParameters {
  world : option World;
  player : option PlayerParams;
  enemies : list EnemyParams;
  collectibles : list CollectibleParams
}.

(** What the engine writes to the console. *)
Inductive LogEntry : Type :=
| LevelDoesNotExist (levelIndex : nat)
| LoadingLevel (levelIndex : nat) (levelName : string)
| LevelComplete.

(** *** The engine state

    [sounds] lists the ids handed to [playSound], oldest first.  [timers]
    holds the level index captured by each pending [setTimeout] callback of
    [goToNextLevel]; [restartArmed] tells whether the restart listener is
    attached.  [generated] counts the entity ids generated so far. *)
Record t : Type := mk {
  gameData : Parameters;
  heap : Heap;
  activeScene : option Scene.t;
  rendererBackground : option string;
  currentLevelIndex : nat;
  score : Q;
  collectedItems : nat;
  totalCollectibles : nat;
  gameCompleted : bool;
  levelTransitioning : bool;
  sounds : list JSVal;
  console : list LogEntry;
  timers : list nat;
  restartArmed : bool;
  generated : nat
}.

Definition set_heap (v : Heap) (st : t) : t :=
  mk (gameData st) v (activeScene st) (rendererBackground st) (currentLevelIndex st) (score st) (collectedItems st) (totalCollectibles st) (gameCompleted st) (levelTransitioning st) (sounds st) (console st) (timers st) (restartArmed st) (generated st).
Definition set_activeScene (v : option Scene.t) (st : t) : t :=
  mk (gameData st) (heap st) v (rendererBackground st) (currentLevelIndex st) (score st) (collectedItems st) (totalCollectibles st) (gameCompleted st) (levelTransitioning st) (sounds st) (console st) (timers st) (restartArmed st) (generated st).
Definition set_rendererBackground (v : option string) (st : t) : t :=
  mk (gameData st) (heap st) (activeScene st) v (currentLevelIndex st) (score st) (collectedItems st) (totalCollectibles st) (gameCompleted st) (levelTransitioning st) (sounds st) (console st) (timers st) (restartArmed st) (generated st).
Definition set_currentLevelIndex (v : nat) (st : t) : t :=
  mk (gameData st) (heap st) (activeScene st) (rendererBackground st) v (score st) (collectedItems st) (totalCollectibles st) (gameCompleted st) (levelTransitioning st) (sounds st) (console st) (timers st) (restartArmed st) (generated st).
Definition set_score (v : Q) (st : t) : t :=
  mk (gameData st) (heap st) (activeScene st) (rendererBackground st) (currentLevelIndex st) v (collectedItems st) (totalCollectibles st) (gameCompleted st) (levelTransitioning st) (sounds st) (console st) (timers st) (restartArmed st) (generated st).
Definition set_collectedItems (v : nat) (st : t) : t :=
  mk (gameData st) (heap st) (activeScene st) (rendererBackground st) (currentLevelIndex st) (score st) v (totalCollectibles st) (gameCompleted st) (levelTransitioning st) (sounds st) (console st) (timers st) (restartArmed st) (generated st).
Definition set_totalCollectibles (v : nat) (st : t) : t :=
  mk (gameData st) (heap st) (activeScene st) (rendererBackground st) (currentLevelIndex st) (score st) (collectedItems st) v (gameCompleted st) (levelTransitioning st) (sounds st) (console st) (timers st) (restartArmed st) (generated st).
Definition set_gameCompleted (v : bool) (st : t) : t :=
  mk (gameData st) (heap st) (activeScene st) (rendererBackground st) (currentLevelIndex st) (score st) (collectedItems st) (totalCollectibles st) v (levelTransitioning st) (sounds st) (console st) (timers st) (restartArmed st) (generated st).
Definition set_levelTransitioning (v : bool) (st : t) : t :=
  mk (gameData st) (heap st) (activeScene st) (rendererBackground st) (currentLevelIndex st) (score st) (collectedItems st) (totalCollectibles st) (gameCompleted st) v (sounds st) (console st) (timers st) (restartArmed st) (generated st).
Definition set_sounds (v : list JSVal) (st : t) : t :=
  mk (gameData st) (heap st) (activeScene st) (rendererBackground st) (currentLevelIndex st) (score st) (collectedItems st) (totalCollectibles st) (gameCompleted st) (levelTransitioning st) v (console st) (timers st) (restartArmed st) (generated st).
Definition set_console (v : list LogEntry) (st : t) : t :=
  mk (gameData st) (heap st) (activeScene st) (rendererBackground st) (currentLevelIndex st) (score st) (collectedItems st) (totalCollectibles st) (gameCompleted st) (levelTransitioning st) (sounds st) v (timers st) (restartArmed st) (generated st).
Definition set_timers (v : list nat) (st : t) : t :=
  mk (gameData st) (heap st) (activeScene st) (rendererBackground st) (currentLevelIndex st) (score st) (collectedItems st) (totalCollectibles st) (gameCompleted st) (levelTransitioning st) (sounds st) (console st) v (restartArmed st) (generated st).
Definition set_restartArmed (v : bool) (st : t) : t :=
  mk (gameData st) (heap st) (activeScene st) (rendererBackground st) (currentLevelIndex st) (score st) (collectedItems st) (totalCollectibles st) (gameCompleted st) (levelTransitioning st) (sounds st) (console st) (timers st) v (generated st).
Definition set_generated (v : nat) (st : t) : t :=
  mk (gameData st) (heap st) (activeScene st) (rendererBackground st) (currentLevelIndex st) (score st) (collectedItems st) (totalCollectibles st) (gameCompleted st) (levelTransitioning st) (sounds st) (console st) (timers st) (restartArmed st) v.

(** How a call ends: it returns, it throws a [TypeError] (reading a property
    of [undefined]) in the state reached so far, or it computes with a value
    that is no finite number. *)
Inductive Completion : Type :=
| Normal (st : t)
| TypeError (st : t)
| OutOfModel.

Definition bind (c : Completion) (k : t -> Completion) : Completion :=
  match c with
  | Normal st => k st
  | TypeError st => TypeError st
  | OutOfModel => OutOfModel
  end.

Notation "'do' st <- c ; k" := (bind c (fun st => k))
  (at level 10, st name, c at level 100, k at level 200).

Fixpoint forEach {A : Type} (f : t -> A -> Completion) (l : list A) (st : t) : Completion :=
  match l with
  | [] => Normal st
  | a :: l' => do st' <- f st a; forEach f l' st'
  end.

(** [forEach((item, index) => ...)] for callbacks that cannot throw. *)
Fixpoint forEachIndexed {A : Type} (f : nat -> A -> t -> t) (index : nat) (l : list A) (st : t) : t :=
  match l with
  | [] => st
  | a :: l' => forEachIndexed f (S index) l' (f index a st)
  end.

Definition ofNat (n : nat) : Q := inject_Z (Z.of_nat n).

Definition playSound (soundId : JSVal) (st : t) : t :=
  set_sounds (sounds st ++ [soundId]) st.

Definition log (entry : LogEntry) (st : t) : t :=
  set_console (console st ++ [entry]) st.

(** [checkCollision(a, b)]: strict overlap of the two boxes. *)
Definition checkCollision (a b : Entity) : bool :=
  Qltb (x a) (x b + width b) && Qltb (x b) (x a + width a)
  && Qltb (y a) (y b + height b) && Qltb (y b) (y a + height a).

(** The sprite ids [`enemy_${index % 3}`] and [`collectible_${index % 3}`]. *)
Definition spriteName (stem : string) (index : nat) : string :=
  stem ++ match (index mod 3)%nat with
          | O => "0"
          | S O => "1"
          | _ => "2"
          end.

Definition entityOptions (px py w h : Q) (vx vy acc : option Q) (col : string)
    (tgs : list string) : EntityOptions :=
  {| o_id := None; o_x := px; o_y := py; o_width := w; o_height := h;
     o_velocityX := vx; o_velocityY := vy; o_acceleration := acc;
     o_gravity := None; o_friction := None; o_color := Some col;
     o_solid := Some true; o_bouncy := None; o_bounceCoefficient := None;
     o_mass := None; o_tags := Some tgs; o_active := None; o_visible := None |}.

Definition playerEntity (generatedId : string) (p : PlayerParams) : Entity :=
  let e :=
    newEntity generatedId
      (entityOptions (opt_num_or (startX p) 100) (opt_num_or (startY p) 100)
         (opt_num_or (pl_size p) 32) (opt_num_or (pl_size p) 32)
         (Some 0) (Some 0) (Some (opt_num_or (pl_acceleration p) (1 # 2)))
         (opt_str_or (pl_color p) "#ffffff") ["player"]) in
  setData "facingLeft" (VBool false)
    (setData "sprite" (VStr "player")
       (setData "jumpForce" (VNum (opt_num_or (pl_jumpForce p) 10))
          (setData "maxSpeed" (VNum (opt_num_or (pl_speed p) 5)) e))).

(** [enemy.direction * (enemy.speed || 2)] is NaN when the direction is
    absent, and the constructor's [|| 0] then yields 0: an absent velocity
    option gives the same. *)
Definition enemyEntity (generatedId : string) (index : nat) (enemy : EnemyParams) : Entity :=
  let e :=
    newEntity generatedId
      (entityOptions (opt_num_or (en_x enemy) (200 + ofNat index * 100))
         (opt_num_or (en_y enemy) 100)
         (opt_num_or (en_size enemy) 32) (opt_num_or (en_size enemy) 32)
         (match en_direction enemy with
          | Some d => Some (d * opt_num_or (en_speed enemy) 2)
          | None => None
          end)
         (Some (opt_num_or (en_speedY enemy) 0)) None
         (opt_str_or (en_color enemy) "#ff0000") ["enemy"]) in
  setData "speed" (VNum (opt_num_or (en_speed enemy) 2))
    (setData "range" (VNum (opt_num_or (en_range enemy) 100))
       (setData "direction" (VNum (opt_num_or (en_direction enemy) 1))
          (setData "startX" (opt_num_val (en_x enemy))
             (setData "behavior" (VStr (opt_str_or (en_behavior enemy) "patrol"))
                (setData "sprite" (VStr (spriteName "enemy_" index)) e))))).

Definition collectibleEntity (generatedId : string) (index : nat) (c : CollectibleParams) : Entity :=
  let e :=
    newEntity generatedId
      (entityOptions (opt_num_or (co_x c) (150 + ofNat index * 70))
         (opt_num_or (co_y c) 150)
         (opt_num_or (co_size c) 24) (opt_num_or (co_size c) 24)
         None None None
         (opt_str_or (co_color c) "#ffff00") ["collectible"; "platform"]) in
  setData "sound" (VStr (opt_str_or (co_sound c) "collect"))
    (setData "value" (VNum (opt_num_or (co_value c) 10))
       (setData "sprite" (VStr (spriteName "collectible_" index)) e)).

Definition platformEntity (generatedId : string) (index : nat) (p : PlatformParams) : Entity :=
  let e0 :=
    newEntity generatedId
      (entityOptions (opt_num_or (pf_x p) (100 + ofNat index * 150))
         (opt_num_or (pf_y p) 400)
         (opt_num_or (pf_width p) 100) (opt_num_or (pf_height p) 20)
         None None None
         (opt_str_or (pf_color p) "#555555") ["platform"]) in
  let e1 :=
    setData "type" (VStr (opt_str_or (pf_type p) "solid"))
      (setData "sprite"
         (match pf_sprite p with
          | Some s => if String.eqb s "" then VNull else VStr s
          | None => VNull
          end) e0) in
  let e2 :=
    if pf_movingPlatform p
    then
      setData "movePhase" (VNum 0)
        (setData "startY" (opt_num_val (pf_y p))
           (setData "startX" (opt_num_val (pf_x p))
              (setData "moveDirection" (VStr (opt_str_or (pf_moveDirection p) "horizontal"))
                 (setData "moveDistance" (VNum (opt_num_or (pf_moveDistance p) 100))
                    (setData "moveSpeed" (VNum (opt_num_or (pf_moveSpeed p) 1))
                       (setData "movingPlatform" (VBool true) e1))))))
    else e1 in
  if match pf_type p with Some ty => String.eqb ty "temporary" | None => false end
  then
    setData "disappearDuration" (VNum (opt_num_or (pf_disappearDuration p) 1))
      (setData "disappearTime" (VNum 0)
         (setData "temporary" (VBool true) e2))
  else e2.

(** [params.world.levels[levelIndex]] behind the guards of [loadLevel]:
    absent when the world, its level list or the indexed level is. *)
Definition levelAt (params : Parameters) (levelIndex : nat) : option Level :=
  match world params with
  | Some w =>
      match levels w with
      | Some ls => ls !! levelIndex
      | None => None
      end
  | None => None
  end.

Section WithHost.
(** The behaviours of the host, and the ids the constructor generates from
    the clock and the random source: [freshId n] is the n-th of them. *)
Variable behaviorUpdate : string -> option Scene.Hook.
Variable freshId : nat -> string.

(** [activeScene.addEntity(new Entity(...))] with the entity built by
    [build] from its generated id. *)
Definition spawn (build : string -> Entity) (st : t) : t :=
  match activeScene st with
  | Some sc =>
      let '(h1, a) := alloc (build (freshId (generated st))) (heap st) in
      let '(h2, sc') := Scene.addEntity a (h1, sc) in
      set_generated (S (generated st)) (set_activeScene (Some sc') (set_heap h2 st))
  | None => st
  end.

(** [loadLevel(levelIndex)] *)
Definition loadLevel (levelIndex : nat) (st : t) : t :=
  match activeScene st with
  | None => st
  | Some sc =>
      let '(h1, sc1) := Scene.clear (heap st, sc) in
      let st1 := set_activeScene (Some sc1) (set_heap h1 st) in
      let params := gameData st1 in
      match levelAt params levelIndex with
      | None => log (LevelDoesNotExist levelIndex) st1
      | Some level =>
          let st2 := log (LoadingLevel levelIndex (lv_name level)) st1 in
          let st3 :=
            match player params with
            | Some p => spawn (fun g => playerEntity g p) st2
            | None => st2
            end in
          let st4 :=
            forEachIndexed (fun index enemy => spawn (fun g => enemyEntity g index enemy))
              0 (enemies params) st3 in
          let st5 :=
            match collectibles params with
            | [] => st4
            | cs =>
                forEachIndexed (fun index c => spawn (fun g => collectibleEntity g index c))
                  0 cs (set_totalCollectibles (List.length cs) st4)
            end in
          let st6 :=
            match platforms level with
            | Some ps =>
                forEachIndexed (fun index p => spawn (fun g => platformEntity g index p))
                  0 ps st5
            | None => st5
            end in
          match background level, rendererBackground st6 with
          | Some bg, Some _ =>
              if String.eqb bg "" then st6 else set_rendererBackground (Some bg) st6
          | _, _ => st6
          end
      end
  end.

(** [initializeEntities()] *)
Definition initializeEntities (st : t) : t :=
  match activeScene st with
  | None => st
  | Some _ =>
      let st1 :=
        set_gameCompleted false
          (set_totalCollectibles 0
             (set_collectedItems 0 (set_score 0 (set_currentLevelIndex 0 st)))) in
      loadLevel (currentLevelIndex st1) st1
  end.

(** The callback [goToNextLevel] hands to [setTimeout], when it fires. *)
Definition levelTimerFires (nextLevelIndex : nat) (st : t) : t :=
  let st1 := set_currentLevelIndex nextLevelIndex st in
  set_levelTransitioning false (loadLevel (currentLevelIndex st1) st1).

(** The restart listener of the completed game. *)
Definition restartHandler (st : t) : t :=
  let st1 :=
    set_gameCompleted false
      (set_collectedItems 0
         (set_score 0 (set_currentLevelIndex 0 (set_restartArmed false st)))) in
  set_levelTransitioning false (loadLevel (currentLevelIndex st1) st1).

(** *** The frame update *)

(** [Math.sin] and [Math.PI], as the host computes them. *)
Variable Math_sin : Q -> Q.
Variable Math_PI : Q.

(** [a % b] on numbers; NaN, hence no result, for a zero divisor. *)
Definition remainder (a b : Q) : option Q :=
  if Qeqb b 0 then None
  else
    let q := a / b in
    Some (a - b * inject_Z (Z.quot (Qnum q) (Z.pos (Qden q)))).

(** A data-bag value used as a number.  [undefined] gives NaN and a
    string follows the string rules of the operators: both are left
    outside the model. *)
Definition toNumber (v : JSVal) : option Q :=
  match v with
  | VNum q => Some q
  | VBool b => Some (if b then 1 else 0)
  | VNull => Some 0
  | VUndefined => None
  | VStr _ => None
  end.

(** [v > q] and [v < q]: false against NaN. *)
Definition js_gt (v : JSVal) (q : Q) : option bool :=
  match v with
  | VUndefined => Some false
  | _ => option_map (fun n => Qltb q n) (toNumber v)
  end.

Definition js_lt (v : JSVal) (q : Q) : option bool :=
  match v with
  | VUndefined => Some false
  | _ => option_map (fun n => Qltb n q) (toNumber v)
  end.

(** [v === 0] *)
Definition is_zero (v : JSVal) : bool :=
  match v with
  | VNum q => Qeqb q 0
  | _ => false
  end.

Definition onHeap (f : Heap -> Heap) (st : t) : t := set_heap (f (heap st)) st.

(** [updateMovingPlatform(platform, deltaTime)] *)
Definition updateMovingPlatform (platform : Addr) (deltaTime : Q) (st : t) : Completion :=
  match heap st !! platform with
  | None => Normal st
  | Some p =>
      let speed := js_or (getData "moveSpeed" p) (VNum 1) in
      let distance := js_or (getData "moveDistance" p) (VNum 100) in
      let direction := js_or (getData "moveDirection" p) (VStr "horizontal") in
      let startX := js_or (getData "startX" p) (VNum (x p)) in
      let startY := js_or (getData "startY" p) (VNum (y p)) in
      let phase := js_or (getData "movePhase" p) (VNum 0) in
      match toNumber phase, toNumber speed, toNumber distance with
      | Some ph, Some sp, Some dist =>
          match remainder (ph + sp * deltaTime) (Math_PI * 2) with
          | Some phase' =>
              let st1 := onHeap (mutate platform (setData "movePhase" (VNum phase'))) st in
              if str_is direction "horizontal"
              then
                match toNumber startX with
                | Some sx =>
                    Normal (onHeap (mutate platform (set_x (sx + Math_sin phase' * dist))) st1)
                | None => OutOfModel
                end
              else if str_is direction "vertical"
              then
                match toNumber startY with
                | Some sy =>
                    Normal (onHeap (mutate platform (set_y (sy + Math_sin phase' * dist))) st1)
                | None => OutOfModel
                end
              else Normal st1
          | None => OutOfModel
          end
      | _, _, _ => OutOfModel
      end
  end.

(** The body of the first [platforms.forEach] of [update]. *)
Definition platformTick (deltaTime : Q) (st : t) (platform : Addr) : Completion :=
  match heap st !! platform with
  | None => Normal st
  | Some p =>
      do st1 <- (if truthy (getData "movingPlatform" p)
                 then updateMovingPlatform platform deltaTime st
                 else Normal st);
      match heap st1 !! platform with
      | None => Normal st1
      | Some p1 =>
          if truthy (getData "temporary" p1)
          then
            match js_gt (getData "disappearTime" p1) 0 with
            | Some true =>
                match toNumber (getData "disappearTime" p1) with
                | Some currentTime =>
                    let newTime := currentTime - deltaTime in
                    if Qleb newTime 0
                    then Normal (onHeap (mutate platform (set_visible false))
                                   (onHeap (mutate platform (set_active false)) st1))
                    else Normal (onHeap (mutate platform (setData "disappearTime" (VNum newTime))) st1)
                | None => OutOfModel
                end
            | Some false => Normal st1
            | None => OutOfModel
            end
          else Normal st1
      end
  end.

(** [checkLevelCompletion()] *)
Definition checkLevelCompletion (st : t) : Completion :=
  let collectibles :=
    match activeScene st with
    | Some sc => Scene.getEntitiesByTag "collectible" (heap st) sc
    | None => []
    end in
  match levelAt (gameData st) (currentLevelIndex st) with
  | None => TypeError st
  | Some level =>
      let required :=
        opt_num_or (requiredCollectibles level) (ofNat (List.length collectibles)) in
      if Qleb required (ofNat (collectedItems st))
      then Normal (playSound (VStr "collect") (log LevelComplete st))
      else Normal st
  end.

(** [goToNextLevel()]; the overlay it draws is not part of the state. *)
Definition goToNextLevel (st : t) : Completion :=
  if levelTransitioning st then Normal st
  else
    let st1 := set_levelTransitioning true st in
    let nextLevelIndex := S (currentLevelIndex st1) in
    match world (gameData st1) with
    | None => TypeError st1
    | Some w =>
        match levels w with
        | None => TypeError st1
        | Some ls =>
            if (nextLevelIndex <? List.length ls)%nat
            then Normal (set_timers (timers st1 ++ [nextLevelIndex]) st1)
            else Normal (set_restartArmed true (set_gameCompleted true st1))
        end
    end.

(** The player is put back at its spawn point. *)
Definition respawn (player : Addr) (st : t) : Completion :=
  match Engine.player (gameData st) with
  | None => TypeError st
  | Some pp =>
      Normal
        (playSound (VStr "hit")
           (onHeap (mutate player (set_velocityY 0))
              (onHeap (mutate player (set_velocityX 0))
                 (onHeap (mutate player (set_y (opt_num_or (startY pp) 100)))
                    (onHeap (mutate player (set_x (opt_num_or (startX pp) 100))) st)))))
  end.

(** Directional input. *)
Definition handleInput (inputs : string -> bool) (player : Addr) (st : t) : Completion :=
  match heap st !! player with
  | None => Normal st
  | Some p =>
      let facingLeft := js_or (getData "facingLeft" p) (VBool false) in
      let face v st' := Normal (onHeap (mutate player (setData "facingLeft" v)) st') in
      if inputs "ArrowLeft" || inputs "KeyA"
      then
        match toNumber (getData "maxSpeed" p) with
        | Some m => face (VBool true) (onHeap (mutate player (set_velocityX (- m))) st)
        | None => OutOfModel
        end
      else if inputs "ArrowRight" || inputs "KeyD"
      then
        match toNumber (getData "maxSpeed" p) with
        | Some m => face (VBool false) (onHeap (mutate player (set_velocityX m)) st)
        | None => OutOfModel
        end
      else face facingLeft (onHeap (mutate player (set_velocityX 0)) st)
  end.

(** A temporary platform the jumping player touches starts to decay. *)
Definition markTemporary (player : Addr) (st : t) (platform : Addr) : Completion :=
  match heap st !! player, heap st !! platform with
  | Some p, Some pf =>
      if truthy (getData "temporary" pf) && checkCollision p pf
         && is_zero (getData "disappearTime" pf)
      then Normal (onHeap (mutate platform
                     (setData "disappearTime"
                        (js_or (getData "disappearDuration" pf) (VNum 1)))) st)
      else Normal st
  | _, _ => Normal st
  end.

Definition handleJump (inputs : string -> bool) (platforms : list Addr) (player : Addr)
    (st : t) : Completion :=
  match heap st !! player with
  | None => Normal st
  | Some p =>
      if (inputs "ArrowUp" || inputs "KeyW" || inputs "Space") && onGround p
      then
        match toNumber (getData "jumpForce" p) with
        | Some j =>
            let st1 :=
              playSound (VStr "jump")
                (onHeap (mutate player (set_onGround false))
                   (onHeap (mutate player (set_velocityY (- j))) st)) in
            forEach (markTemporary player) platforms st1
        | None => OutOfModel
        end
      else Normal st
  end.

(** The body of [collectibles.forEach]. *)
Definition collectRule (player : Addr) (st : t) (collectible : Addr) : Completion :=
  match heap st !! player, heap st !! collectible with
  | Some p, Some c =>
      if active c && checkCollision p c
      then
        match toNumber (js_or (getData "value" c) (VNum 10)) with
        | Some value =>
            let st1 :=
              set_collectedItems (S (collectedItems st))
                (set_score (score st + value)
                   (onHeap (mutate collectible (set_visible false))
                      (onHeap (mutate collectible (set_active false)) st))) in
            let soundId := getData "sound" c in
            checkLevelCompletion (if truthy soundId then playSound soundId st1 else st1)
        | None => OutOfModel
        end
      else Normal st
  | _, _ => Normal st
  end.

(** The body of [enemies.forEach] in the player rules. *)
Definition enemyRule (player : Addr) (st : t) (enemy : Addr) : Completion :=
  match heap st !! player, heap st !! enemy with
  | Some p, Some e =>
      if active e && checkCollision p e
      then
        if Qltb 0 (velocityY p) && Qltb (y p + height p) (y e + height e / 2)
        then
          Normal
            (playSound (VStr "hit")
               (set_score (score st + 50)
                  (onHeap (mutate player (set_velocityY (-7)))
                     (onHeap (mutate enemy (set_visible false))
                        (onHeap (mutate enemy (set_active false)) st)))))
        else respawn player st
      else Normal st
  | _, _ => Normal st
  end.

(** The player fell below the world. *)
Definition fellOff (player : Addr) (st : t) : Completion :=
  match heap st !! player with
  | None => Normal st
  | Some p =>
      match world (gameData st) with
      | None => TypeError st
      | Some w =>
          match w_height w with
          | Some worldHeight =>
              if Qltb worldHeight (y p) then respawn player st else Normal st
          | None => Normal st
          end
      end
  end.

(** The test of the level exit: [player.x > world.width - player.width * 2]. *)
Definition atExit (w : World) (p : Entity) : bool :=
  match w_width w with
  | Some worldWidth => Qltb (worldWidth - width p * 2) (x p)
  | None => false
  end.

Definition levelExit (player : Addr) (st : t) : Completion :=
  match heap st !! player with
  | None => Normal st
  | Some p =>
      match world (gameData st) with
      | None => TypeError st
      | Some w => if atExit w p then goToNextLevel st else Normal st
      end
  end.

Definition sceneTagged (tag : string) (st : t) : list Addr :=
  match activeScene st with
  | Some sc => Scene.getEntitiesByTag tag (heap st) sc
  | None => []
  end.

(** The player rules of [update] up to the level-exit test. *)
Definition playerRules (inputs : string -> bool) (platforms : list Addr) (player : Addr)
    (st : t) : Completion :=
  do st1 <- handleInput inputs player st;
  do st2 <- handleJump inputs platforms player st1;
  do st3 <- forEach (collectRule player) (sceneTagged "collectible" st2) st2;
  do st4 <- forEach (enemyRule player) (sceneTagged "enemy" st3) st3;
  fellOff player st4.

(** [updatePatrolEnemy(enemy, deltaTime)] *)
Definition updatePatrolEnemy (enemy : Addr) (st : t) : Completion :=
  match heap st !! enemy with
  | None => Normal st
  | Some e =>
      let startX := js_or (getData "startX" e) (VNum (x e)) in
      let range := js_or (getData "range" e) (VNum 100) in
      let speed := js_or (getData "speed" e) (VNum 2) in
      let direction := js_or (getData "direction" e) (VNum 1) in
      match toNumber startX, toNumber range, toNumber speed, toNumber direction with
      | Some sx, Some r, Some sp, Some d =>
          if Qltb 0 d && Qltb (sx + r) (x e)
          then Normal (onHeap (mutate enemy (set_velocityX (- sp)))
                         (onHeap (mutate enemy (setData "direction" (VNum (-1)))) st))
          else if Qltb d 0 && Qltb (x e) (sx - r)
          then Normal (onHeap (mutate enemy (set_velocityX sp))
                         (onHeap (mutate enemy (setData "direction" (VNum 1))) st))
          else Normal st
      | _, _, _, _ => OutOfModel
      end
  end.

Definition enemyAI (st : t) (enemy : Addr) : Completion :=
  match heap st !! enemy with
  | Some e =>
      if active e
      then
        if str_is (getData "behavior" e) "patrol"
        then updatePatrolEnemy enemy st
        else Normal st
      else Normal st
  | None => Normal st
  end.

(** [activeScene.update(deltaTime)] *)
Definition sceneUpdate (deltaTime : Q) (st : t) : t :=
  match activeScene st with
  | Some sc =>
      let '(h, sc') := Scene.update behaviorUpdate deltaTime (heap st) sc in
      set_activeScene (Some sc') (set_heap h st)
  | None => st
  end.

(** [update] from its start to the level-exit test: the state reached and
    the player the test is about, if the rules run at all. *)
Definition updateToExit (deltaTime : Q) (inputs : option (string -> bool)) (st : t)
    : Completion * option Addr :=
  let platforms := sceneTagged "platform" st in
  match forEach (platformTick deltaTime) platforms st with
  | Normal st1 =>
      let st2 := sceneUpdate deltaTime st1 in
      match inputs with
      | Some inp =>
          match sceneTagged "player" st2 with
          | player :: _ => (playerRules inp platforms player st2, Some player)
          | [] => (Normal st2, None)
          end
      | None => (Normal st2, None)
      end
  | stopped => (stopped, None)
  end.

(** [update(deltaTime)].  [inputs] is the key set of the input manager,
    absent when there is no input manager.  The sprite clocks and the
    host's [onUpdate] callback lie outside the engine state. *)
Definition update (deltaTime : Q) (inputs : option (string -> bool)) (st : t) : Completion :=
  if levelTransitioning st then Normal st
  else
    match activeScene st with
    | None => Normal st
    | Some _ =>
        let '(c, player) := updateToExit deltaTime inputs st in
        do st1 <- c;
        do st2 <- match player with
                  | Some pk => levelExit pk st1
                  | None => Normal st1
                  end;
        forEach enemyAI (sceneTagged "enemy" st2) st2
    end.

End WithHost.
End Engine.

(** ** Entity (entity.ts): tags and behaviours *)

Definition set_tags (v : list string) (e : Entity) : Entity :=
  mkEntity (id e) (x e) (y e) (width e) (height e) (velocityX e) (velocityY e)
    (acceleration e) (gravity e) (friction e) (color e) (solid e) (bouncy e)
    (bounceCoefficient e) (mass e) v (active e) (visible e)
    (onGround e) (behaviors e) (data e).

(** [addTag(tag)]: pushed unless the entity has the tag. *)
Definition addTag (tag : string) (e : Entity) : Entity :=
  if hasTag tag e then e else set_tags (tags e ++ [tag]) e.

(** [removeTag(tag)]: [tags.filter(t => t !== tag)] *)
Definition removeTag (tag : string) (e : Entity) : Entity :=
  set_tags (List.filter (fun t => negb (String.eqb t tag)) (tags e)) e.

(** The behaviour table is a [Map] keyed by name; [behaviors] lists its keys
    in insertion order.  The [init] and [destroy] hooks are host code. *)
Definition hasBehavior (name : string) (e : Entity) : bool :=
  existsb (String.eqb name) (behaviors e).

(** [removeBehavior(name)]: [behaviors.delete(name)] *)
Definition removeBehavior (name : string) (e : Entity) : Entity :=
  set_behaviors (List.filter (fun b => negb (String.eqb b name)) (behaviors e)) e.

(** [addBehavior(behavior)]: a behaviour of the same name is removed first,
    then the new one is set, which puts its key last. *)
Definition addBehavior (name : string) (e : Entity) : Entity :=
  let e1 := if hasBehavior name e then removeBehavior name e else e in
  set_behaviors (behaviors e1 ++ [name]) e1.

(** ** Scene (scene.ts): rendering order *)

(** [renderableEntities.sort((a, b) => a.y - b.y)].  The sort of an array is
    stable, so with this comparator its result is the one of any stable
    sort: here each element is inserted behind the elements that are not
    below it. *)
Definition yOf (h : Heap) (a : Addr) : Q :=
  match h !! a with
  | Some e => y e
  | None => 0
  end.

Fixpoint insertByY (h : Heap) (a : Addr) (sorted : list Addr) : list Addr :=
  match sorted with
  | [] => [a]
  | b :: rest =>
      if Qltb (yOf h a) (yOf h b) then a :: b :: rest
      else b :: insertByY h a rest
  end.

Definition sortByY (h : Heap) (l : list Addr) : list Addr :=
  fold_left (fun sorted a => insertByY h a sorted) l [].

Definition isVisible (h : Heap) (a : Addr) : bool :=
  match h !! a with
  | Some e => visible e
  | None => false
  end.

(** [Scene.render(renderer)]: the entities handed to
    [renderer.renderEntities], in drawing order. *)
Definition renderOrder (h : Heap) (s : Scene.t) : list Addr :=
  sortByY h (List.filter (isVisible h) (mapValues (Scene.entities s))).

(** ** AssetManager (asset.ts): getters, sprites *)

Module Sprites.

(** [getImage(id)] and [getJson(id)]: the data of a loaded asset of the
    right type, else [null]. *)
Definition getImage (i : string) (m : Asset.t) : option Asset.Payload :=
  match Asset.assets m !! i with
  | Some a =>
      if Asset.loaded a
      then match Asset.type a with
           | Asset.image => Asset.a_data a
           | _ => None
           end
      else None
  | None => None
  end.

Definition getJson (i : string) (m : Asset.t) : option Asset.Payload :=
  match Asset.assets m !! i with
  | Some a =>
      if Asset.loaded a
      then match Asset.type a with
           | Asset.json => Asset.a_data a
           | _ => None
           end
      else None
  | None => None
  end.

(** [areAssetsLoaded(ids)] *)
Definition areAssetsLoaded (ids : list string) (m : Asset.t) : bool :=
  forallb (fun i => match Asset.assets m !! i with
                    | Some a => Asset.loaded a
                    | None => false
                    end) ids.

Record SpriteFrame : Type := mkFrame {
  f_x : Q;
  f_y : Q;
  f_width : Q;
  f_height : Q
}.

(** An image element is known by its handle, as in [Asset.ImageData]. *)
Record Sprite : Type := mkSprite {
  image : string;
  frames : list SpriteFrame;
  currentFrame : nat;
  frameTime : Q;
  animationTime : Q;
  loop : bool
}.

(** The two nested loops of [createSprite] that tile a sheet:
    [cols = Math.floor(image.width / frameWidth)], likewise [rows]; a count
    that is not positive gives no iteration. *)
Definition gridFrames (imageWidth imageHeight frameWidth frameHeight : Q) : list SpriteFrame :=
  let cols := Z.to_nat (Qfloor (imageWidth / frameWidth)) in
  let rows := Z.to_nat (Qfloor (imageHeight / frameHeight)) in
  flat_map
    (fun row =>
       map (fun col =>
              mkFrame (inject_Z (Z.of_nat col) * frameWidth)
                      (inject_Z (Z.of_nat row) * frameHeight)
                      frameWidth frameHeight)
           (seq 0 cols))
    (seq 0 rows).

(** The body of [sprites.forEach] in [updateSprites(deltaTime)]. *)
Definition updateSprite (deltaTime : Q) (s : Sprite) : Sprite :=
  if (List.length (frames s) <=? 1)%nat then s
  else
    let t := animationTime s + deltaTime in
    if Qleb (frameTime s) t
    then
      let next := ((currentFrame s + 1) mod List.length (frames s))%nat in
      let held :=
        if negb (loop s) && (next =? 0)%nat
        then (List.length (frames s) - 1)%nat
        else next in
      mkSprite (image s) (frames s) held (frameTime s) 0 (loop s)
    else mkSprite (image s) (frames s) (currentFrame s) (frameTime s) t (loop s).

(** The asset manager with its sprite table. *)
Record Manager : Type := mkManager {
  store : Asset.t;
  sprites : gmap string Sprite
}.

Definition updateSprites (deltaTime : Q) (m : Manager) : Manager :=
  mkManager (store m) (updateSprite deltaTime <$> sprites m).

(** [sprite.image === this.getImage(id)] *)
Definition sameImage (img : string) (found : option Asset.Payload) : bool :=
  match found with
  | Some (Asset.ImageData src) => String.eqb img src
  | _ => false
  end.

(** [unloadAsset(id)]: the asset is deleted first, and [getImage(id)] is
    asked afterwards. *)
Definition unloadAsset (i : string) (m : Manager) : Manager * bool :=
  match Asset.assets (store m) !! i with
  | None => (m, false)
  | Some _ =>
      let store' := Asset.set_assets (delete i (Asset.assets (store m))) (store m) in
      (mkManager store'
         (filter (fun kv => sameImage (image (snd kv)) (getImage i store') = false)
                 (sprites m)),
       true)
  end.

End Sprites.

(** ** SoundManager (sound.ts): volume, mute and loading *)

Module Sound.

Record SoundRec : Type := mkSound {
  s_id : string;
  s_url : string;
  buffer : option string;
  loaded : bool;
  s_loop : bool;
  s_volume : Q
}.

(** [context] tells whether the audio context exists; [gainNode] holds
    [gainNode.gain.value] when the master gain node exists.  The playing
    voices are host objects outside this model. *)
Record t : Type := mk {
  context : bool;
  gainNode : option Q;
  sounds : gmap string SoundRec;
  masterVolume : Q;
  muted : bool
}.

Definition new : t :=
  {| context := false; gainNode := None; sounds := ∅; masterVolume := 1; muted := false |}.

(** What the browser does when [initialize] creates the audio objects. *)
Inductive AudioHost : Type :=
| AudioWorks
| ContextFails
| GainFails
| ConnectFails.

(** [initialize()] *)
Definition initialize (host : AudioHost) (st : t) : t * bool :=
  if context st then (st, true)
  else
    match host with
    | AudioWorks =>
        (mk true (Some (masterVolume st)) (sounds st) (masterVolume st) (muted st), true)
    | ContextFails => (st, false)
    | GainFails => (mk true (gainNode st) (sounds st) (masterVolume st) (muted st), false)
    | ConnectFails =>
        (mk true (Some (masterVolume st)) (sounds st) (masterVolume st) (muted st), false)
    end.

(** [Math.max(0, Math.min(1, volume))] *)
Definition clamp01 (volume : Q) : Q :=
  let low := if Qleb 1 volume then 1 else volume in
  if Qleb low 0 then 0 else low.

Definition withGain (g : Q) (st : t) : option Q :=
  match gainNode st with
  | Some _ => Some g
  | None => None
  end.

(** [setMasterVolume(volume)] *)
Definition setMasterVolume (volume : Q) (st : t) : t :=
  let v := clamp01 volume in
  mk (context st) (withGain (if muted st then 0 else v) st) (sounds st) v (muted st).

Definition getMasterVolume (st : t) : Q := masterVolume st.

(** [mute()], [unmute()], [toggleMute()] *)
Definition mute (st : t) : t :=
  mk (context st) (withGain 0 st) (sounds st) (masterVolume st) true.

Definition unmute (st : t) : t :=
  mk (context st) (withGain (masterVolume st) st) (sounds st) (masterVolume st) false.

Definition isMuted (st : t) : bool := muted st.

Definition toggleMute (st : t) : t * bool :=
  let st' := if muted st then unmute st else mute st in
  (st', muted st').

(** [loadSound(id, url, options)]; [fetched] is how the fetch and the
    decoding of the file settle. *)
Definition loadSound (host : AudioHost) (fetched : Asset.Settled string)
    (i u : string) (optLoop : option bool) (optVolume : option Q) (st : t) : t * bool :=
  let '(st1, ready) := if context st then (st, true) else initialize host st in
  if negb ready then (st1, false)
  else
    match sounds st1 !! i with
    | Some _ => (st1, true)
    | None =>
        let sound := mkSound i u None false (default false optLoop) (default 1 optVolume) in
        let st2 := mk (context st1) (gainNode st1) (<[i := sound]> (sounds st1))
                      (masterVolume st1) (muted st1) in
        match fetched with
        | Asset.Resolved audioBuffer =>
            let sound' := mkSound i u (Some audioBuffer) true (s_loop sound) (s_volume sound) in
            (mk (context st2) (gainNode st2) (<[i := sound']> (sounds st2))
                (masterVolume st2) (muted st2), true)
        | Asset.Rejected _ => (st2, false)
        end
    end.

(** [isSoundLoaded(id)] *)
Definition isSoundLoaded (i : string) (st : t) : bool :=
  match sounds st !! i with
  | Some s => loaded s
  | None => false
  end.

End Sound.

(** ** InputManager (input.ts): the keyboard *)

Module Input.

Record t : Type := mk {
  keys : list (string * bool);
  keysPrevious : list (string * bool);
  keysJustPressed : list (string * bool);
  keysJustReleased : list (string * bool)
}.

Definition new : t := mk [] [] [] [].

Definition handleKeyDown (code : string) (st : t) : t :=
  mk (mapSet code true (keys st)) (keysPrevious st) (keysJustPressed st) (keysJustReleased st).

Definition handleKeyUp (code : string) (st : t) : t :=
  mk (mapSet code false (keys st)) (keysPrevious st) (keysJustPressed st) (keysJustReleased st).

(** [map.get(key) === true] *)
Definition isTrue (key : string) (m : list (string * bool)) : bool :=
  match mapGet key m with
  | Some b => b
  | None => false
  end.

Definition isKeyDown (key : string) (st : t) : bool := isTrue key (keys st).
Definition isKeyJustPressed (key : string) (st : t) : bool := isTrue key (keysJustPressed st).
Definition isKeyJustReleased (key : string) (st : t) : bool := isTrue key (keysJustReleased st).

(** The body of [keys.forEach] in [update]. *)
Definition visitKey (st : t) (entry : string * bool) : t :=
  let '(key, isPressed) := entry in
  let wasPressedPreviously := isTrue key (keysPrevious st) in
  let st1 :=
    if isPressed && negb wasPressedPreviously
    then mk (keys st) (keysPrevious st) (mapSet key true (keysJustPressed st))
            (keysJustReleased st)
    else if negb isPressed && wasPressedPreviously
    then mk (keys st) (keysPrevious st) (keysJustPressed st)
            (mapSet key true (keysJustReleased st))
    else st in
  mk (keys st1) (mapSet key isPressed (keysPrevious st1)) (keysJustPressed st1)
     (keysJustReleased st1).

(** [update()] *)
Definition update (st : t) : t :=
  fold_left visitKey (keys st) (mk (keys st) (keysPrevious st) [] []).

(** [getInputs()]: the keys that are down. *)
Definition getInputs (st : t) : list string :=
  mapKeys (List.filter (fun entry => snd entry) (keys st)).

End Input.

(** * Specification vocabulary and example data *)

(** The penetration depth of [a] into [b] along a direction. *)
Definition penetration (d : Physics.Direction) (a b : Entity) : Q :=
  match d with
  | Physics.top => Physics.overlapTop a b
  | Physics.bottom => Physics.overlapBottom a b
  | Physics.left => Physics.overlapLeft a b
  | Physics.right => Physics.overlapRight a b
  end.

(** The two axis-aligned boxes overlap. *)
Definition overlapping (a b : Entity) : Prop :=
  x b < x a + width a /\ x a < x b + width b /\
  y b < y a + height a /\ y a < y b + height b.



(** A plain entity, as the constructor makes it from a box, a velocity and
    tags. *)
Definition box (i : string) (px py w h vx vy : Q) (tgs : list string) : Entity :=
  newEntity i
    {| o_id := Some i; o_x := px; o_y := py; o_width := w; o_height := h;
       o_velocityX := Some vx; o_velocityY := Some vy; o_acceleration := None;
       o_gravity := None; o_friction := None; o_color := None;
       o_solid := None; o_bouncy := None; o_bounceCoefficient := None;
       o_mass := None; o_tags := Some tgs; o_active := None; o_visible := None |}.

Definition defaultPhysics : Physics.t :=
  Physics.new (Physics.mkOptions None None None None).

(** No entity of the scene has a behaviour attached, as in every scene the
    engine builds from level data. *)
Definition quiet (h : Heap) (s : Scene.t) : Prop :=
  forall a e, In a (mapValues (Scene.entities s)) -> h !! a = Some e -> behaviors e = [].

(** How the first loop of [Scene.update] files an entity that has no
    behaviour: under the physics entities or under the platforms. *)
Definition moving (h : Heap) (a : Addr) : bool :=
  match h !! a with
  | Some e => active e && negb (hasTag "platform" e)
  | None => false
  end.

Definition standing (h : Heap) (a : Addr) : bool :=
  match h !! a with
  | Some e => active e && hasTag "platform" e
  | None => false
  end.

(** Every object of [h] is still there in [h'], at the same position. *)
Definition samePositions (h h' : Heap) : Prop :=
  forall a e, h !! a = Some e ->
  exists e', h' !! a = Some e' /\ x e' = x e /\ y e' = y e.

(** A scene holding the given objects, added one by one while at rest. *)
Definition sceneOf (h : Heap) (addrs : list Addr) : Scene.t :=
  snd (fold_left (fun hs a => Scene.addEntity a hs) addrs
         (h, Scene.new (Scene.mkOptions "default" None None None))).



Definition noBehaviors (b : string) : option Scene.Hook := None.


(** A faller one unit into a platform from above, and a platform entered
    from its upper left corner. *)
Definition faller : Entity := box "a" 0 0 10 10 0 2 [].
Definition ground : Entity := box "b" 0 9 100 20 0 0 ["platform"].
Definition ledge : Entity := box "c" 9 7 100 20 0 0 ["platform"].

(** A lone faller, and a faller above the ground platform. *)
Definition loneHeap : Heap := [faller].
Definition loneScene : Scene.t := sceneOf loneHeap [0%nat].
Definition fallHeap : Heap := [faller; ground].
Definition fallScene : Scene.t := sceneOf fallHeap [0%nat; 1%nat].

(** A host on which every load fails. *)
Definition offline : Asset.Host :=
  Asset.mkHost
    (fun u => Asset.Rejected ("Failed to load image: " ++ u))
    (fun u => Asset.Rejected ("Failed to load JSON: " ++ u))
    (fun u => Asset.Rejected ("Failed to load binary: " ++ u)).

(** What [loadLevel] leaves alone: the game data and the progress of the
    run. *)
Definition sameProgress (st st' : Engine.t) : Prop :=
  Engine.gameData st' = Engine.gameData st /\
  Engine.currentLevelIndex st' = Engine.currentLevelIndex st /\
  Engine.score st' = Engine.score st /\
  Engine.collectedItems st' = Engine.collectedItems st /\
  Engine.gameCompleted st' = Engine.gameCompleted st /\
  Engine.levelTransitioning st' = Engine.levelTransitioning st /\
  Engine.sounds st' = Engine.sounds st /\
  Engine.timers st' = Engine.timers st /\
  Engine.restartArmed st' = Engine.restartArmed st.

(** An entity as [loadLevel] builds it: no behaviour, solid, and with the
    platform tag next to the collectible tag. *)
Definition built (e : Entity) : Prop :=
  behaviors e = [] /\ solid e = true /\
  (hasTag "collectible" e = true -> tags e = ["collectible"; "platform"]).








(** A game of two levels with a player, an enemy and two collectibles, and
    the engine right after [initialize]. *)
Definition demoPlatform : Engine.PlatformParams :=
  Engine.mkPlatform (Some 0) (Some 500) (Some 800) (Some 20) None None None false
    None None None None.

Definition demoLevels : list Engine.Level :=
  [Engine.mkLevel "One" (Some [demoPlatform]) None (Some 2);
   Engine.mkLevel "Two" (Some [demoPlatform]) (Some "#101010") (Some 2)].

Definition demoGame : Engine.Parameters :=
  Engine.mkParameters
    (Some (Engine.mkWorld (Some 800) (Some 600) None None (Some demoLevels)))
    (Some (Engine.mkPlayer (Some 100) (Some 100) None None None None None))
    [Engine.mkEnemy (Some 400) (Some 468) None None None (Some 1) None None None]
    [Engine.mkCollectible (Some 105) (Some 105) None (Some 10) None None;
     Engine.mkCollectible (Some 300) (Some 300) None None None None].

(** Generated ids: "entity_" followed by one stroke per id made before. *)
Definition demoId (n : nat) : string :=
  "entity_" ++ String.concat "" (repeat "i" n).

Definition engineOf (params : Engine.Parameters) : Engine.t :=
  Engine.mk params [] (Some (Scene.new (Scene.mkOptions "default" None None None)))
    (Some "#000033") 0 0 0 0 false false [] [] [] false 0.

Definition demoStart : Engine.t := Engine.initializeEntities demoId (engineOf demoGame).


(** The state a call leaves behind, whether it returns or throws. *)
Definition stateOf (c : Engine.Completion) : option Engine.t :=
  match c with
  | Engine.Normal st => Some st
  | Engine.TypeError st => Some st
  | Engine.OutOfModel => None
  end.

(** A step keeps a relation between the state before and the state after,
    however it ends. *)
Definition keeps (R : Engine.t -> Engine.t -> Prop) (f : Engine.t -> Engine.Completion) : Prop :=
  forall st st', stateOf (f st) = Some st' -> R st st'.

(** The state of the level progression: which level is played, whether a
    transition is under way, and what has been scheduled for it. *)
Definition sameTransition (st st' : Engine.t) : Prop :=
  Engine.gameData st' = Engine.gameData st /\
  Engine.currentLevelIndex st' = Engine.currentLevelIndex st /\
  Engine.levelTransitioning st' = Engine.levelTransitioning st /\
  Engine.gameCompleted st' = Engine.gameCompleted st /\
  Engine.timers st' = Engine.timers st /\
  Engine.restartArmed st' = Engine.restartArmed st.

(** The player stomps the enemy: it falls and its bottom edge is above the
    middle of the enemy. *)
Definition stomps (p e : Entity) : Prop :=
  0 < velocityY p /\ y p + height p < y e + height e / 2.

(** A player falling onto the upper half of an enemy, and the engine
    holding the two. *)
Definition stomper : Entity := box "hero" 100 90 32 32 0 5 ["player"].
Definition walker : Entity := box "foe" 100 120 32 32 0 0 ["enemy"].
Definition stompState : Engine.t :=
  Engine.set_activeScene (Some (sceneOf [stomper; walker] [0%nat; 1%nat]))
    (Engine.set_heap [stomper; walker] (engineOf demoGame)).

(** A player past the exit line of the 800 wide world, a host whose sine is
    flat, and an input manager with no key down. *)
Definition runner : Entity := box "hero" 790 100 32 32 0 0 ["player"].
Definition exitState : Engine.t :=
  Engine.set_activeScene (Some (sceneOf [runner] [0%nat]))
    (Engine.set_heap [runner] (engineOf demoGame)).
Definition flatSine (q : Q) : Q := 0.
Definition roughPi : Q := 355 # 113.
Definition noKeys (key : string) : bool := false.


(** ** Vocabulary and example data for the further properties *)

(** [a] is drawn no lower on the screen than [b]. *)
Definition belowOrLevel (h : Heap) (a b : Addr) : Prop := yOf h a <= yOf h b.

(** A deactivated entity lying inside the faller. *)
Definition sleeper : Entity := set_active false (box "z" 0 5 10 10 3 0 []).
Definition sleepHeap : Heap := [faller; sleeper].
Definition sleepScene : Scene.t := sceneOf sleepHeap [0%nat; 1%nat].

(** A host on which every load succeeds: an image is known by its URL. *)
Definition online : Asset.Host :=
  Asset.mkHost
    (fun u => Asset.Resolved u)
    (fun u => Asset.Resolved (Asset.mkJson None None [] u))
    (fun u => Asset.Resolved []).


(** A three-frame animation that does not loop, on its last frame. *)
Definition threeFrames : list Sprites.SpriteFrame :=
  Sprites.gridFrames 96 32 32 32.
Definition oneShot : Sprites.Sprite :=
  Sprites.mkSprite "hero.png" threeFrames 2 (1 # 10) 0 false.

(** The master gain agrees with the volume settings: silent when muted,
    else at the master volume.  Without a gain node there is nothing to
    agree. *)
Definition audible (st : Sound.t) : Prop :=
  match Sound.gainNode st with
  | Some g => g = if Sound.muted st then 0 else Sound.masterVolume st
  | None => True
  end.

(** A sound manager whose audio context exists, and one that was muted
    before the first sound. *)
Definition soundReady : Sound.t := fst (Sound.initialize Sound.AudioWorks Sound.new).
Definition mutedEarly : Sound.t := Sound.mute Sound.new.

(** A keyboard on which Space went down and ArrowLeft came up since the last
    frame. *)
Definition keyboard : Input.t :=
  Input.handleKeyUp "ArrowLeft"
    (Input.handleKeyDown "Space"
       (Input.update (Input.handleKeyDown "ArrowLeft" Input.new))).

(** A coin the player stands in, and the engine about to apply the
    collectible rule to it. *)
Definition coin : Entity := box "coin" 110 100 16 16 0 0 ["collectible"; "platform"].
Definition coinState : Engine.t :=
  Engine.set_activeScene (Some (sceneOf [stomper; coin] [0%nat; 1%nat]))
    (Engine.set_heap [stomper; coin] (engineOf demoGame)).

(** A platform that slides 50 to either side of x = 200. *)
Definition slider : Entity :=
  setData "movePhase" (VNum 0)
    (setData "startX" (VNum 200)
       (setData "moveDirection" (VStr "horizontal")
          (setData "moveDistance" (VNum 50)
             (setData "moveSpeed" (VNum 1)
                (setData "movingPlatform" (VBool true)
                   (box "slider" 200 300 100 20 0 0 ["platform"])))))).
Definition sliderState : Engine.t :=
  Engine.set_activeScene (Some (sceneOf [slider] [0%nat]))
    (Engine.set_heap [slider] (engineOf demoGame)).

(** The generated ids [freshId from .. freshId (from + count - 1)] are
    pairwise different. *)
Definition distinctIds (freshId : nat -> string) (from count : nat) : Prop :=
  forall i j, (from <= i < from + count)%nat -> (from <= j < from + count)%nat ->
              freshId i = freshId j -> i = j.

(** The entities one [forEach] of [loadLevel] constructs from the records
    [l]: the record at position [index] gives an entity with the next
    generated id. *)
Fixpoint builtFrom {A : Type} (freshId : nat -> string) (build : string -> nat -> A -> Entity)
    (g index : nat) (l : list A) : list Entity :=
  match l with
  | [] => []
  | a :: l' => build (freshId g) index a :: builtFrom freshId build (S g) (S index) l'
  end.

(** The entities the game data describe for a level, in the order of their
    construction: the player, the enemies, the collectibles, the platforms
    of the level.  [from] ids have been generated before. *)
Definition levelEntities (freshId : nat -> string) (from : nat) (params : Engine.Parameters)
    (level : Engine.Level) : list Entity :=
  let b1 :=
    match Engine.player params with
    | Some p => [Engine.playerEntity (freshId from) p]
    | None => []
    end in
  let b2 :=
    b1 ++ builtFrom freshId Engine.enemyEntity (from + List.length b1) 0
            (Engine.enemies params) in
  let b3 :=
    b2 ++ builtFrom freshId Engine.collectibleEntity (from + List.length b2) 0
            (Engine.collectibles params) in
  b3 ++ builtFrom freshId Engine.platformEntity (from + List.length b3) 0
          (default [] (Engine.platforms level)).

(** The scene of the engine is at rest and holds exactly the entities
    [built], made since the engine had generated [from] ids and its heap was
    [old]: the heap is [old] followed by [built], the k-th of them carries
    the id [freshId (from + k)], and the entity map lists them under their
    ids in the order of their making. *)
Definition populated (freshId : nat -> string) (from : nat) (old : Heap) (built : list Entity)
    (st : Engine.t) : Prop :=
  exists sc,
    Engine.activeScene st = Some sc /\ Scene.isUpdating sc = false /\
    Engine.heap st = old ++ built /\
    map id built = map freshId (seq from (List.length built)) /\
    Scene.entities sc =
      map (fun k => (freshId (from + k), (List.length old + k))%nat)
          (seq 0 (List.length built)) /\
    Engine.generated st = (from + List.length built)%nat.

(** The frame the engine runs from the stomp state, with no key down. *)
Definition stompFrame : Engine.t :=
  match Engine.update noBehaviors flatSine roughPi (1 # 60) (Some noKeys) stompState with
  | Engine.Normal st' => st'
  | _ => stompState
  end.

(** The player above two enemies at once, and the enemy rules of one frame
    run from there. *)
Definition walker2 : Entity := box "foe2" 110 120 32 32 0 0 ["enemy"].
Definition crowdState : Engine.t :=
  Engine.set_activeScene (Some (sceneOf [stomper; walker; walker2] [0%nat; 1%nat; 2%nat]))
    (Engine.set_heap [stomper; walker; walker2] (engineOf demoGame)).
Definition crowdPass : Engine.t :=
  match Engine.forEach (Engine.enemyRule 0%nat) (Engine.sceneTagged "enemy" crowdState)
          crowdState with
  | Engine.Normal st' => st'
  | _ => crowdState
  end.

(** * Properties *)

(** ** Numbers *)

Lemma Qleb_le a b : Qleb a b = true <-> a <= b.
Proof. apply Qle_bool_iff. Qed.

Lemma Qltb_lt a b : Qltb a b = true <-> a < b.
Proof.
  unfold Qltb. rewrite negb_true_iff. split.
  - intros H. apply Qnot_le_lt. intros Hle.
    apply Qle_bool_iff in Hle. congruence.
  - intros H. destruct (Qle_bool b a) eqn:E; [|reflexivity].
    apply Qle_bool_iff in E. exfalso. exact (Qlt_not_le _ _ H E).
Qed.

Lemma Qltb_ge a b : Qltb a b = false <-> b <= a.
Proof.
  unfold Qltb. rewrite negb_false_iff. apply Qle_bool_iff.
Qed.

Lemma Qleb_gt a b : Qleb a b = false <-> b < a.
Proof.
  rewrite <- Qltb_lt. unfold Qltb, Qleb.
  destruct (Qle_bool a b); simpl; split; congruence.
Qed.

Lemma Qeqb_eq a b : Qeqb a b = true <-> a == b.
Proof. apply Qeq_bool_iff. Qed.

Lemma Qeqb_refl a : Qeqb a a = true.
Proof. apply Qeqb_eq. reflexivity. Qed.

Lemma Math_min2_cases a b : Math_min2 a b = a \/ Math_min2 a b = b.
Proof. unfold Math_min2. destruct (Qleb a b); auto. Qed.

Lemma Math_min4_cases a b c d :
  Math_min4 a b c d = a \/ Math_min4 a b c d = b \/
  Math_min4 a b c d = c \/ Math_min4 a b c d = d.
Proof.
  unfold Math_min4.
  destruct (Math_min2_cases (Math_min2 (Math_min2 a b) c) d) as [-> | ->]; [|auto].
  destruct (Math_min2_cases (Math_min2 a b) c) as [-> | ->]; [|auto].
  destruct (Math_min2_cases a b) as [-> | ->]; auto.
Qed.

Lemma Math_min4_pos a b c d :
  0 < a -> 0 < b -> 0 < c -> 0 < d -> 0 < Math_min4 a b c d.
Proof.
  intros Ha Hb Hc Hd.
  destruct (Math_min4_cases a b c d) as [-> | [-> | [-> | ->]]]; assumption.
Qed.

(** ** Physics *)

Lemma overlapping_not_separated a b :
  overlapping a b -> Physics.separated a b = false.
Proof.
  intros (H1 & H2 & H3 & H4). unfold Physics.separated.
  rewrite !orb_false_iff. repeat split; apply Qleb_gt; assumption.
Qed.

Lemma not_separated_overlapping a b :
  Physics.separated a b = false -> overlapping a b.
Proof.
  unfold Physics.separated. rewrite !orb_false_iff.
  intros [[[H1 H2] H3] H4]. repeat split; apply Qleb_gt; assumption.
Qed.

Lemma overlapping_minOverlap_pos a b :
  overlapping a b -> 0 < Physics.minOverlap a b.
Proof.
  intros (H1 & H2 & H3 & H4). unfold Physics.minOverlap.
  apply Math_min4_pos;
    unfold Physics.overlapLeft, Physics.overlapRight, Physics.overlapTop,
      Physics.overlapBottom, Qminus;
    rewrite <- Qlt_minus_iff; assumption.
Qed.

(** What [detectCollision] answers when it reports a collision. *)
Lemma detectCollision_collided a b :
  Physics.collided (Physics.detectCollision a b) = true ->
  solid a = true /\ solid b = true /\ overlapping a b /\
  Physics.overlap (Physics.detectCollision a b) = Some (Physics.minOverlap a b).
Proof.
  unfold Physics.detectCollision.
  destruct (solid a), (solid b); simpl; try discriminate.
  destruct (Physics.separated a b) eqn:Hs; simpl; try discriminate.
  intros _. split; [reflexivity|]. split; [reflexivity|].
  split; [|reflexivity]. apply not_separated_overlapping. assumption.
Qed.

Lemma direction_implies_collided a b d :
  Physics.direction (Physics.detectCollision a b) = Some d ->
  Physics.collided (Physics.detectCollision a b) = true.
Proof.
  unfold Physics.detectCollision.
  destruct (negb (solid a) || negb (solid b)); simpl; try discriminate.
  destruct (Physics.separated a b); simpl; try discriminate.
  reflexivity.
Qed.

(** A collision found by [detectCollision] passes the guard of
    [resolveCollision]: its overlap is positive. *)
Lemma detectCollision_accepted a b :
  Physics.collided (Physics.detectCollision a b) = true ->
  Physics.rejected (Physics.detectCollision a b) = false.
Proof.
  intros Hc. destruct (detectCollision_collided a b Hc) as (Ha & Hb & Hov & Hm).
  unfold Physics.rejected. rewrite Hc, Hm. simpl.
  assert (Hd : exists d, Physics.direction (Physics.detectCollision a b) = Some d).
  { unfold Physics.detectCollision. rewrite Ha, Hb. simpl.
    rewrite (overlapping_not_separated a b Hov). simpl. eauto. }
  destruct Hd as [d ->]. simpl.
  destruct (Qeqb (Physics.minOverlap a b) 0) eqn:E; [|reflexivity].
  apply Qeqb_eq in E. pose proof (overlapping_minOverlap_pos a b Hov) as Hpos.
  rewrite E in Hpos. exfalso. exact (Qlt_irrefl 0 Hpos).
Qed.

(** The top case of [resolveCollision] for any result that passes the
    guard. *)
Lemma resolveCollision_top_accepted ph a b r :
  Physics.rejected r = false ->
  Physics.direction r = Some Physics.top ->
  Physics.resolveCollision ph a b r =
    if Qleb 0 (velocityY a)
    then set_onGround true (set_velocityY 0 (set_y (y b - height a) a))
    else a.
Proof.
  intros Hg Hd. unfold Physics.resolveCollision. rewrite Hg, Hd. reflexivity.
Qed.

(** C4. When [detectCollision(a, b)] reports a hit from the top and [a]
    moves downward or is at rest ([velocityY >= 0]), [resolveCollision]
    puts [a] on [b] ([a.y = b.y - a.height]), zeroes its vertical velocity
    and sets [onGround]; when [a] moves upward ([velocityY < 0]) it leaves
    [a] as it is. *)
Theorem resolveCollision_top_lands ph a b :
  Physics.direction (Physics.detectCollision a b) = Some Physics.top ->
  let a' := Physics.resolveCollision ph a b (Physics.detectCollision a b) in
  (0 <= velocityY a ->
     y a' = y b - height a /\ velocityY a' = 0 /\ onGround a' = true) /\
  (velocityY a < 0 -> a' = a).
Proof.
  intros Hd a'. subst a'.
  pose proof (direction_implies_collided a b _ Hd) as Hc.
  rewrite (resolveCollision_top_accepted ph a b _ (detectCollision_accepted a b Hc) Hd).
  split.
  - intros Hv. apply Qleb_le in Hv. rewrite Hv. simpl. auto.
  - intros Hv. apply Qleb_gt in Hv. rewrite Hv. reflexivity.
Qed.

Lemma detectCollision_overlapping a b :
  solid a = true -> solid b = true -> overlapping a b ->
  Physics.detectCollision a b =
    Physics.mkResult true
      (Some
         (if hasTag "platform" b && Qltb 0 (velocityY a)
          then
            if Qltb (Physics.overlapTop a b) (height a / 2) then Physics.top
            else if Qeqb (Physics.minOverlap a b) (Physics.overlapLeft a b) then Physics.left
            else if Qeqb (Physics.minOverlap a b) (Physics.overlapRight a b) then Physics.right
            else if Qeqb (Physics.minOverlap a b) (Physics.overlapBottom a b) then Physics.bottom
            else Physics.top
          else
            if Qeqb (Physics.minOverlap a b) (Physics.overlapTop a b) then Physics.top
            else if Qeqb (Physics.minOverlap a b) (Physics.overlapBottom a b) then Physics.bottom
            else if Qeqb (Physics.minOverlap a b) (Physics.overlapLeft a b) then Physics.left
            else Physics.right))
      (Some (Physics.minOverlap a b)).
Proof.
  intros Ha Hb Hov. unfold Physics.detectCollision.
  rewrite Ha, Hb, (overlapping_not_separated a b Hov). reflexivity.
Qed.



Lemma resolveCollision_top_lands_witness :
  Physics.direction (Physics.detectCollision faller ground) = Some Physics.top /\
  let a' :=
    Physics.resolveCollision defaultPhysics faller ground
      (Physics.detectCollision faller ground) in
  (0 <= velocityY faller ->
     y a' = y ground - height faller /\ velocityY a' = 0 /\ onGround a' = true) /\
  (velocityY faller < 0 -> a' = faller).
Proof.
  split; [reflexivity|].
  apply (resolveCollision_top_lands defaultPhysics faller ground). reflexivity.
Defined.



(** The landing bias wins over a smaller sideways depth: the faller is one
    unit into the ledge from the left and three units from the top. *)
Example detectCollision_prefers_top :
  Physics.overlapLeft faller ledge == 1 /\
  Physics.overlapTop faller ledge == 3 /\
  Physics.direction (Physics.detectCollision faller ledge) = Some Physics.top.
Proof. repeat split. Qed.

(** ** The entity map *)

Section JSMapFacts.
Context {V : Type}.
Implicit Types (m : list (string * V)) (k : string) (v : V).

Lemma mapGet_mapSet_eq k v m : mapGet k (mapSet k v m) = Some v.
Proof.
  induction m as [|[k' v'] m IH]; simpl.
  - rewrite String.eqb_refl. reflexivity.
  - destruct (String.eqb k k') eqn:E; simpl.
    + rewrite String.eqb_refl. reflexivity.
    + rewrite E. exact IH.
Qed.

Lemma mapGet_mapSet_ne k k' v m :
  k <> k' -> mapGet k' (mapSet k v m) = mapGet k' m.
Proof.
  intros Hne. induction m as [|[k0 v0] m IH]; simpl.
  - destruct (String.eqb k' k) eqn:E; [|reflexivity].
    apply String.eqb_eq in E. congruence.
  - destruct (String.eqb k k0) eqn:E; simpl.
    + apply String.eqb_eq in E. subst k0.
      destruct (String.eqb k' k) eqn:E'; [|reflexivity].
      apply String.eqb_eq in E'. congruence.
    + rewrite IH. reflexivity.
Qed.


Lemma mapGet_mapDelete_eq k m : mapGet k (mapDelete k m) = None.
Proof.
  induction m as [|[k' v'] m IH]; simpl; [reflexivity|].
  destruct (String.eqb k k') eqn:E; simpl; [exact IH|].
  rewrite E. exact IH.
Qed.

Lemma mapGet_mapDelete_ne k k' m :
  k <> k' -> mapGet k' (mapDelete k m) = mapGet k' m.
Proof.
  intros Hne. induction m as [|[k0 v0] m IH]; simpl; [reflexivity|].
  destruct (String.eqb k k0) eqn:E; simpl.
  - apply String.eqb_eq in E. subst k0.
    destruct (String.eqb k' k) eqn:E'; [|exact IH].
    apply String.eqb_eq in E'. congruence.
  - rewrite IH. reflexivity.
Qed.

Lemma mapGet_In k v m : mapGet k m = Some v -> In (k, v) m.
Proof.
  induction m as [|[k' v'] m IH]; simpl; [discriminate|].
  destruct (String.eqb k k') eqn:E.
  - apply String.eqb_eq in E. intros [= ->]. left. congruence.
  - intros H. right. exact (IH H).
Qed.

Lemma mapSet_In k v k' v' m :
  In (k', v') (mapSet k v m) -> In (k', v') m \/ (k', v') = (k, v).
Proof.
  induction m as [|[k0 v0] m IH]; simpl.
  - intros [H|[]]. right. congruence.
  - destruct (String.eqb k k0); simpl.
    + intros [H|H]; [right; congruence | left; right; exact H].
    + intros [H|H]; [left; left; exact H |].
      destruct (IH H) as [H'|H']; auto.
Qed.
End JSMapFacts.

(** ** Scene: deferred structural mutation *)

Lemma mutate_length a f (h : Heap) : List.length (mutate a f h) = List.length h.
Proof.
  unfold mutate. destruct (h !! a); [apply length_insert | reflexivity].
Qed.

Lemma mutate_lookup_ne a b f (h : Heap) : a <> b -> mutate a f h !! b = h !! b.
Proof.
  intros Hne. unfold mutate. destruct (h !! a); [|reflexivity].
  apply list_lookup_insert_ne. assumption.
Qed.

Lemma mutate_lookup_eq a f (h : Heap) : mutate a f h !! a = f <$> (h !! a).
Proof.
  unfold mutate. destruct (h !! a) as [e|] eqn:E; simpl.
  - apply list_lookup_insert_eq. apply lookup_lt_Some in E. exact E.
  - exact E.
Qed.

Lemma mutate_lookup a b f (h : Heap) :
  mutate a f h !! b = if Nat.eqb a b then f <$> (h !! b) else h !! b.
Proof.
  destruct (Nat.eqb a b) eqn:E.
  - apply Nat.eqb_eq in E. subst b. apply mutate_lookup_eq.
  - apply Nat.eqb_neq in E. apply mutate_lookup_ne. assumption.
Qed.

Section SceneDeferred.
Variable behaviorUpdate : string -> option Scene.Hook.









(** *** Draining the buffers *)










(** [processPendingEntities] written with the named step functions. *)
Lemma processPendingEntities_unfold h s :
  Scene.processPendingEntities (h, s) =
    let s1 :=
      Scene.set_entitiesToAdd []
        (fold_left (fun s a => Scene.insertEntity h a s) (rev (Scene.entitiesToAdd s)) s) in
    let hs2 := fold_left Scene.dropId (rev (Scene.entitiesToRemove s1)) (h, s1) in
    (fst hs2, Scene.set_entitiesToRemove [] (snd hs2)).
Proof.
  unfold Scene.processPendingEntities. simpl.
  destruct (fold_left Scene.dropId _ _). reflexivity.
Qed.

Lemma insert_all_buffers h l : forall s,
  Scene.entitiesToRemove (fold_left (fun s a => Scene.insertEntity h a s) l s) =
    Scene.entitiesToRemove s /\
  Scene.isUpdating (fold_left (fun s a => Scene.insertEntity h a s) l s) =
    Scene.isUpdating s.
Proof.
  induction l as [|a l IH]; intros s; simpl; [auto|].
  destruct (IH (Scene.insertEntity h a s)) as [-> ->].
  unfold Scene.insertEntity. destruct (h !! a); auto.
Qed.
(** A call made while the scene updates is queued and touches neither the
    entity map nor the heap. *)
Lemma addEntity_while_updating entity h s :
  Scene.isUpdating s = true ->
  Scene.addEntity entity (h, s) =
    (h, Scene.set_entitiesToAdd (Scene.entitiesToAdd s ++ [entity]) s).
Proof. intros Hu. simpl. rewrite Hu. reflexivity. Qed.

Lemma removeEntity_while_updating entityId h s :
  Scene.isUpdating s = true ->
  Scene.removeEntity entityId (h, s) =
    (h, Scene.set_entitiesToRemove (Scene.entitiesToRemove s ++ [entityId]) s).
Proof. intros Hu. simpl. rewrite Hu. reflexivity. Qed.

End SceneDeferred.



(** ** Scene: the physics pass *)

Lemma collideWith_frame ph entity h other a :
  a <> entity -> Physics.collideWith ph entity h other !! a = h !! a.
Proof.
  intros Hne. unfold Physics.collideWith.
  destruct (Nat.eqb entity other); [reflexivity|].
  destruct (h !! entity) as [e|]; [|reflexivity].
  destruct (h !! other) as [o|]; [|reflexivity].
  destruct (Physics.collided (Physics.detectCollision e o)); [|reflexivity].
  apply list_lookup_insert_ne. congruence.
Qed.

Lemma checkCollisions_frame ph entity others : forall h a,
  a <> entity -> Physics.checkCollisions ph entity others h !! a = h !! a.
Proof.
  unfold Physics.checkCollisions.
  induction others as [|o others IH]; intros h a Hne; simpl; [reflexivity|].
  rewrite IH by assumption. apply collideWith_frame. assumption.
Qed.

(** One step of the physics loop touches the simulated entity only. *)
Lemma simulate_frame ph phys plat h entity a :
  a <> entity -> Scene.simulate ph phys plat h entity !! a = h !! a.
Proof.
  intros Hne. unfold Scene.simulate.
  rewrite !checkCollisions_frame by assumption.
  apply mutate_lookup_ne. congruence.
Qed.

Lemma simulate_all_frame ph phys plat l : forall h a,
  ~ In a l -> fold_left (Scene.simulate ph phys plat) l h !! a = h !! a.
Proof.
  induction l as [|b l IH]; intros h a Hnot; simpl; [reflexivity|].
  rewrite IH by (intros H; apply Hnot; right; exact H).
  apply simulate_frame. intros ->. apply Hnot. left. reflexivity.
Qed.

(** The physics pass leaves every object alone that is not among the
    physics entities. *)
Lemma physicsPass_frame ph phys plat h a :
  ~ In a phys -> Scene.physicsPass ph phys plat h !! a = h !! a.
Proof. apply simulate_all_frame. Qed.

Lemma destroy_position e : x (destroy e) = x e /\ y (destroy e) = y e.
Proof. split; reflexivity. Qed.

Lemma samePositions_refl h : samePositions h h.
Proof. intros a e H. eauto. Qed.

Lemma samePositions_trans h1 h2 h3 :
  samePositions h1 h2 -> samePositions h2 h3 -> samePositions h1 h3.
Proof.
  intros H12 H23 a e H.
  destruct (H12 a e H) as (e2 & H2 & Hx2 & Hy2).
  destruct (H23 a e2 H2) as (e3 & H3 & Hx3 & Hy3).
  exists e3. repeat split; congruence.
Qed.

Lemma mutate_destroy_positions b h : samePositions h (mutate b destroy h).
Proof.
  intros a e H. rewrite mutate_lookup.
  destruct (Nat.eqb b a); rewrite H; simpl; eauto.
Qed.

Lemma dropId_positions hs k : samePositions (fst hs) (fst (Scene.dropId hs k)).
Proof.
  unfold Scene.dropId. destruct (String.eqb k ""); [apply samePositions_refl|].
  destruct hs as [h s]. unfold Scene.deleteEntity.
  destruct (mapGet k (Scene.entities s)); simpl.
  - apply mutate_destroy_positions.
  - apply samePositions_refl.
Qed.

Lemma drop_all_positions l : forall hs,
  samePositions (fst hs) (fst (fold_left Scene.dropId l hs)).
Proof.
  induction l as [|k l IH]; intros hs; simpl; [apply samePositions_refl|].
  eapply samePositions_trans; [apply dropId_positions | apply IH].
Qed.

(** Draining the buffers moves nothing. *)
Lemma processPendingEntities_positions h s :
  samePositions h (fst (Scene.processPendingEntities (h, s))).
Proof.
  rewrite processPendingEntities_unfold. cbv zeta. cbn [fst].
  apply (drop_all_positions _ (h, _)).
Qed.

Section SceneQuiet.
Variable behaviorUpdate : string -> option Scene.Hook.

Lemma tagged_hasTag h a e tag : h !! a = Some e -> Scene.tagged h tag a = hasTag tag e.
Proof. intros H. unfold Scene.tagged. rewrite H. reflexivity. Qed.

(** Without behaviours the first loop changes no object and files every
    active entity by its platform tag. *)
Lemma collect_steps_quiet dt h s l : forall phys plat,
  (forall a e, In a l -> h !! a = Some e -> behaviors e = []) ->
  fold_left (Scene.visit behaviorUpdate dt) l (Scene.mkPass h s phys plat) =
    Scene.mkPass h s (phys ++ List.filter (moving h) l) (plat ++ List.filter (standing h) l).
Proof.
  induction l as [|a l IH]; intros phys plat Hq; simpl.
  - rewrite !app_nil_r. reflexivity.
  - assert (Hstep : Scene.visit behaviorUpdate dt (Scene.mkPass h s phys plat) a =
              Scene.mkPass h s
                (phys ++ (if moving h a then [a] else []))
                (plat ++ (if standing h a then [a] else []))).
    { unfold Scene.visit, moving, standing. simpl.
      destruct (h !! a) as [e|] eqn:He; [|rewrite !app_nil_r; reflexivity].
      destruct (active e) eqn:Hact; simpl; [|rewrite !app_nil_r; reflexivity].
      unfold Scene.entityUpdate. simpl. rewrite He, Hact.
      rewrite (Hq a e (or_introl eq_refl) He). simpl.
      rewrite (tagged_hasTag h a e "platform" He).
      destruct (hasTag "platform" e); simpl; rewrite !app_nil_r; reflexivity. }
    rewrite Hstep.
    rewrite IH by (intros b e Hb; apply Hq; right; exact Hb).
    destruct (moving h a), (standing h a); simpl; rewrite <- ?app_assoc; reflexivity.
Qed.

Lemma collect_quiet dt h s :
  quiet h s ->
  Scene.collect behaviorUpdate dt h s =
    Scene.mkPass h s
      (List.filter (moving h) (mapValues (Scene.entities s)))
      (List.filter (standing h) (mapValues (Scene.entities s))).
Proof.
  intros Hq. unfold Scene.collect.
  rewrite collect_steps_quiet by exact Hq. reflexivity.
Qed.

Lemma updatePass_quiet dt h s :
  quiet h s ->
  Scene.updatePass behaviorUpdate dt h s =
    (Scene.physicsPass (Scene.physics s)
       (List.filter (moving h) (mapValues (Scene.entities s)))
       (List.filter (standing h) (mapValues (Scene.entities s))) h,
     Scene.set_isUpdating true s).
Proof.
  intros Hq. unfold Scene.updatePass.
  rewrite collect_quiet by exact Hq. reflexivity.
Qed.

(** C2, as the code has it.  [Physics.update] takes no delta time: in a
    scene without behaviours [Scene.update(0)] does exactly what
    [Scene.update(deltaTime)] does for any other delta, namely one full
    frame of gravity, friction and integration for every active entity
    that is not a platform, followed by its collision checks against the
    other such entities and against the platforms.  Inactive and
    platform-tagged entities keep their position. *)
Theorem update_ignores_deltaTime h s :
  quiet h s ->
  (forall deltaTime,
     Scene.update behaviorUpdate deltaTime h s = Scene.update behaviorUpdate 0 h s) /\
  fst (Scene.updatePass behaviorUpdate 0 h s) =
    Scene.physicsPass (Scene.physics s)
      (List.filter (moving h) (mapValues (Scene.entities s)))
      (List.filter (standing h) (mapValues (Scene.entities s))) h /\
  (forall a e,
     h !! a = Some e -> active e = false \/ hasTag "platform" e = true ->
     exists e', fst (Scene.update behaviorUpdate 0 h s) !! a = Some e' /\
                x e' = x e /\ y e' = y e).
Proof.
  intros Hq. split; [|split].
  - intros dt. unfold Scene.update. rewrite !updatePass_quiet by exact Hq. reflexivity.
  - rewrite updatePass_quiet by exact Hq. reflexivity.
  - intros a e He Hstill. unfold Scene.update.
    rewrite updatePass_quiet by exact Hq.
    apply processPendingEntities_positions.
    rewrite physicsPass_frame; [exact He|].
    intros Hin. apply filter_In in Hin. destruct Hin as [_ Hm].
    unfold moving in Hm. rewrite He in Hm. apply andb_true_iff in Hm.
    destruct Hm as [Hact Htag]. apply negb_true_iff in Htag.
    destruct Hstill; congruence.
Qed.
End SceneQuiet.

Lemma quiet_of_heap h s :
  Forall (fun e => behaviors e = []) h -> quiet h s.
Proof.
  intros Hall a e _ He. rewrite List.Forall_forall in Hall.
  apply Hall. apply list_elem_of_In. apply list_elem_of_lookup. eauto.
Qed.

Lemma update_ignores_deltaTime_witness :
  (forall deltaTime,
     Scene.update noBehaviors deltaTime fallHeap fallScene =
     Scene.update noBehaviors 0 fallHeap fallScene) /\
  exists e', fst (Scene.update noBehaviors 0 fallHeap fallScene) !! 1%nat = Some e' /\
             x e' = x ground /\ y e' = y ground.
Proof.
  assert (Hq : quiet fallHeap fallScene).
  { apply quiet_of_heap. repeat constructor. }
  destruct (update_ignores_deltaTime noBehaviors fallHeap fallScene Hq) as (Hdt & _ & Hpos).
  split; [exact Hdt|].
  apply (Hpos 1%nat ground); [reflexivity | right; reflexivity].
Defined.

(** C2 as stated fails: with a zero delta a falling entity still gains
    gravity and moves by its velocity. *)
Lemma update_zero_delta_moves_entities :
  ~ (forall (behaviorUpdate : string -> option Scene.Hook) (h : Heap) (s : Scene.t)
            (k : string) (a : Addr) (e : Entity),
       mapGet k (Scene.entities s) = Some a -> h !! a = Some e ->
       exists e', fst (Scene.update behaviorUpdate 0 h s) !! a = Some e' /\
                  x e' == x e /\ y e' == y e).
Proof.
  intros H.
  destruct (H noBehaviors loneHeap loneScene "a" 0%nat faller eq_refl eq_refl)
    as (e' & He' & _ & Hy).
  vm_compute in He'. injection He' as <-.
  vm_compute in Hy. discriminate.
Qed.

(** With a zero delta the collision pass still runs: the faller above the
    ground is integrated into the platform and then set on top of it. *)
Example update_zero_delta_resolves_collision :
  exists e', fst (Scene.update noBehaviors 0 fallHeap fallScene) !! 0%nat = Some e' /\
             y e' == -1 /\ velocityY e' == 0 /\ onGround e' = true.
Proof.
  eexists. split; [vm_compute; reflexivity|]. repeat split.
Qed.

Section ScenePlatforms.
Variable behaviorUpdate : string -> option Scene.Hook.

End ScenePlatforms.

(** ** AssetManager: a failed load *)

Lemma fetchData_baseUrl net m v ty u :
  Asset.fetchData net (Asset.set_assets v m) ty u = Asset.fetchData net m ty u.
Proof. reflexivity. Qed.

(** C7. When the load of a new asset fails with a message, [loadAsset]
    rejects with that message, the asset record kept under the id carries
    the message in its [error] field, and its [loaded] flag is false. *)
Theorem loadAsset_failure net i u optType m msg :
  Asset.assets m !! i = None ->
  Asset.loadPromises m !! i = None ->
  Asset.fetchData net m (default (Asset.inferTypeFromUrl u) optType) u = Asset.Rejected msg ->
  snd (Asset.loadAsset net i u optType m) = Asset.Rejected msg /\
  exists a, Asset.assets (fst (Asset.loadAsset net i u optType m)) !! i = Some a /\
            Asset.error a = Some msg /\ Asset.loaded a = false /\ Asset.a_data a = None.
Proof.
  intros Hnew Hfree Hfail. unfold Asset.loadAsset. rewrite Hnew, Hfree.
  unfold Asset.loadAssetData. cbn [Asset.type Asset.url Asset.a_id].
  rewrite fetchData_baseUrl, Hfail. cbn.
  split; [reflexivity|].
  eexists. split; [apply lookup_insert_eq|]. cbn. auto.
Qed.

(** The successful load, for comparison: the record is marked loaded, holds
    the payload and has no error. *)
Lemma loadAsset_success net i u optType m d :
  Asset.assets m !! i = None ->
  Asset.loadPromises m !! i = None ->
  Asset.fetchData net m (default (Asset.inferTypeFromUrl u) optType) u = Asset.Resolved d ->
  exists a, snd (Asset.loadAsset net i u optType m) = Asset.Resolved a /\
            Asset.assets (fst (Asset.loadAsset net i u optType m)) !! i = Some a /\
            Asset.loaded a = true /\ Asset.a_data a = Some d /\ Asset.error a = None.
Proof.
  intros Hnew Hfree Hok. unfold Asset.loadAsset. rewrite Hnew, Hfree.
  unfold Asset.loadAssetData. cbn [Asset.type Asset.url Asset.a_id].
  rewrite fetchData_baseUrl, Hok. cbn.
  eexists. split; [reflexivity|]. split; [apply lookup_insert_eq|]. cbn. auto.
Qed.

Lemma loadAsset_failure_witness :
  snd (Asset.loadAsset offline "hero" "hero.png" None (Asset.new "")) =
    Asset.Rejected "Failed to load image: hero.png" /\
  exists a,
    Asset.assets (fst (Asset.loadAsset offline "hero" "hero.png" None (Asset.new ""))) !! "hero"
      = Some a /\
    Asset.error a = Some "Failed to load image: hero.png" /\
    Asset.loaded a = false /\ Asset.a_data a = None.
Proof.
  apply (loadAsset_failure offline "hero" "hero.png" None (Asset.new ""));
    [reflexivity | reflexivity | vm_compute; reflexivity].
Defined.

(** ** GameEngine: loading a level *)

Section LevelLoading.
Variable freshId : nat -> string.

Lemma forEachIndexed_preserves {A : Type} (P : Engine.t -> Prop)
    (f : nat -> A -> Engine.t -> Engine.t) :
  (forall i a st, P st -> P (f i a st)) ->
  forall l i st, P st -> P (Engine.forEachIndexed f i l st).
Proof.
  intros Hstep. induction l as [|a l IH]; intros i st H; simpl; [exact H|].
  apply IH. apply Hstep. exact H.
Qed.

Lemma sameProgress_refl st : sameProgress st st.
Proof. unfold sameProgress. repeat split. Qed.

Lemma sameProgress_trans st1 st2 st3 :
  sameProgress st1 st2 -> sameProgress st2 st3 -> sameProgress st1 st3.
Proof.
  unfold sameProgress. intros H12 H23.
  destruct H12 as (A1 & A2 & A3 & A4 & A5 & A6 & A7 & A8 & A9).
  destruct H23 as (B1 & B2 & B3 & B4 & B5 & B6 & B7 & B8 & B9).
  repeat split; congruence.
Qed.

Lemma spawn_sameProgress build st : sameProgress st (Engine.spawn freshId build st).
Proof.
  unfold Engine.spawn. destruct (Engine.activeScene st); [|apply sameProgress_refl].
  unfold alloc. destruct (Scene.addEntity _ _). unfold sameProgress. repeat split.
Qed.

Lemma spawn_all_sameProgress {A : Type} (build : nat -> A -> string -> Entity) l i st0 st :
  sameProgress st0 st ->
  sameProgress st0
    (Engine.forEachIndexed (fun index a => Engine.spawn freshId (build index a)) i l st).
Proof.
  apply (forEachIndexed_preserves (sameProgress st0)).
  intros j a st1 H. eapply sameProgress_trans; [exact H | apply spawn_sameProgress].
Qed.

(** [loadLevel] touches neither the score nor the collected-items counter
    nor any other part of the progress of the run. *)
Lemma loadLevel_sameProgress levelIndex st :
  sameProgress st (Engine.loadLevel freshId levelIndex st).
Proof.
  unfold Engine.loadLevel.
  destruct (Engine.activeScene st) as [sc|]; [|apply sameProgress_refl].
  destruct (Scene.clear (Engine.heap st, sc)) as [h1 sc1].
  set (st1 := Engine.set_activeScene (Some sc1) (Engine.set_heap h1 st)).
  assert (H1 : sameProgress st st1) by (unfold sameProgress; repeat split).
  cbv zeta.
  destruct (Engine.levelAt (Engine.gameData st1) levelIndex) as [level|].
  2: { eapply sameProgress_trans; [exact H1|]. unfold sameProgress. repeat split. }
  set (st2 := Engine.log _ st1).
  assert (H2 : sameProgress st st2)
    by (eapply sameProgress_trans; [exact H1|]; unfold sameProgress; repeat split).
  set (st3 := match Engine.player (Engine.gameData st1) with
              | Some p => Engine.spawn freshId (fun g => Engine.playerEntity g p) st2
              | None => st2
              end).
  assert (H3 : sameProgress st st3).
  { subst st3. destruct (Engine.player (Engine.gameData st1)); [|exact H2].
    eapply sameProgress_trans; [exact H2 | apply spawn_sameProgress]. }
  set (st4 := Engine.forEachIndexed _ 0 (Engine.enemies (Engine.gameData st1)) st3).
  assert (H4 : sameProgress st st4).
  { subst st4.
    apply (spawn_all_sameProgress (fun index enemy g => Engine.enemyEntity g index enemy)).
    exact H3. }
  set (st5 := match Engine.collectibles (Engine.gameData st1) with
              | [] => st4
              | _ => _
              end).
  assert (H5 : sameProgress st st5).
  { subst st5. destruct (Engine.collectibles (Engine.gameData st1)) as [|c cs]; [exact H4|].
    apply (spawn_all_sameProgress (fun index c g => Engine.collectibleEntity g index c)).
    eapply sameProgress_trans; [exact H4|]. unfold sameProgress. repeat split. }
  set (st6 := match Engine.platforms level with
              | Some ps => _
              | None => st5
              end).
  assert (H6 : sameProgress st st6).
  { subst st6. destruct (Engine.platforms level) as [ps|]; [|exact H5].
    apply (spawn_all_sameProgress (fun index p g => Engine.platformEntity g index p)).
    exact H5. }
  destruct (Engine.background level) as [bg|]; [|exact H6].
  destruct (Engine.rendererBackground st6); [|exact H6].
  destruct (String.eqb bg ""); [exact H6|].
  eapply sameProgress_trans; [exact H6|]. unfold sameProgress. repeat split.
Qed.

Lemma loadLevel_keeps_score levelIndex st :
  Engine.score (Engine.loadLevel freshId levelIndex st) = Engine.score st.
Proof. apply (loadLevel_sameProgress levelIndex st). Qed.

(** [loadLevel] never resets the collected-items counter. *)
Lemma loadLevel_keeps_collectedItems levelIndex st :
  Engine.collectedItems (Engine.loadLevel freshId levelIndex st) = Engine.collectedItems st.
Proof. apply (loadLevel_sameProgress levelIndex st). Qed.

(** The two sibling callers reset the counter themselves before they
    load. *)
Lemma initializeEntities_resets_collectedItems st sc :
  Engine.activeScene st = Some sc ->
  Engine.collectedItems (Engine.initializeEntities freshId st) = 0%nat /\
  Engine.score (Engine.initializeEntities freshId st) == 0.
Proof.
  intros Hsc. unfold Engine.initializeEntities. rewrite Hsc. cbv zeta.
  rewrite loadLevel_keeps_collectedItems, loadLevel_keeps_score. split; reflexivity.
Qed.

Lemma restartHandler_resets_collectedItems st :
  Engine.collectedItems (Engine.restartHandler freshId st) = 0%nat.
Proof.
  unfold Engine.restartHandler. cbv zeta. simpl.
  rewrite loadLevel_keeps_collectedItems. reflexivity.
Qed.

(** The timed advance to the next level loads without a reset: the
    counter of the level left behind carries over. *)
Lemma levelTimerFires_keeps_collectedItems nextLevelIndex st :
  Engine.collectedItems (Engine.levelTimerFires freshId nextLevelIndex st) =
    Engine.collectedItems st.
Proof.
  unfold Engine.levelTimerFires. cbv zeta. simpl.
  rewrite loadLevel_keeps_collectedItems. reflexivity.
Qed.
End LevelLoading.


Lemma destroy_all_length l : forall h : Heap,
  List.length (fold_left (fun h a => mutate a destroy h) l h) = List.length h.
Proof.
  induction l as [|a l IH]; intros h; simpl; [reflexivity|].
  rewrite IH. apply mutate_length.
Qed.

Lemma destroy_all_keeps_inactive l : forall (h : Heap) a e,
  h !! a = Some e -> active e = false ->
  exists e', fold_left (fun h a => mutate a destroy h) l h !! a = Some e' /\ active e' = false.
Proof.
  induction l as [|b l IH]; intros h a e He Hact; simpl; [eauto|].
  destruct (Nat.eq_dec b a) as [->|Hne].
  - apply (IH _ a (destroy e)); [|reflexivity].
    rewrite mutate_lookup_eq, He. reflexivity.
  - apply (IH _ a e); [|exact Hact].
    rewrite mutate_lookup_ne by exact Hne. exact He.
Qed.

(** [clear] destroys every object the entity map refers to. *)
Lemma destroy_all_inactive l : forall (h : Heap) a e,
  In a l -> h !! a = Some e ->
  exists e', fold_left (fun h a => mutate a destroy h) l h !! a = Some e' /\ active e' = false.
Proof.
  induction l as [|b l IH]; intros h a e Hin He; simpl; [destruct Hin|].
  destruct (Nat.eq_dec b a) as [->|Hne].
  - apply (destroy_all_keeps_inactive l _ a (destroy e)); [|reflexivity].
    rewrite mutate_lookup_eq, He. reflexivity.
  - destruct Hin as [Hb|Hin]; [contradiction|].
    apply (IH _ a e Hin). rewrite mutate_lookup_ne by exact Hne. exact He.
Qed.

Lemma levelAt_beyond params w ls levelIndex :
  Engine.world params = Some w -> Engine.levels w = Some ls ->
  (List.length ls <= levelIndex)%nat ->
  Engine.levelAt params levelIndex = None.
Proof.
  intros Hw Hl Hle. unfold Engine.levelAt. rewrite Hw, Hl.
  apply lookup_ge_None. exact Hle.
Qed.

Section LevelMissing.
Variable freshId : nat -> string.

(** What [loadLevel] does when the level is missing: the scene has been
    cleared by then, the error is logged and nothing is built. *)
Lemma loadLevel_missing levelIndex st sc :
  Engine.activeScene st = Some sc ->
  Engine.levelAt (Engine.gameData st) levelIndex = None ->
  Engine.loadLevel freshId levelIndex st =
    Engine.log (Engine.LevelDoesNotExist levelIndex)
      (Engine.set_activeScene (Some (snd (Scene.clear (Engine.heap st, sc))))
         (Engine.set_heap (fst (Scene.clear (Engine.heap st, sc))) st)).
Proof.
  intros Hsc Hlevel. unfold Engine.loadLevel. rewrite Hsc.
  destruct (Scene.clear (Engine.heap st, sc)) as [h1 sc1]. cbv zeta.
  cbn [Engine.gameData Engine.set_activeScene Engine.set_heap fst snd].
  rewrite Hlevel. reflexivity.
Qed.

(** C3, as the code has it.  For a level index beyond the declared level
    list, [loadLevel] on an engine with an active scene logs the error and
    builds nothing, but it has cleared the scene first: the entity map and
    both pending buffers are empty afterwards, every entity of the
    previous level has been destroyed, and the progress of the run is
    untouched. *)
Theorem loadLevel_beyond_last_level levelIndex st sc w ls :
  Engine.activeScene st = Some sc ->
  Engine.world (Engine.gameData st) = Some w ->
  Engine.levels w = Some ls ->
  (List.length ls <= levelIndex)%nat ->
  let st' := Engine.loadLevel freshId levelIndex st in
  Engine.console st' = Engine.console st ++ [Engine.LevelDoesNotExist levelIndex] /\
  (exists sc', Engine.activeScene st' = Some sc' /\ Scene.entities sc' = [] /\
               Scene.entitiesToAdd sc' = [] /\ Scene.entitiesToRemove sc' = []) /\
  Engine.generated st' = Engine.generated st /\
  List.length (Engine.heap st') = List.length (Engine.heap st) /\
  (forall k a e, In (k, a) (Scene.entities sc) -> Engine.heap st !! a = Some e ->
     exists e', Engine.heap st' !! a = Some e' /\ active e' = false) /\
  Engine.totalCollectibles st' = Engine.totalCollectibles st /\
  sameProgress st st'.
Proof.
  intros Hsc Hw Hl Hle st'. subst st'.
  rewrite (loadLevel_missing levelIndex st sc Hsc (levelAt_beyond _ w ls _ Hw Hl Hle)).
  simpl. split; [reflexivity|]. split; [eauto|]. split; [reflexivity|].
  split; [apply destroy_all_length|]. split.
  - intros k a e Hin He. apply (destroy_all_inactive _ _ a e); [|exact He].
    unfold mapValues. apply (in_map snd) in Hin. exact Hin.
  - split; [reflexivity|]. unfold sameProgress. repeat split.
Qed.
End LevelMissing.

Lemma loadLevel_beyond_last_level_witness :
  Engine.console (Engine.loadLevel demoId 2 demoStart) =
    Engine.console demoStart ++ [Engine.LevelDoesNotExist 2] /\
  exists sc', Engine.activeScene (Engine.loadLevel demoId 2 demoStart) = Some sc' /\
              Scene.entities sc' = [].
Proof.
  destruct (Engine.activeScene demoStart) as [sc|] eqn:Hsc; [|discriminate].
  destruct (loadLevel_beyond_last_level demoId 2 demoStart sc
              (Engine.mkWorld (Some 800) (Some 600) None None (Some demoLevels)) demoLevels
              Hsc eq_refl eq_refl) as (Hlog & (sc' & Hsc' & Hempty & _) & _).
  { vm_compute. lia. }
  split; [exact Hlog|]. exists sc'. split; [exact Hsc' | exact Hempty].
Defined.

(** C3 as stated fails: the scene is cleared before the level index is
    checked, so the entities of the previous level do not stay. *)
Lemma missing_level_clears_scene :
  ~ (forall (freshId : nat -> string) (levelIndex : nat) (st : Engine.t)
            (sc : Scene.t) (w : Engine.World) (ls : list Engine.Level),
       Engine.activeScene st = Some sc ->
       Engine.world (Engine.gameData st) = Some w ->
       Engine.levels w = Some ls ->
       (List.length ls <= levelIndex)%nat ->
       exists sc', Engine.activeScene (Engine.loadLevel freshId levelIndex st) = Some sc' /\
                   mapKeys (Scene.entities sc') = mapKeys (Scene.entities sc)).
Proof.
  intros H.
  destruct (Engine.activeScene demoStart) as [sc|] eqn:Hsc; [|discriminate].
  destruct (H demoId 2%nat demoStart sc
              (Engine.mkWorld (Some 800) (Some 600) None None (Some demoLevels)) demoLevels
              Hsc eq_refl eq_refl) as (sc' & Hsc' & Hkeys).
  { vm_compute. lia. }
  vm_compute in Hsc. injection Hsc as <-.
  vm_compute in Hsc'. injection Hsc' as <-.
  vm_compute in Hkeys. discriminate.
Qed.

(** ** GameEngine: the enemy rule *)

Lemma onHeap_heap f st : Engine.heap (Engine.onHeap f st) = f (Engine.heap st).
Proof. reflexivity. Qed.

(** C8, as the code has it.  When the enemy rule examines, at any point of
    its loop, an active enemy the player overlaps at that moment:
    if the player falls and its bottom edge is above the middle of the
    enemy, the enemy's [active] and [visible] flags become false, the
    player's vertical velocity becomes -7 and the score grows by 50;
    otherwise the player is put back at the spawn point with both velocity
    components 0, the enemy stays active and the score is unchanged. *)
Theorem enemyRule_outcome st playerA enemyA p e :
  Engine.heap st !! playerA = Some p ->
  Engine.heap st !! enemyA = Some e ->
  active e = true ->
  Engine.checkCollision p e = true ->
  (stomps p e ->
   exists st', Engine.enemyRule playerA st enemyA = Engine.Normal st' /\
     Engine.score st' = Engine.score st + 50 /\
     (exists e', Engine.heap st' !! enemyA = Some e' /\
                 active e' = false /\ visible e' = false) /\
     (exists p', Engine.heap st' !! playerA = Some p' /\ velocityY p' = -7)) /\
  (~ stomps p e ->
   forall pp, Engine.player (Engine.gameData st) = Some pp ->
   exists st', Engine.enemyRule playerA st enemyA = Engine.Normal st' /\
     Engine.score st' = Engine.score st /\
     (exists p', Engine.heap st' !! playerA = Some p' /\
                 x p' = opt_num_or (Engine.startX pp) 100 /\
                 y p' = opt_num_or (Engine.startY pp) 100 /\
                 velocityX p' = 0 /\ velocityY p' = 0) /\
     (exists e', Engine.heap st' !! enemyA = Some e' /\ active e' = true)).
Proof.
  intros Hp He Hact Hhit. unfold Engine.enemyRule. rewrite Hp, He, Hact, Hhit.
  cbn [andb]. split.
  - intros [Hv Hy]. apply Qltb_lt in Hv. apply Qltb_lt in Hy. rewrite Hv, Hy.
    cbn [andb].
    eexists. split; [reflexivity|]. split; [reflexivity|].
    cbn [Engine.heap Engine.playSound Engine.set_sounds Engine.set_score
         Engine.onHeap Engine.set_heap].
    rewrite !mutate_lookup, He, Hp.
    destruct (Nat.eqb playerA enemyA) eqn:E1, (Nat.eqb enemyA playerA) eqn:E2;
      try (apply Nat.eqb_eq in E1; subst; rewrite Nat.eqb_refl in E2; discriminate);
      try (apply Nat.eqb_eq in E2; subst; rewrite Nat.eqb_refl in E1; discriminate).
    + apply Nat.eqb_eq in E1. subst enemyA. rewrite Hp in He. injection He as <-.
      rewrite ?Nat.eqb_refl.
      split; eexists; (split; [reflexivity|]); auto.
    + rewrite ?Nat.eqb_refl.
      split; eexists; (split; [reflexivity|]); auto.
  - intros Hno pp Hpp.
    assert (Hc : Qltb 0 (velocityY p) && Qltb (y p + height p) (y e + height e / 2) = false).
    { destruct (Qltb 0 (velocityY p)) eqn:Hv; [|reflexivity].
      destruct (Qltb (y p + height p) (y e + height e / 2)) eqn:Hy; [|reflexivity].
      exfalso. apply Hno. split; apply Qltb_lt; assumption. }
    rewrite Hc. unfold Engine.respawn. rewrite Hpp.
    eexists. split; [reflexivity|]. split; [reflexivity|].
    cbn [Engine.heap Engine.playSound Engine.set_sounds Engine.set_score
         Engine.onHeap Engine.set_heap].
    rewrite !mutate_lookup, !Nat.eqb_refl, Hp, He.
    destruct (Nat.eqb playerA enemyA) eqn:E1.
    + apply Nat.eqb_eq in E1. subst enemyA. rewrite Hp in He. injection He as <-.
      split; eexists; (split; [reflexivity|]); auto.
    + split; eexists; (split; [reflexivity|]); auto.
Qed.

(** ** GameEngine: what starts a level transition *)

Lemma stateOf_bind c k st' :
  stateOf (Engine.bind c k) = Some st' ->
  (exists st1, c = Engine.Normal st1 /\ stateOf (k st1) = Some st') \/
  c = Engine.TypeError st'.
Proof.
  destruct c as [st1|st1|]; simpl; intros H.
  - left. eauto.
  - right. congruence.
  - discriminate.
Qed.

Section Keeping.
Variable R : Engine.t -> Engine.t -> Prop.
Hypothesis R_refl : forall st, R st st.
Hypothesis R_trans : forall st1 st2 st3, R st1 st2 -> R st2 st3 -> R st1 st3.

Lemma keeps_bind (f g : Engine.t -> Engine.Completion) :
  keeps R f -> keeps R g -> keeps R (fun st => Engine.bind (f st) g).
Proof.
  intros Hf Hg st st' H. apply stateOf_bind in H.
  destruct H as [(st1 & Hc & Hk) | Hc].
  - eapply R_trans; [apply Hf; rewrite Hc; reflexivity | apply Hg; exact Hk].
  - apply Hf. rewrite Hc. reflexivity.
Qed.

Lemma keeps_forEach {A : Type} (f : Engine.t -> A -> Engine.Completion) (l : list A) :
  (forall a, keeps R (fun st => f st a)) -> keeps R (Engine.forEach f l).
Proof.
  intros Hf. induction l as [|a l IH]; intros st st' H; simpl in H.
  - injection H as <-. apply R_refl.
  - apply (keeps_bind (fun st => f st a) (Engine.forEach f l) (Hf a) IH st st' H).
Qed.

Lemma keeps_normal (f : Engine.t -> Engine.t) :
  (forall st, R st (f st)) -> keeps R (fun st => Engine.Normal (f st)).
Proof. intros Hf st st' H. injection H as <-. apply Hf. Qed.
End Keeping.

Lemma sameTransition_refl st : sameTransition st st.
Proof. unfold sameTransition. repeat split. Qed.

Lemma sameTransition_trans st1 st2 st3 :
  sameTransition st1 st2 -> sameTransition st2 st3 -> sameTransition st1 st3.
Proof.
  unfold sameTransition.
  intros (A1 & A2 & A3 & A4 & A5 & A6) (B1 & B2 & B3 & B4 & B5 & B6).
  repeat split; congruence.
Qed.

(** Case analysis on every test of a step whose outcome is known. *)
Ltac split_step H :=
  repeat match type of H with
         | context [match ?c with _ => _ end] => destruct c
         end.

Ltac close_step H :=
  simpl in H; try discriminate H; injection H as <-;
  unfold sameTransition; repeat split.

Section TransitionFrame.
Variable behaviorUpdate : string -> option Scene.Hook.
Variable Math_sin : Q -> Q.
Variable Math_PI : Q.

Lemma updateMovingPlatform_frame platform deltaTime :
  keeps sameTransition (Engine.updateMovingPlatform Math_sin Math_PI platform deltaTime).
Proof.
  intros st st' H. unfold Engine.updateMovingPlatform in H.
  split_step H; close_step H.
Qed.

Lemma platformTick_frame deltaTime platform :
  keeps sameTransition (fun st => Engine.platformTick Math_sin Math_PI deltaTime st platform).
Proof.
  intros st st' H. unfold Engine.platformTick in H.
  destruct (Engine.heap st !! platform) as [p|]; [|close_step H].
  apply stateOf_bind in H. destruct H as [(st1 & Hc & Hk) | Hc].
  - assert (H1 : sameTransition st st1).
    { destruct (truthy (getData "movingPlatform" p)).
      - apply (updateMovingPlatform_frame platform deltaTime). rewrite Hc. reflexivity.
      - injection Hc as <-. apply sameTransition_refl. }
    eapply sameTransition_trans; [exact H1|].
    split_step Hk; close_step Hk.
  - destruct (truthy (getData "movingPlatform" p)); [|discriminate].
    apply (updateMovingPlatform_frame platform deltaTime). rewrite Hc. reflexivity.
Qed.

Lemma checkLevelCompletion_frame : keeps sameTransition Engine.checkLevelCompletion.
Proof.
  intros st st' H. unfold Engine.checkLevelCompletion in H.
  split_step H; close_step H.
Qed.

Lemma respawn_frame player : keeps sameTransition (Engine.respawn player).
Proof.
  intros st st' H. unfold Engine.respawn in H. split_step H; close_step H.
Qed.

Lemma handleInput_frame inputs player :
  keeps sameTransition (Engine.handleInput inputs player).
Proof.
  intros st st' H. unfold Engine.handleInput in H. split_step H; close_step H.
Qed.

Lemma markTemporary_frame player platform :
  keeps sameTransition (fun st => Engine.markTemporary player st platform).
Proof.
  intros st st' H. unfold Engine.markTemporary in H. split_step H; close_step H.
Qed.

Lemma handleJump_frame inputs platforms player :
  keeps sameTransition (Engine.handleJump inputs platforms player).
Proof.
  intros st st' H. unfold Engine.handleJump in H.
  destruct (Engine.heap st !! player) as [p|]; [|close_step H].
  destruct ((inputs "ArrowUp" || inputs "KeyW" || inputs "Space") && onGround p);
    [|close_step H].
  destruct (Engine.toNumber (getData "jumpForce" p)) as [j|]; [|discriminate].
  eapply sameTransition_trans;
    [|apply (keeps_forEach sameTransition sameTransition_refl sameTransition_trans
               (Engine.markTemporary player) platforms (markTemporary_frame player) _ _ H)].
  unfold sameTransition. repeat split.
Qed.

Lemma collectRule_frame player collectible :
  keeps sameTransition (fun st => Engine.collectRule player st collectible).
Proof.
  intros st st' H. unfold Engine.collectRule in H.
  destruct (Engine.heap st !! player) as [p|]; [|close_step H].
  destruct (Engine.heap st !! collectible) as [c|]; [|close_step H].
  destruct (active c && Engine.checkCollision p c); [|close_step H].
  destruct (Engine.toNumber (js_or (getData "value" c) (VNum 10))) as [value|];
    [|discriminate].
  apply checkLevelCompletion_frame in H.
  eapply sameTransition_trans; [|exact H].
  destruct (truthy (getData "sound" c)); unfold sameTransition; repeat split.
Qed.

Lemma enemyRule_frame player enemy :
  keeps sameTransition (fun st => Engine.enemyRule player st enemy).
Proof.
  intros st st' H. unfold Engine.enemyRule in H.
  destruct (Engine.heap st !! player) as [p|]; [|close_step H].
  destruct (Engine.heap st !! enemy) as [e|]; [|close_step H].
  destruct (active e && Engine.checkCollision p e); [|close_step H].
  destruct (Qltb 0 (velocityY p) && Qltb (y p + height p) (y e + height e / 2)).
  - close_step H.
  - apply respawn_frame in H. exact H.
Qed.

Lemma fellOff_frame player : keeps sameTransition (Engine.fellOff player).
Proof.
  intros st st' H. unfold Engine.fellOff in H.
  destruct (Engine.heap st !! player) as [p|]; [|close_step H].
  destruct (Engine.world (Engine.gameData st)) as [w|]; [|close_step H].
  destruct (Engine.w_height w) as [worldHeight|]; [|close_step H].
  destruct (Qltb worldHeight (y p)); [|close_step H].
  apply respawn_frame in H. exact H.
Qed.

Lemma updatePatrolEnemy_frame enemy : keeps sameTransition (Engine.updatePatrolEnemy enemy).
Proof.
  intros st st' H. unfold Engine.updatePatrolEnemy in H. split_step H; close_step H.
Qed.

Lemma enemyAI_frame enemy : keeps sameTransition (fun st => Engine.enemyAI st enemy).
Proof.
  intros st st' H. unfold Engine.enemyAI in H.
  destruct (Engine.heap st !! enemy) as [e|]; [|close_step H].
  destruct (active e); [|close_step H].
  destruct (str_is (getData "behavior" e) "patrol"); [|close_step H].
  apply updatePatrolEnemy_frame in H. exact H.
Qed.

Lemma sceneUpdate_frame deltaTime st :
  sameTransition st (Engine.sceneUpdate behaviorUpdate deltaTime st).
Proof.
  unfold Engine.sceneUpdate. destruct (Engine.activeScene st); [|apply sameTransition_refl].
  destruct (Scene.update _ _ _ _). unfold sameTransition. repeat split.
Qed.

Lemma sceneTagged_frame_forEach {A : Type} (f : Engine.t -> A -> Engine.Completion)
    (pick : Engine.t -> list A) :
  (forall a, keeps sameTransition (fun st => f st a)) ->
  keeps sameTransition (fun st => Engine.forEach f (pick st) st).
Proof.
  intros Hf st st' H.
  apply (keeps_forEach sameTransition sameTransition_refl sameTransition_trans
           f (pick st) Hf st st' H).
Qed.

Lemma playerRules_frame inputs platforms player :
  keeps sameTransition (Engine.playerRules inputs platforms player).
Proof.
  unfold Engine.playerRules.
  apply (keeps_bind sameTransition sameTransition_trans
           (Engine.handleInput inputs player)); [apply handleInput_frame|].
  apply (keeps_bind sameTransition sameTransition_trans
           (Engine.handleJump inputs platforms player)); [apply handleJump_frame|].
  apply (keeps_bind sameTransition sameTransition_trans
           (fun st2 => Engine.forEach (Engine.collectRule player)
                         (Engine.sceneTagged "collectible" st2) st2)).
  { apply sceneTagged_frame_forEach. apply collectRule_frame. }
  apply (keeps_bind sameTransition sameTransition_trans
           (fun st3 => Engine.forEach (Engine.enemyRule player)
                         (Engine.sceneTagged "enemy" st3) st3)).
  { apply sceneTagged_frame_forEach. apply enemyRule_frame. }
  apply fellOff_frame.
Qed.

(** Everything [update] does before the level-exit test leaves the level
    progression alone. *)
Lemma updateToExit_frame deltaTime inputs st st' :
  stateOf (fst (Engine.updateToExit behaviorUpdate Math_sin Math_PI deltaTime inputs st))
    = Some st' ->
  sameTransition st st'.
Proof.
  unfold Engine.updateToExit. intros H.
  pose proof (keeps_forEach sameTransition sameTransition_refl sameTransition_trans
                (Engine.platformTick Math_sin Math_PI deltaTime)
                (Engine.sceneTagged "platform" st)
                (platformTick_frame deltaTime) st) as Hticks.
  destruct (Engine.forEach (Engine.platformTick Math_sin Math_PI deltaTime)
              (Engine.sceneTagged "platform" st) st) as [st1|st1|].
  - pose proof (Hticks st1 eq_refl) as H1.
    pose proof (sceneUpdate_frame deltaTime st1) as H2.
    assert (H12 : sameTransition st (Engine.sceneUpdate behaviorUpdate deltaTime st1))
      by (eapply sameTransition_trans; eassumption).
    destruct inputs as [inp|].
    + destruct (Engine.sceneTagged "player" _) as [|player rest]; simpl in H.
      * injection H as <-. exact H12.
      * eapply sameTransition_trans; [exact H12|].
        apply (playerRules_frame inp (Engine.sceneTagged "platform" st) player _ _ H).
    + simpl in H. injection H as <-. exact H12.
  - simpl in H. injection H as <-. apply Hticks. reflexivity.
  - discriminate.
Qed.
End TransitionFrame.

Lemma checkLevelCompletion_effects st :
  exists st', stateOf (Engine.checkLevelCompletion st) = Some st' /\
    Engine.heap st' = Engine.heap st /\
    Engine.activeScene st' = Engine.activeScene st /\
    Engine.currentLevelIndex st' = Engine.currentLevelIndex st /\
    Engine.levelTransitioning st' = Engine.levelTransitioning st /\
    Engine.score st' = Engine.score st /\
    Engine.collectedItems st' = Engine.collectedItems st /\
    (Engine.sounds st' = Engine.sounds st \/
     Engine.sounds st' = Engine.sounds st ++ [VStr "collect"]).
Proof.
  unfold Engine.checkLevelCompletion.
  destruct (Engine.levelAt (Engine.gameData st) (Engine.currentLevelIndex st)) as [level|].
  - destruct (Qleb _ _); eexists; (split; [reflexivity|]); simpl; repeat split; auto.
  - eexists. split; [reflexivity|]. repeat split; auto.
Qed.

Lemma goToNextLevel_when_idle st st' :
  stateOf (Engine.goToNextLevel st) = Some st' ->
  Engine.levelTransitioning st = false ->
  Engine.levelTransitioning st' = true.
Proof.
  intros H Hidle. unfold Engine.goToNextLevel in H. rewrite Hidle in H.
  split_step H; simpl in H; injection H as <-; reflexivity.
Qed.

(** The level-exit test changes the transition flag only when the player is
    past the exit line. *)
Lemma levelExit_fires player st st' :
  stateOf (Engine.levelExit player st) = Some st' ->
  Engine.levelTransitioning st' <> Engine.levelTransitioning st ->
  exists p w worldWidth,
    Engine.heap st !! player = Some p /\
    Engine.world (Engine.gameData st) = Some w /\
    Engine.w_width w = Some worldWidth /\
    worldWidth - width p * 2 < x p.
Proof.
  intros H Hchg. unfold Engine.levelExit in H.
  destruct (Engine.heap st !! player) as [p|] eqn:Hp;
    [|simpl in H; injection H as <-; contradiction].
  destruct (Engine.world (Engine.gameData st)) as [w|] eqn:Hw;
    [|simpl in H; injection H as <-; contradiction].
  destruct (Engine.atExit w p) eqn:Hexit;
    [|simpl in H; injection H as <-; contradiction].
  unfold Engine.atExit in Hexit.
  destruct (Engine.w_width w) as [worldWidth|] eqn:Hww; [|discriminate].
  apply Qltb_lt in Hexit. exists p, w, worldWidth. auto.
Qed.

Section LevelTransition.
Variable behaviorUpdate : string -> option Scene.Hook.
Variable Math_sin : Q -> Q.
Variable Math_PI : Q.

(** C10.  [checkLevelCompletion] always ends, and it leaves the level
    index, the transition flag, the score, the collected-items counter and
    every entity of the active scene as they were; at most it plays the
    "collect" sound.  A frame of [update] that starts a level transition
    has run the level-exit test on a player whose x exceeds the world
    width minus twice the player's width. *)
Theorem level_transition_only_at_exit :
  (forall st,
     exists st', stateOf (Engine.checkLevelCompletion st) = Some st' /\
       Engine.heap st' = Engine.heap st /\
       Engine.activeScene st' = Engine.activeScene st /\
       Engine.currentLevelIndex st' = Engine.currentLevelIndex st /\
       Engine.levelTransitioning st' = Engine.levelTransitioning st /\
       Engine.score st' = Engine.score st /\
       Engine.collectedItems st' = Engine.collectedItems st /\
       (Engine.sounds st' = Engine.sounds st \/
        Engine.sounds st' = Engine.sounds st ++ [VStr "collect"])) /\
  (forall deltaTime inputs st st',
     stateOf (Engine.update behaviorUpdate Math_sin Math_PI deltaTime inputs st) = Some st' ->
     Engine.levelTransitioning st = false ->
     Engine.levelTransitioning st' = true ->
     exists st1 player p w worldWidth,
       Engine.updateToExit behaviorUpdate Math_sin Math_PI deltaTime inputs st =
         (Engine.Normal st1, Some player) /\
       Engine.heap st1 !! player = Some p /\
       Engine.world (Engine.gameData st1) = Some w /\
       Engine.w_width w = Some worldWidth /\
       worldWidth - width p * 2 < x p).
Proof.
  split; [exact checkLevelCompletion_effects|].
  intros deltaTime inputs st st' H Hidle Hbusy.
  unfold Engine.update in H. rewrite Hidle in H.
  destruct (Engine.activeScene st) as [sc|];
    [|simpl in H; injection H as <-; congruence].
  pose proof (updateToExit_frame behaviorUpdate Math_sin Math_PI deltaTime inputs st)
    as Hframe.
  destruct (Engine.updateToExit behaviorUpdate Math_sin Math_PI deltaTime inputs st)
    as [c player].
  simpl in Hframe.
  apply stateOf_bind in H. destruct H as [(st1 & -> & H) | ->].
  2: { destruct (Hframe st' eq_refl) as (_ & _ & Hlt & _). congruence. }
  destruct (Hframe st1 eq_refl) as (_ & _ & Hlt1 & _).
  apply stateOf_bind in H. destruct H as [(st2 & Hexit & H) | Hexit].
  - pose proof (keeps_forEach sameTransition sameTransition_refl sameTransition_trans
                  Engine.enemyAI (Engine.sceneTagged "enemy" st2) enemyAI_frame st2 st' H)
      as (_ & _ & Hlt2 & _).
    destruct player as [pk|]; [|injection Hexit as <-; congruence].
    destruct (levelExit_fires pk st1 st2) as (p & w & worldWidth & Hp & Hw & Hww & Hx).
    { rewrite Hexit. reflexivity. }
    { congruence. }
    exists st1, pk, p, w, worldWidth. auto.
  - destruct player as [pk|]; [|discriminate].
    destruct (levelExit_fires pk st1 st') as (p & w & worldWidth & Hp & Hw & Hww & Hx).
    { rewrite Hexit. reflexivity. }
    { congruence. }
    exists st1, pk, p, w, worldWidth. auto.
Qed.
End LevelTransition.

Lemma level_transition_only_at_exit_witness :
  exists st1 player p w worldWidth,
    Engine.updateToExit noBehaviors flatSine roughPi (1 # 60) (Some noKeys) exitState =
      (Engine.Normal st1, Some player) /\
    Engine.heap st1 !! player = Some p /\
    Engine.world (Engine.gameData st1) = Some w /\
    Engine.w_width w = Some worldWidth /\
    worldWidth - width p * 2 < x p.
Proof.
  destruct (level_transition_only_at_exit noBehaviors flatSine roughPi) as [_ Honly].
  destruct (stateOf (Engine.update noBehaviors flatSine roughPi (1 # 60) (Some noKeys)
                       exitState)) as [st'|] eqn:E;
    [|vm_compute in E; discriminate].
  apply (Honly (1 # 60) (Some noKeys) exitState st' E); [reflexivity|].
  vm_compute in E. injection E as <-. reflexivity.
Defined.

Lemma enemyRule_outcome_witness :
  exists st', Engine.enemyRule 0%nat stompState 1%nat = Engine.Normal st' /\
    Engine.score st' = Engine.score stompState + 50 /\
    (exists e', Engine.heap st' !! 1%nat = Some e' /\
                active e' = false /\ visible e' = false) /\
    (exists p', Engine.heap st' !! 0%nat = Some p' /\ velocityY p' = -7).
Proof.
  destruct (enemyRule_outcome stompState 0%nat 1%nat stomper walker) as [Hstomp _];
    [reflexivity | reflexivity | reflexivity | reflexivity |].
  apply Hstomp. split; reflexivity.
Defined.

(** C8 as stated fails for the frame.  [update] runs [Scene.update] before
    the gameplay rules: from the stomp state of the specification the
    physics lands the falling player on top of the enemy, so that the enemy
    rule finds no overlap any more; the enemy stays active and the score is
    unchanged. *)
Lemma stomp_frame_spares_enemy :
  ~ (forall (behaviorUpdate : string -> option Scene.Hook) (Math_sin : Q -> Q) (Math_PI : Q)
            (deltaTime : Q) (inputs : string -> bool) (st st' : Engine.t)
            (playerA enemyA : Addr) (p e : Entity),
       In playerA (Engine.sceneTagged "player" st) ->
       In enemyA (Engine.sceneTagged "enemy" st) ->
       Engine.heap st !! playerA = Some p ->
       Engine.heap st !! enemyA = Some e ->
       active e = true ->
       Engine.checkCollision p e = true ->
       stomps p e ->
       Engine.update behaviorUpdate Math_sin Math_PI deltaTime (Some inputs) st =
         Engine.Normal st' ->
       Engine.score st' == Engine.score st + 50 /\
       (exists e', Engine.heap st' !! enemyA = Some e' /\
                   active e' = false /\ visible e' = false) /\
       (exists p', Engine.heap st' !! playerA = Some p' /\ velocityY p' == -7)).
Proof.
  intros H.
  assert (Hin0 : In 0%nat (Engine.sceneTagged "player" stompState)) by (vm_compute; auto).
  assert (Hin1 : In 1%nat (Engine.sceneTagged "enemy" stompState)) by (vm_compute; auto).
  assert (Hst : stomps stomper walker) by (split; reflexivity).
  assert (Hrun : Engine.update noBehaviors flatSine roughPi (1 # 60) (Some noKeys) stompState =
                 Engine.Normal stompFrame) by (vm_compute; reflexivity).
  destruct (H noBehaviors flatSine roughPi (1 # 60) noKeys stompState stompFrame
              0%nat 1%nat stomper walker Hin0 Hin1 eq_refl eq_refl eq_refl eq_refl Hst Hrun)
    as (_ & (e' & He' & Hact & _) & _).
  vm_compute in He'. injection He' as <-. discriminate Hact.
Qed.

(** The same for the rule loop alone: when the player is above two enemies,
    stomping the first turns the player upwards, so the second one, met
    rising, sends the player back to the spawn point and stays active. *)
Lemma enemy_pass_spares_second_enemy :
  ~ (forall (st st' : Engine.t) (playerA enemyA : Addr) (p e : Entity),
       In enemyA (Engine.sceneTagged "enemy" st) ->
       Engine.heap st !! playerA = Some p ->
       Engine.heap st !! enemyA = Some e ->
       active e = true ->
       Engine.checkCollision p e = true ->
       stomps p e ->
       Engine.forEach (Engine.enemyRule playerA) (Engine.sceneTagged "enemy" st) st =
         Engine.Normal st' ->
       exists e', Engine.heap st' !! enemyA = Some e' /\ active e' = false).
Proof.
  intros H.
  assert (Hin : In 2%nat (Engine.sceneTagged "enemy" crowdState)) by (vm_compute; auto).
  assert (Hst : stomps stomper walker2) by (split; reflexivity).
  assert (Hrun : Engine.forEach (Engine.enemyRule 0%nat)
                   (Engine.sceneTagged "enemy" crowdState) crowdState =
                 Engine.Normal crowdPass) by (vm_compute; reflexivity).
  destruct (H crowdState crowdPass 0%nat 2%nat stomper walker2 Hin eq_refl eq_refl eq_refl
              eq_refl Hst Hrun) as (e' & He' & Hact).
  vm_compute in He'. injection He' as <-. discriminate Hact.
Qed.

(** The rule fires: at the exit line an idle engine starts the
    transition. *)
Lemma levelExit_starts_transition player st p w st' :
  Engine.heap st !! player = Some p ->
  Engine.world (Engine.gameData st) = Some w ->
  Engine.atExit w p = true ->
  Engine.levelTransitioning st = false ->
  stateOf (Engine.levelExit player st) = Some st' ->
  Engine.levelTransitioning st' = true.
Proof.
  intros Hp Hw Hexit Hidle H. unfold Engine.levelExit in H.
  rewrite Hp, Hw, Hexit in H. exact (goToNextLevel_when_idle st st' H Hidle).
Qed.

(** ** Collectibles are platforms *)









Section LevelBuilt.
Variable freshId : nat -> string.



End LevelBuilt.

(** *** Motion keeps the kind of an entity *)















Section SceneRest.
Variable behaviorUpdate : string -> option Scene.Hook.

End SceneRest.

(** *** The engine between two frames *)







Section RestFrame.
Variable behaviorUpdate : string -> option Scene.Hook.
Variable Math_sin : Q -> Q.
Variable Math_PI : Q.


















End RestFrame.

Section LevelRest.
Variable freshId : nat -> string.






Variable behaviorUpdate : string -> option Scene.Hook.
Variable Math_sin : Q -> Q.
Variable Math_PI : Q.


End LevelRest.



(** * Further properties of the engine *)

(** ** Physics: detection, resolution and integration *)

Lemma Math_min2_le a b : Math_min2 a b <= a /\ Math_min2 a b <= b.
Proof.
  unfold Math_min2. destruct (Qleb a b) eqn:E.
  - apply Qleb_le in E. split; lra.
  - apply Qleb_gt in E. split; lra.
Qed.

Lemma Math_min4_le a b c d :
  Math_min4 a b c d <= a /\ Math_min4 a b c d <= b /\
  Math_min4 a b c d <= c /\ Math_min4 a b c d <= d.
Proof.
  unfold Math_min4.
  pose proof (Math_min2_le a b) as [? ?].
  pose proof (Math_min2_le (Math_min2 a b) c) as [? ?].
  pose proof (Math_min2_le (Math_min2 (Math_min2 a b) c) d) as [? ?].
  repeat split; lra.
Qed.


(** X1.  [detectCollision] reports a collision exactly when both objects are
    solid and their boxes overlap with positive area; boxes that only touch
    along an edge do not collide. *)
Theorem detectCollision_collided_iff a b :
  Physics.collided (Physics.detectCollision a b) = true <->
  solid a = true /\ solid b = true /\ overlapping a b.
Proof.
  split.
  - intros H. destruct (detectCollision_collided a b H) as (Ha & Hb & Ho & _). auto.
  - intros (Ha & Hb & Ho). rewrite (detectCollision_overlapping a b Ha Hb Ho). reflexivity.
Qed.

(** X2.  The overlap that [detectCollision] reports for a collision is
    positive, is the penetration depth in one of the four directions, and is
    no larger than the depth in any direction. *)
Theorem detectCollision_overlap_least a b :
  Physics.collided (Physics.detectCollision a b) = true ->
  exists m, Physics.overlap (Physics.detectCollision a b) = Some m /\
    0 < m /\ (exists d, m = penetration d a b) /\ forall d, m <= penetration d a b.
Proof.
  intros H. destruct (detectCollision_collided a b H) as (_ & _ & Ho & Hm).
  exists (Physics.minOverlap a b). split; [exact Hm|]. split.
  - apply overlapping_minOverlap_pos. exact Ho.
  - split.
    + unfold Physics.minOverlap.
      destruct (Math_min4_cases (Physics.overlapLeft a b) (Physics.overlapRight a b)
                  (Physics.overlapTop a b) (Physics.overlapBottom a b))
        as [E | [E | [E | E]]].
      * exists Physics.left. exact E.
      * exists Physics.right. exact E.
      * exists Physics.top. exact E.
      * exists Physics.bottom. exact E.
    + intros d. unfold Physics.minOverlap.
      pose proof (Math_min4_le (Physics.overlapLeft a b) (Physics.overlapRight a b)
                    (Physics.overlapTop a b) (Physics.overlapBottom a b))
        as (? & ? & ? & ?).
      destruct d; simpl; assumption.
Qed.

Lemma detectCollision_overlap_least_witness :
  exists m,
    Physics.overlap (Physics.detectCollision (box "a" 0 0 10 10 0 1 []) (box "b" 8 5 10 10 0 0 []))
      = Some m /\
    0 < m /\
    (exists d, m = penetration d (box "a" 0 0 10 10 0 1 []) (box "b" 8 5 10 10 0 0 [])) /\
    forall d, m <= penetration d (box "a" 0 0 10 10 0 1 []) (box "b" 8 5 10 10 0 0 []).
Proof.
  apply (detectCollision_overlap_least (box "a" 0 0 10 10 0 1 []) (box "b" 8 5 10 10 0 0 [])).
  vm_compute. reflexivity.
Defined.



Ltac physics_step :=
  repeat (cbn [id x y width height velocityX velocityY acceleration gravity friction
               color solid bouncy bounceCoefficient mass tags active visible onGround
               behaviors data set_x set_y set_velocityX set_velocityY set_onGround
               negb andb] in *;
          match goal with
          | |- context [if ?c then _ else _] =>
              lazymatch c with
              | context [if _ then _ else _] => fail
              | _ => destruct c eqn:?
              end
          end);
  cbn [id x y width height velocityX velocityY acceleration gravity friction
       color solid bouncy bounceCoefficient mass tags active visible onGround
       behaviors data set_x set_y set_velocityX set_velocityY set_onGround
       negb andb] in *.

(** X4.  One physics step never leaves an entity falling faster than the
    terminal velocity, and it moves the entity by exactly the velocity the
    step ends with. *)
Theorem update_caps_and_integrates ph e :
  velocityY (Physics.update ph e) <= Physics.terminalVelocity ph /\
  x (Physics.update ph e) = x e + velocityX (Physics.update ph e) /\
  y (Physics.update ph e) = y e + velocityY (Physics.update ph e).
Proof.
  destruct e. unfold Physics.update. physics_step;
    (split; [first [apply Qle_refl | apply Qltb_ge; assumption] | split; reflexivity]).
Qed.


(** X6.  Friction does not let a grounded entity creep: after a physics step
    of an entity on the ground the horizontal speed is zero or at least
    0.1. *)
Theorem update_no_creep ph e :
  onGround e = true ->
  velocityX (Physics.update ph e) = 0 \/ 1 # 10 <= Qabs (velocityX (Physics.update ph e)).
Proof.
  intros Hg. destruct e. unfold Physics.update. physics_step;
    try discriminate Hg;
    first [ left; reflexivity
          | right;
            match goal with H : Qltb (Qabs _) _ = false |- _ => apply Qltb_ge in H; exact H end ].
Qed.

Lemma update_no_creep_witness :
  velocityX (Physics.update defaultPhysics (set_onGround true (box "a" 0 0 10 10 (1 # 10) 0 []))) = 0
  \/ 1 # 10 <= Qabs (velocityX (Physics.update defaultPhysics
                                  (set_onGround true (box "a" 0 0 10 10 (1 # 10) 0 [])))).
Proof.
  apply (update_no_creep defaultPhysics (set_onGround true (box "a" 0 0 10 10 (1 # 10) 0 []))).
  reflexivity.
Defined.

(** X8.  The engine's own overlap test agrees with the bounds test of the
    physics: [checkCollision] holds exactly when the boxes overlap with
    positive area, whatever the order of its arguments and whether or not
    the objects are solid. *)
Theorem checkCollision_overlapping a b :
  (Engine.checkCollision a b = true <-> overlapping a b) /\
  Engine.checkCollision a b = negb (Physics.separated a b) /\
  Engine.checkCollision a b = Engine.checkCollision b a.
Proof.
  assert (E : Engine.checkCollision a b = negb (Physics.separated a b)).
  { unfold Engine.checkCollision, Physics.separated, Qltb, Qleb.
    rewrite !negb_orb.
    destruct (Qle_bool (x b + width b) (x a)), (Qle_bool (x a + width a) (x b)),
      (Qle_bool (y b + height b) (y a)), (Qle_bool (y a + height a) (y b)); reflexivity. }
  split; [|split; [exact E|]].
  - rewrite E, negb_true_iff. split.
    + apply not_separated_overlapping.
    + apply overlapping_not_separated.
  - unfold Engine.checkCollision.
    destruct (Qltb (x a) (x b + width b)), (Qltb (x b) (x a + width a)),
      (Qltb (y a) (y b + height b)), (Qltb (y b) (y a + height a)); reflexivity.
Qed.

(** ** Entity: tags and behaviours *)

Lemma existsb_eqb_In (t : string) (l : list string) :
  existsb (String.eqb t) l = true <-> In t l.
Proof.
  rewrite existsb_exists. split.
  - intros (u & Hin & E). apply String.eqb_eq in E. subst. exact Hin.
  - intros Hin. exists t. split; [exact Hin | apply String.eqb_refl].
Qed.

Lemma existsb_eqb_app (t : string) (l l' : list string) :
  existsb (String.eqb t) (l ++ l') = existsb (String.eqb t) l || existsb (String.eqb t) l'.
Proof. apply existsb_app. Qed.

Lemma existsb_eqb_filter (t u : string) (l : list string) :
  existsb (String.eqb t) (List.filter (fun b => negb (String.eqb b u)) l) =
  existsb (String.eqb t) l && negb (String.eqb t u).
Proof.
  induction l as [|b l IH]; [reflexivity|]. cbn [List.filter existsb].
  destruct (String.eqb b u) eqn:Ebu; cbn [negb existsb].
  - rewrite IH. apply String.eqb_eq in Ebu. subst b.
    destruct (String.eqb t u); cbn [orb negb]; [rewrite andb_false_r|]; reflexivity.
  - rewrite IH. destruct (String.eqb t b) eqn:Etb; cbn [orb]; [|reflexivity].
    apply String.eqb_eq in Etb. subst b. rewrite Ebu. reflexivity.
Qed.

Lemma filter_absent (u : string) (l : list string) :
  existsb (String.eqb u) l = false ->
  List.filter (fun b => negb (String.eqb b u)) l = l.
Proof.
  induction l as [|b l IH]; [reflexivity|]. cbn [existsb List.filter].
  rewrite orb_false_iff. intros [E H]. rewrite String.eqb_sym, E. cbn [negb].
  rewrite IH by exact H. reflexivity.
Qed.

Lemma NoDup_snoc (u : string) (l : list string) :
  NoDup l -> ~ In u l -> NoDup (l ++ [u]).
Proof.
  intros Hl Hu. apply NoDup_app. split; [exact Hl|]. split.
  - intros t Ht Hin. apply list_elem_of_In in Ht, Hin.
    destruct Hin as [<- | []]. exact (Hu Ht).
  - apply NoDup_singleton.
Qed.

(** X9.  [addTag] gives the entity the tag and changes no other tag; it never
    stores a tag twice, so a tag list without duplicates stays without
    duplicates, and adding the same tag again changes nothing. *)
Theorem addTag_keeps_tags_unique tag e :
  NoDup (tags e) ->
  NoDup (tags (addTag tag e)) /\
  addTag tag (addTag tag e) = addTag tag e /\
  forall t, hasTag t (addTag tag e) = hasTag t e || String.eqb t tag.
Proof.
  intros Hnd. unfold addTag. destruct (hasTag tag e) eqn:Hh.
  - rewrite Hh. split; [exact Hnd|]. split; [reflexivity|].
    intros t. destruct (String.eqb t tag) eqn:E; [|rewrite orb_false_r; reflexivity].
    apply String.eqb_eq in E. subst t. rewrite Hh. reflexivity.
  - assert (Hin : hasTag tag (set_tags (tags e ++ [tag]) e) = true).
    { unfold hasTag. cbn [tags set_tags]. rewrite existsb_eqb_app. cbn [existsb].
      rewrite String.eqb_refl, !orb_true_r. reflexivity. }
    rewrite Hin. split; [|split; [reflexivity|]].
    + cbn [tags set_tags]. apply NoDup_snoc; [exact Hnd|].
      intros H. apply existsb_eqb_In in H. unfold hasTag in Hh. congruence.
    + intros t. unfold hasTag. cbn [tags set_tags]. rewrite existsb_eqb_app.
      cbn [existsb]. rewrite orb_false_r. reflexivity.
Qed.

Lemma addTag_keeps_tags_unique_witness :
  NoDup (tags (addTag "enemy" (box "a" 0 0 10 10 0 0 ["enemy"; "patrol"]))) /\
  addTag "enemy" (addTag "enemy" (box "a" 0 0 10 10 0 0 ["enemy"; "patrol"])) =
    addTag "enemy" (box "a" 0 0 10 10 0 0 ["enemy"; "patrol"]) /\
  forall t, hasTag t (addTag "enemy" (box "a" 0 0 10 10 0 0 ["enemy"; "patrol"])) =
            hasTag t (box "a" 0 0 10 10 0 0 ["enemy"; "patrol"]) || String.eqb t "enemy".
Proof.
  apply (addTag_keeps_tags_unique "enemy" (box "a" 0 0 10 10 0 0 ["enemy"; "patrol"])).
  cbn [tags box newEntity o_tags]. apply (bool_decide_unpack _). vm_compute. reflexivity.
Defined.

(** X10.  [removeTag] takes the tag away, every copy of it, and changes no
    other tag. *)
Theorem removeTag_removes tag e t :
  hasTag t (removeTag tag e) = hasTag t e && negb (String.eqb t tag).
Proof.
  unfold hasTag, removeTag. cbn [tags set_tags]. apply existsb_eqb_filter.
Qed.

(** X11.  [addBehavior] keeps behaviour names unique and puts the behaviour
    last: one attached again under a name the entity already has replaces
    the old one and from then on runs after all the others, whose order is
    kept. *)
Theorem addBehavior_unique_and_last name e :
  NoDup (behaviors e) ->
  NoDup (behaviors (addBehavior name e)) /\
  behaviors (addBehavior name e) =
    List.filter (fun b => negb (String.eqb b name)) (behaviors e) ++ [name] /\
  hasBehavior name (addBehavior name e) = true.
Proof.
  intros Hnd.
  assert (E : behaviors (addBehavior name e) =
              List.filter (fun b => negb (String.eqb b name)) (behaviors e) ++ [name]).
  { unfold addBehavior. destruct (hasBehavior name e) eqn:Hh.
    - reflexivity.
    - cbn [behaviors set_behaviors]. unfold hasBehavior in Hh.
      rewrite filter_absent by exact Hh. reflexivity. }
  split; [|split; [exact E|]].
  - rewrite E. apply NoDup_snoc.
    + apply NoDup_ListNoDup, List.NoDup_filter, NoDup_ListNoDup, Hnd.
    + intros H. apply filter_In in H. destruct H as [_ H].
      rewrite String.eqb_refl in H. discriminate.
  - unfold hasBehavior. rewrite E, existsb_eqb_app. cbn [existsb].
    rewrite String.eqb_refl, !orb_true_r. reflexivity.
Qed.

Lemma addBehavior_unique_and_last_witness :
  NoDup (behaviors (addBehavior "patrol" (set_behaviors ["patrol"; "blink"] (box "a" 0 0 10 10 0 0 [])))) /\
  behaviors (addBehavior "patrol" (set_behaviors ["patrol"; "blink"] (box "a" 0 0 10 10 0 0 []))) =
    List.filter (fun b => negb (String.eqb b "patrol"))
      (behaviors (set_behaviors ["patrol"; "blink"] (box "a" 0 0 10 10 0 0 []))) ++ ["patrol"] /\
  hasBehavior "patrol"
    (addBehavior "patrol" (set_behaviors ["patrol"; "blink"] (box "a" 0 0 10 10 0 0 []))) = true.
Proof.
  apply (addBehavior_unique_and_last "patrol"
           (set_behaviors ["patrol"; "blink"] (box "a" 0 0 10 10 0 0 []))).
  cbn [behaviors set_behaviors]. apply (bool_decide_unpack _). vm_compute. reflexivity.
Defined.

(** ** Scene: the entity table outside an update *)

Lemma mapSet_length {V} k (v : V) m :
  List.length (mapSet k v m) =
  match mapGet k m with Some _ => List.length m | None => S (List.length m) end.
Proof.
  induction m as [|[k' v'] m IH]; [reflexivity|]. cbn [mapSet mapGet].
  destruct (String.eqb k k'); [reflexivity|]. cbn [List.length]. rewrite IH.
  destruct (mapGet k m); reflexivity.
Qed.

(** X12.  Outside an update [addEntity] takes effect at once: the entity is
    found under its id, every other id is as before, and no object is
    touched.  Adding under an id that is already present replaces the entry,
    so the count grows only for a new id. *)
Theorem addEntity_at_rest a e h s :
  Scene.isUpdating s = false -> h !! a = Some e ->
  fst (Scene.addEntity a (h, s)) = h /\
  (forall k, Scene.getEntity k (snd (Scene.addEntity a (h, s))) =
             if String.eqb k (id e) then Some a else Scene.getEntity k s) /\
  Scene.getEntityCount (snd (Scene.addEntity a (h, s))) =
    (if Scene.hasEntity (id e) s then Scene.getEntityCount s
     else S (Scene.getEntityCount s)).
Proof.
  intros Hu He. unfold Scene.addEntity. rewrite Hu. cbn [fst snd].
  unfold Scene.insertEntity. rewrite He.
  split; [reflexivity|]. split.
  - intros k. unfold Scene.getEntity. cbn [Scene.entities Scene.set_entities].
    destruct (String.eqb k (id e)) eqn:E.
    + apply String.eqb_eq in E. subst k. apply mapGet_mapSet_eq.
    + apply mapGet_mapSet_ne. intros Heq. subst k. rewrite String.eqb_refl in E. discriminate.
  - unfold Scene.getEntityCount, Scene.hasEntity.
    cbn [Scene.entities Scene.set_entities]. rewrite mapSet_length.
    destruct (mapGet (id e) (Scene.entities s)); reflexivity.
Qed.

Lemma addEntity_at_rest_witness :
  fst (Scene.addEntity 1%nat (fallHeap, loneScene)) = fallHeap /\
  (forall k, Scene.getEntity k (snd (Scene.addEntity 1%nat (fallHeap, loneScene))) =
             if String.eqb k (id ground) then Some 1%nat else Scene.getEntity k loneScene) /\
  Scene.getEntityCount (snd (Scene.addEntity 1%nat (fallHeap, loneScene))) =
    (if Scene.hasEntity (id ground) loneScene then Scene.getEntityCount loneScene
     else S (Scene.getEntityCount loneScene)).
Proof.
  apply (addEntity_at_rest 1%nat ground fallHeap loneScene); reflexivity.
Defined.

(** X13.  Outside an update [removeEntity] takes effect at once: the id is
    no longer found, the object that was stored under it is destroyed, and
    every other entry and every other object is as before.  An id the scene
    does not know changes nothing. *)
Theorem removeEntity_at_rest k h s :
  Scene.isUpdating s = false ->
  (forall k', Scene.getEntity k' (snd (Scene.removeEntity k (h, s))) =
              if String.eqb k' k then None else Scene.getEntity k' s) /\
  (forall b, fst (Scene.removeEntity k (h, s)) !! b =
             match Scene.getEntity k s with
             | Some a => if Nat.eqb a b then destroy <$> h !! b else h !! b
             | None => h !! b
             end) /\
  (Scene.getEntity k s = None -> Scene.removeEntity k (h, s) = (h, s)).
Proof.
  intros Hu. unfold Scene.removeEntity. rewrite Hu. unfold Scene.deleteEntity, Scene.getEntity.
  destruct (mapGet k (Scene.entities s)) as [a|] eqn:Hk; cbn [fst snd].
  - split; [|split; [|discriminate]].
    + intros k'. cbn [Scene.entities Scene.set_entities].
      destruct (String.eqb k' k) eqn:E.
      * apply String.eqb_eq in E. subst k'. apply mapGet_mapDelete_eq.
      * apply mapGet_mapDelete_ne. intros Heq. subst k'. rewrite String.eqb_refl in E.
        discriminate.
    + intros b. apply mutate_lookup.
  - split; [|split; [|reflexivity]].
    + intros k'. destruct (String.eqb k' k) eqn:E; [|reflexivity].
      apply String.eqb_eq in E. subst k'. exact Hk.
    + reflexivity.
Qed.

Lemma removeEntity_at_rest_witness :
  (forall k', Scene.getEntity k' (snd (Scene.removeEntity "b" (fallHeap, fallScene))) =
              if String.eqb k' "b" then None else Scene.getEntity k' fallScene) /\
  (forall b, fst (Scene.removeEntity "b" (fallHeap, fallScene)) !! b =
             match Scene.getEntity "b" fallScene with
             | Some a => if Nat.eqb a b then destroy <$> fallHeap !! b else fallHeap !! b
             | None => fallHeap !! b
             end) /\
  (Scene.getEntity "b" fallScene = None ->
   Scene.removeEntity "b" (fallHeap, fallScene) = (fallHeap, fallScene)).
Proof.
  apply (removeEntity_at_rest "b" fallHeap fallScene). reflexivity.
Defined.

(** ** Scene: the drawing order *)

Lemma insertByY_perm h a l : Permutation (insertByY h a l) (a :: l).
Proof.
  induction l as [|b l IH]; cbn [insertByY]; [reflexivity|].
  destruct (Qltb (yOf h a) (yOf h b)); [reflexivity|].
  rewrite IH. apply perm_swap.
Qed.

Lemma insertByY_sorted h a l :
  StronglySorted (belowOrLevel h) l -> StronglySorted (belowOrLevel h) (insertByY h a l).
Proof.
  induction l as [|b l IH]; intros Hs; cbn [insertByY].
  - constructor; constructor.
  - apply StronglySorted_inv in Hs. destruct Hs as [Hs Hb].
    destruct (Qltb (yOf h a) (yOf h b)) eqn:E.
    + apply Qltb_lt in E. constructor; [constructor; assumption|].
      constructor; [unfold belowOrLevel; lra|].
      eapply List.Forall_impl; [|exact Hb]. unfold belowOrLevel. intros c Hc. lra.
    + apply Qltb_ge in E. constructor; [apply IH; exact Hs|].
      apply list.Forall_forall. intros c Hc.
      apply (elem_of_Permutation_proper _ _ _ (insertByY_perm h a l)) in Hc.
      apply elem_of_cons in Hc. destruct Hc as [-> | Hc]; [exact E|].
      rewrite list.Forall_forall in Hb. apply Hb. exact Hc.
Qed.

Lemma insertByY_level h v a l :
  StronglySorted (belowOrLevel h) l ->
  List.filter (fun b => Qeqb (yOf h b) v) (insertByY h a l) =
  List.filter (fun b => Qeqb (yOf h b) v) l ++ List.filter (fun b => Qeqb (yOf h b) v) [a].
Proof.
  induction l as [|b l IH]; intros Hs; cbn [insertByY]; [reflexivity|].
  apply StronglySorted_inv in Hs. destruct Hs as [Hs Hb].
  destruct (Qltb (yOf h a) (yOf h b)) eqn:E.
  - apply Qltb_lt in E. cbn [List.filter app].
    destruct (Qeqb (yOf h a) v) eqn:Ea; [|rewrite app_nil_r; reflexivity].
    apply Qeqb_eq in Ea.
    assert (Hnone : forall c, In c (b :: l) -> Qeqb (yOf h c) v = false).
    { intros c Hc. destruct (Qeqb (yOf h c) v) eqn:Ec; [|reflexivity].
      apply Qeqb_eq in Ec. exfalso. destruct Hc as [<- | Hc]; [lra|].
      rewrite list.Forall_forall in Hb. apply list_elem_of_In in Hc.
      specialize (Hb c Hc). unfold belowOrLevel in Hb. lra. }
    assert (Hnil : List.filter (fun c => Qeqb (yOf h c) v) (b :: l) = []).
    { clear -Hnone. induction (b :: l) as [|c r IHr]; [reflexivity|].
      cbn [List.filter]. rewrite Hnone by (left; reflexivity).
      apply IHr. intros d Hd. apply Hnone. right. exact Hd. }
    cbn [List.filter] in Hnil. rewrite Hnil. reflexivity.
  - cbn [List.filter]. rewrite IH by exact Hs.
    destruct (Qeqb (yOf h b) v); reflexivity.
Qed.

Lemma sortByY_from h v l : forall acc,
  StronglySorted (belowOrLevel h) acc ->
  Permutation (fold_left (fun sorted a => insertByY h a sorted) l acc) (acc ++ l) /\
  StronglySorted (belowOrLevel h) (fold_left (fun sorted a => insertByY h a sorted) l acc) /\
  List.filter (fun b => Qeqb (yOf h b) v)
    (fold_left (fun sorted a => insertByY h a sorted) l acc) =
  List.filter (fun b => Qeqb (yOf h b) v) (acc ++ l).
Proof.
  induction l as [|a l IH]; intros acc Hs; cbn [fold_left].
  - rewrite app_nil_r. auto.
  - destruct (IH (insertByY h a acc) (insertByY_sorted h a acc Hs)) as (Hp & Hso & Hf).
    split; [|split; [exact Hso|]].
    + rewrite Hp, insertByY_perm. cbn [app]. apply Permutation_middle.
    + rewrite Hf, !List.filter_app, insertByY_level by exact Hs.
      cbn [List.filter]. destruct (Qeqb (yOf h a) v); cbn [app];
        rewrite <- ?app_assoc; reflexivity.
Qed.

(** X14.  [Scene.render] hands the renderer exactly the visible entities of
    the scene, each once, ordered by ascending [y]: an entity further down
    the screen is drawn later, over the ones above it.  Whether an entity is
    active plays no part. *)
Theorem renderOrder_sorted h s :
  Permutation (renderOrder h s)
    (List.filter (isVisible h) (mapValues (Scene.entities s))) /\
  StronglySorted (fun a b => yOf h a <= yOf h b) (renderOrder h s).
Proof.
  unfold renderOrder, sortByY.
  destruct (sortByY_from h 0 (List.filter (isVisible h) (mapValues (Scene.entities s))) [])
    as (Hp & Hs & _); [constructor|].
  split; [exact Hp | exact Hs].
Qed.

(** X15.  The drawing order is stable: entities at the same height are drawn
    in the order in which they were added to the scene. *)
Theorem renderOrder_stable h s v :
  List.filter (fun a => Qeqb (yOf h a) v) (renderOrder h s) =
  List.filter (fun a => Qeqb (yOf h a) v)
    (List.filter (isVisible h) (mapValues (Scene.entities s))).
Proof.
  unfold renderOrder, sortByY.
  destruct (sortByY_from h v (List.filter (isVisible h) (mapValues (Scene.entities s))) [])
    as (_ & _ & Hf); [constructor|].
  exact Hf.
Qed.

(** ** Scene: inactive entities *)

(** X16.  A frame passes over an entity that is inactive when the frame
    starts: in a scene without behaviours and with no removal pending the
    entity is neither moved nor changed in any other way, and it is filed
    neither under the physics entities nor under the platforms, so that
    nothing collides with it. *)
Theorem update_skips_inactive (behaviorUpdate : string -> option Scene.Hook)
    deltaTime h s a e :
  quiet h s -> Scene.entitiesToRemove s = [] ->
  h !! a = Some e -> active e = false ->
  fst (Scene.update behaviorUpdate deltaTime h s) !! a = Some e /\
  ~ In a (Scene.physicsEntities (Scene.collect behaviorUpdate deltaTime h s)) /\
  ~ In a (Scene.platformEntities (Scene.collect behaviorUpdate deltaTime h s)).
Proof.
  intros Hq Hrem He Hact.
  assert (Hm : ~ In a (List.filter (moving h) (mapValues (Scene.entities s)))).
  { intros Hin. apply filter_In in Hin. destruct Hin as [_ Hin].
    unfold moving in Hin. rewrite He, Hact in Hin. discriminate. }
  assert (Hst : ~ In a (List.filter (standing h) (mapValues (Scene.entities s)))).
  { intros Hin. apply filter_In in Hin. destruct Hin as [_ Hin].
    unfold standing in Hin. rewrite He, Hact in Hin. discriminate. }
  rewrite collect_quiet by exact Hq. cbn [Scene.physicsEntities Scene.platformEntities].
  split; [|split; assumption].
  unfold Scene.update. rewrite updatePass_quiet by exact Hq.
  rewrite processPendingEntities_unfold. cbv zeta.
  cbn [Scene.entitiesToRemove Scene.set_entitiesToAdd].
  rewrite (proj1 (insert_all_buffers _ _ _)).
  cbn [Scene.entitiesToRemove Scene.set_isUpdating]. rewrite Hrem.
  cbn [rev fold_left fst]. rewrite physicsPass_frame by exact Hm. exact He.
Qed.

Lemma update_skips_inactive_witness :
  fst (Scene.update noBehaviors 1 sleepHeap sleepScene) !! 1%nat = Some sleeper /\
  ~ In 1%nat (Scene.physicsEntities (Scene.collect noBehaviors 1 sleepHeap sleepScene)) /\
  ~ In 1%nat (Scene.platformEntities (Scene.collect noBehaviors 1 sleepHeap sleepScene)).
Proof.
  apply (update_skips_inactive noBehaviors 1 sleepHeap sleepScene 1%nat sleeper).
  - apply quiet_of_heap. repeat constructor.
  - reflexivity.
  - reflexivity.
  - reflexivity.
Defined.

(** ** AssetManager: loads, getters and sprites *)

(** X17.  A failed load is final.  Once [loadAsset] has rejected for an id,
    any later [loadAsset] for that id, whatever the URL and however the
    network behaves by then, resolves at once with the stored record, which
    is not loaded and carries the error; no load is attempted and the
    manager does not change.  The getters report the asset as missing. *)
Theorem loadAsset_never_retries net net' i u u' optType optType' m msg :
  Asset.assets m !! i = None ->
  Asset.loadPromises m !! i = None ->
  Asset.fetchData net m (default (Asset.inferTypeFromUrl u) optType) u = Asset.Rejected msg ->
  exists a,
    Asset.loadAsset net' i u' optType' (fst (Asset.loadAsset net i u optType m)) =
      (fst (Asset.loadAsset net i u optType m), Asset.Resolved a) /\
    Asset.loaded a = false /\ Asset.error a = Some msg /\
    Sprites.getImage i (fst (Asset.loadAsset net i u optType m)) = None /\
    Sprites.getJson i (fst (Asset.loadAsset net i u optType m)) = None /\
    Sprites.areAssetsLoaded [i] (fst (Asset.loadAsset net i u optType m)) = false.
Proof.
  intros Hnew Hfree Hfail.
  assert (E : exists a,
             Asset.assets (fst (Asset.loadAsset net i u optType m)) !! i = Some a /\
             Asset.loaded a = false /\ Asset.error a = Some msg).
  { unfold Asset.loadAsset. rewrite Hnew, Hfree.
    unfold Asset.loadAssetData. cbn [Asset.type Asset.url Asset.a_id].
    rewrite fetchData_baseUrl, Hfail. cbn.
    eexists. split; [apply lookup_insert_eq|]. cbn. auto. }
  destruct E as (a & Ha & Hl & He). exists a.
  split; [|split; [exact Hl|split; [exact He|]]].
  - unfold Asset.loadAsset at 1. rewrite Ha. reflexivity.
  - unfold Sprites.getImage, Sprites.getJson, Sprites.areAssetsLoaded.
    cbn [forallb]. rewrite Ha, Hl. auto.
Qed.

Lemma loadAsset_never_retries_witness :
  exists a,
    Asset.loadAsset online "hero" "hero2.png" None
      (fst (Asset.loadAsset offline "hero" "hero.png" None (Asset.new ""))) =
      (fst (Asset.loadAsset offline "hero" "hero.png" None (Asset.new "")), Asset.Resolved a) /\
    Asset.loaded a = false /\ Asset.error a = Some "Failed to load image: hero.png" /\
    Sprites.getImage "hero" (fst (Asset.loadAsset offline "hero" "hero.png" None (Asset.new ""))) = None /\
    Sprites.getJson "hero" (fst (Asset.loadAsset offline "hero" "hero.png" None (Asset.new ""))) = None /\
    Sprites.areAssetsLoaded ["hero"]
      (fst (Asset.loadAsset offline "hero" "hero.png" None (Asset.new ""))) = false.
Proof.
  apply (loadAsset_never_retries offline online "hero" "hero.png" "hero2.png" None None
           (Asset.new ""));
    [reflexivity | reflexivity | vm_compute; reflexivity].
Defined.

(** X18.  After a successful load the asset counts as loaded, [getImage]
    returns its data only for an asset of type image and [getJson] only for
    one of type json (the image of a spritesheet is not reachable through
    [getImage]), and a further [loadAsset] for the id resolves with the same
    record without touching the manager. *)
Theorem loadAsset_success_getters net net' i u u' optType optType' m d :
  Asset.assets m !! i = None ->
  Asset.loadPromises m !! i = None ->
  Asset.fetchData net m (default (Asset.inferTypeFromUrl u) optType) u = Asset.Resolved d ->
  Sprites.getImage i (fst (Asset.loadAsset net i u optType m)) =
    match default (Asset.inferTypeFromUrl u) optType with
    | Asset.image => Some d
    | _ => None
    end /\
  Sprites.getJson i (fst (Asset.loadAsset net i u optType m)) =
    match default (Asset.inferTypeFromUrl u) optType with
    | Asset.json => Some d
    | _ => None
    end /\
  Sprites.areAssetsLoaded [i] (fst (Asset.loadAsset net i u optType m)) = true /\
  Asset.loadAsset net' i u' optType' (fst (Asset.loadAsset net i u optType m)) =
    (fst (Asset.loadAsset net i u optType m), snd (Asset.loadAsset net i u optType m)).
Proof.
  intros Hnew Hfree Hok.
  assert (E : exists a,
             snd (Asset.loadAsset net i u optType m) = Asset.Resolved a /\
             Asset.assets (fst (Asset.loadAsset net i u optType m)) !! i = Some a /\
             Asset.loaded a = true /\ Asset.a_data a = Some d /\
             Asset.type a = default (Asset.inferTypeFromUrl u) optType).
  { unfold Asset.loadAsset. rewrite Hnew, Hfree.
    unfold Asset.loadAssetData. cbn [Asset.type Asset.url Asset.a_id].
    rewrite fetchData_baseUrl, Hok. cbn.
    eexists. split; [reflexivity|]. split; [apply lookup_insert_eq|]. cbn. auto. }
  destruct E as (a & Hs & Ha & Hl & Hd & Ht).
  unfold Sprites.getImage, Sprites.getJson, Sprites.areAssetsLoaded.
  cbn [forallb]. rewrite Ha, Hl, Ht, Hd, Hs.
  split; [destruct (default _ optType); reflexivity|].
  split; [destruct (default _ optType); reflexivity|].
  split; [reflexivity|].
  unfold Asset.loadAsset at 1. rewrite Ha. reflexivity.
Qed.

Lemma loadAsset_success_getters_witness :
  Sprites.getImage "hero" (fst (Asset.loadAsset online "hero" "hero.png" None (Asset.new ""))) =
    match default (Asset.inferTypeFromUrl "hero.png") None with
    | Asset.image => Some (Asset.ImageData "hero.png")
    | _ => None
    end /\
  Sprites.getJson "hero" (fst (Asset.loadAsset online "hero" "hero.png" None (Asset.new ""))) =
    match default (Asset.inferTypeFromUrl "hero.png") None with
    | Asset.json => Some (Asset.ImageData "hero.png")
    | _ => None
    end /\
  Sprites.areAssetsLoaded ["hero"]
    (fst (Asset.loadAsset online "hero" "hero.png" None (Asset.new ""))) = true /\
  Asset.loadAsset offline "hero" "other.png" None
    (fst (Asset.loadAsset online "hero" "hero.png" None (Asset.new ""))) =
    (fst (Asset.loadAsset online "hero" "hero.png" None (Asset.new "")),
     snd (Asset.loadAsset online "hero" "hero.png" None (Asset.new ""))).
Proof.
  apply (loadAsset_success_getters online offline "hero" "hero.png" "other.png" None None
           (Asset.new "") (Asset.ImageData "hero.png"));
    [reflexivity | reflexivity | vm_compute; reflexivity].
Defined.

(** X19.  [unloadAsset] removes the asset and nothing else: the test that
    should find the sprites drawn from the image asks [getImage] after the
    asset has been deleted, so every sprite stays in the table, the ones
    that use the unloaded image included. *)
Theorem unloadAsset_keeps_sprites i m :
  Sprites.sprites (fst (Sprites.unloadAsset i m)) = Sprites.sprites m /\
  Asset.assets (Sprites.store (fst (Sprites.unloadAsset i m))) !! i = None /\
  snd (Sprites.unloadAsset i m) =
    match Asset.assets (Sprites.store m) !! i with Some _ => true | None => false end.
Proof.
  unfold Sprites.unloadAsset.
  destruct (Asset.assets (Sprites.store m) !! i) as [a|] eqn:Ha; cbn [fst snd].
  - cbn [Sprites.sprites Sprites.store Asset.assets Asset.set_assets].
    split; [|split; [apply lookup_delete_eq | reflexivity]].
    apply map_filter_id. intros k sp _. cbn [snd].
    unfold Sprites.getImage. cbn [Asset.assets Asset.set_assets].
    rewrite lookup_delete_eq. reflexivity.
  - split; [reflexivity|]. split; [exact Ha | reflexivity].
Qed.

(** ** Sprites: the frame grid and the animation clock *)




(** X21.  The animation clock keeps the current frame inside the frame
    list, and never changes the list.  A sprite that does not loop never
    steps back: once on its last frame it stays there. *)
Theorem updateSprite_frame_in_range deltaTime s :
  (Sprites.currentFrame s < List.length (Sprites.frames s))%nat ->
  (Sprites.currentFrame (Sprites.updateSprite deltaTime s) <
     List.length (Sprites.frames (Sprites.updateSprite deltaTime s)))%nat /\
  Sprites.frames (Sprites.updateSprite deltaTime s) = Sprites.frames s /\
  (Sprites.loop s = false ->
   (Sprites.currentFrame s <= Sprites.currentFrame (Sprites.updateSprite deltaTime s))%nat /\
   (Sprites.currentFrame s = (List.length (Sprites.frames s) - 1)%nat ->
    Sprites.currentFrame (Sprites.updateSprite deltaTime s) = Sprites.currentFrame s)).
Proof.
  intros Hin. unfold Sprites.updateSprite.
  destruct (List.length (Sprites.frames s) <=? 1)%nat eqn:Hn.
  - split; [exact Hin|]. split; [reflexivity|]. intros _. split; [lia | reflexivity].
  - apply Nat.leb_gt in Hn.
    destruct (Qleb (Sprites.frameTime s) (Sprites.animationTime s + deltaTime));
      cbn [Sprites.currentFrame Sprites.frames];
      [|split; [exact Hin|]; split; [reflexivity|]; intros _; split; [lia | reflexivity]].
    pose proof (Nat.mod_upper_bound (Sprites.currentFrame s + 1)
                  (List.length (Sprites.frames s)) ltac:(lia)) as Hm.
    split; [|split; [reflexivity|]].
    + destruct (negb (Sprites.loop s) &&
                ((Sprites.currentFrame s + 1) mod List.length (Sprites.frames s) =? 0)%nat);
        lia.
    + intros Hl. rewrite Hl. cbn [negb andb].
      destruct ((Sprites.currentFrame s + 1) mod List.length (Sprites.frames s) =? 0)%nat
        eqn:Hz.
      * split; [lia|]. intros ->. reflexivity.
      * apply Nat.eqb_neq in Hz.
        destruct (Nat.eq_dec (Sprites.currentFrame s + 1)%nat
                    (List.length (Sprites.frames s))) as [E | E].
        -- rewrite E, Nat.Div0.mod_same in Hz. contradiction.
        -- rewrite Nat.mod_small by lia. split; [lia|]. intros E'. lia.
Qed.

Lemma updateSprite_frame_in_range_witness :
  (Sprites.currentFrame (Sprites.updateSprite 1 oneShot) <
     List.length (Sprites.frames (Sprites.updateSprite 1 oneShot)))%nat /\
  Sprites.frames (Sprites.updateSprite 1 oneShot) = Sprites.frames oneShot /\
  (Sprites.loop oneShot = false ->
   (Sprites.currentFrame oneShot <= Sprites.currentFrame (Sprites.updateSprite 1 oneShot))%nat /\
   (Sprites.currentFrame oneShot = (List.length (Sprites.frames oneShot) - 1)%nat ->
    Sprites.currentFrame (Sprites.updateSprite 1 oneShot) = Sprites.currentFrame oneShot)).
Proof.
  apply (updateSprite_frame_in_range 1 oneShot). vm_compute. lia.
Defined.

(** ** SoundManager: volume, mute and loading *)

Lemma clamp01_range v : 0 <= Sound.clamp01 v <= 1.
Proof.
  unfold Sound.clamp01.
  destruct (Qleb 1 v) eqn:E1.
  - change (Qleb 1 0) with false. cbv iota. split; lra.
  - apply Qleb_gt in E1. destruct (Qleb v 0) eqn:E0.
    + split; lra.
    + apply Qleb_gt in E0. split; lra.
Qed.

(** X22.  The master volume is always kept within [0, 1], a volume already
    in that range is stored as it is, and after each of [setMasterVolume],
    [mute], [unmute] and [toggleMute] the master gain is 0 when muted and
    the master volume otherwise.  [toggleMute] returns the new mute state,
    the opposite of the old one. *)
Theorem volume_controls_agree v st :
  0 <= Sound.getMasterVolume (Sound.setMasterVolume v st) <= 1 /\
  (Sound.getMasterVolume (Sound.setMasterVolume v st) ==
     if Qleb v 0 then 0 else if Qleb 1 v then 1 else v) /\
  audible (Sound.setMasterVolume v st) /\
  audible (Sound.mute st) /\ audible (Sound.unmute st) /\
  audible (fst (Sound.toggleMute st)) /\
  snd (Sound.toggleMute st) = negb (Sound.isMuted st) /\
  Sound.isMuted (fst (Sound.toggleMute st)) = negb (Sound.isMuted st).
Proof.
  split; [apply clamp01_range|]. split.
  { unfold Sound.getMasterVolume, Sound.setMasterVolume. cbn [Sound.masterVolume].
    unfold Sound.clamp01.
    destruct (Qleb 1 v) eqn:E1.
    - apply Qleb_le in E1. assert (E0 : Qleb v 0 = false) by (apply Qleb_gt; lra).
      rewrite E0. reflexivity.
    - destruct (Qleb v 0); reflexivity. }
  unfold audible, Sound.toggleMute, Sound.isMuted, Sound.setMasterVolume, Sound.mute,
    Sound.unmute, Sound.withGain.
  destruct (Sound.muted st), (Sound.gainNode st);
    cbn [Sound.gainNode Sound.muted Sound.masterVolume fst snd negb];
    repeat split; reflexivity.
Qed.

(** X23.  [initialize] succeeds exactly when the browser provides all audio
    objects.  It sets the gain to the master volume even when the manager
    was muted beforehand, so that a mute requested before the first sound
    is not heard; and once the context exists, a failure to create the gain
    node is not repaired: every later [initialize] answers [true] and
    leaves the manager without a gain node. *)
Theorem initialize_outcomes host host' st :
  Sound.context st = false -> Sound.gainNode st = None ->
  (snd (Sound.initialize host st) = true <-> host = Sound.AudioWorks) /\
  (host = Sound.AudioWorks ->
   Sound.gainNode (fst (Sound.initialize host st)) = Some (Sound.masterVolume st) /\
   Sound.isMuted (fst (Sound.initialize host st)) = Sound.isMuted st) /\
  (host = Sound.GainFails ->
   Sound.initialize host' (fst (Sound.initialize host st)) =
     (fst (Sound.initialize host st), true) /\
   Sound.gainNode (fst (Sound.initialize host st)) = None).
Proof.
  intros Hc Hg. split; [|split].
  - unfold Sound.initialize. rewrite Hc. destruct host; cbn [snd]; split; congruence.
  - intros ->. unfold Sound.initialize. rewrite Hc.
    cbn [fst Sound.gainNode Sound.isMuted Sound.muted]. auto.
  - intros ->.
    assert (E : Sound.initialize Sound.GainFails st =
                (Sound.mk true (Sound.gainNode st) (Sound.sounds st) (Sound.masterVolume st)
                   (Sound.muted st), false)).
    { unfold Sound.initialize. rewrite Hc. reflexivity. }
    rewrite E. cbn [fst Sound.gainNode]. split; [reflexivity | exact Hg].
Qed.

Lemma initialize_outcomes_witness :
  (snd (Sound.initialize Sound.AudioWorks mutedEarly) = true <->
   Sound.AudioWorks = Sound.AudioWorks) /\
  (Sound.AudioWorks = Sound.AudioWorks ->
   Sound.gainNode (fst (Sound.initialize Sound.AudioWorks mutedEarly)) =
     Some (Sound.masterVolume mutedEarly) /\
   Sound.isMuted (fst (Sound.initialize Sound.AudioWorks mutedEarly)) =
     Sound.isMuted mutedEarly) /\
  (Sound.AudioWorks = Sound.GainFails ->
   Sound.initialize Sound.AudioWorks (fst (Sound.initialize Sound.AudioWorks mutedEarly)) =
     (fst (Sound.initialize Sound.AudioWorks mutedEarly), true) /\
   Sound.gainNode (fst (Sound.initialize Sound.AudioWorks mutedEarly)) = None).
Proof.
  apply (initialize_outcomes Sound.AudioWorks Sound.AudioWorks mutedEarly); reflexivity.
Defined.

(** X24.  The first [loadSound] for an id answers whether the file could be
    fetched and decoded, and [isSoundLoaded] agrees with that answer.  The
    record is kept either way, so every later [loadSound] for the id answers
    [true] without loading anything, also after a failure. *)
Theorem loadSound_first_answer_only host host' fetched fetched' i u u'
    optLoop optLoop' optVolume optVolume' st :
  Sound.context st = true -> Sound.sounds st !! i = None ->
  snd (Sound.loadSound host fetched i u optLoop optVolume st) =
    match fetched with Asset.Resolved _ => true | Asset.Rejected _ => false end /\
  Sound.isSoundLoaded i (fst (Sound.loadSound host fetched i u optLoop optVolume st)) =
    snd (Sound.loadSound host fetched i u optLoop optVolume st) /\
  Sound.loadSound host' fetched' i u' optLoop' optVolume'
      (fst (Sound.loadSound host fetched i u optLoop optVolume st)) =
    (fst (Sound.loadSound host fetched i u optLoop optVolume st), true).
Proof.
  intros Hc Hnew.
  assert (E : Sound.loadSound host fetched i u optLoop optVolume st =
              match fetched with
              | Asset.Resolved b =>
                  (Sound.mk true (Sound.gainNode st)
                     (<[i := Sound.mkSound i u (Some b) true (default false optLoop)
                               (default 1 optVolume)]>
                        (<[i := Sound.mkSound i u None false (default false optLoop)
                                  (default 1 optVolume)]> (Sound.sounds st)))
                     (Sound.masterVolume st) (Sound.muted st), true)
              | Asset.Rejected _ =>
                  (Sound.mk true (Sound.gainNode st)
                     (<[i := Sound.mkSound i u None false (default false optLoop)
                               (default 1 optVolume)]> (Sound.sounds st))
                     (Sound.masterVolume st) (Sound.muted st), false)
              end).
  { unfold Sound.loadSound. rewrite Hc. cbn [negb]. rewrite Hnew, Hc.
    destruct fetched; reflexivity. }
  rewrite E. destruct fetched as [b | msg]; cbn [fst snd].
  - split; [reflexivity|]. split.
    + unfold Sound.isSoundLoaded. cbn [Sound.sounds]. rewrite lookup_insert_eq. reflexivity.
    + unfold Sound.loadSound. cbn [Sound.context negb Sound.sounds].
      rewrite lookup_insert_eq. reflexivity.
  - split; [reflexivity|]. split.
    + unfold Sound.isSoundLoaded. cbn [Sound.sounds]. rewrite lookup_insert_eq. reflexivity.
    + unfold Sound.loadSound. cbn [Sound.context negb Sound.sounds].
      rewrite lookup_insert_eq. reflexivity.
Qed.

Lemma loadSound_first_answer_only_witness :
  snd (Sound.loadSound Sound.AudioWorks (Asset.Rejected "404") "jump" "jump.wav" None None
         soundReady) =
    match Asset.Rejected (A := string) "404" with
    | Asset.Resolved _ => true
    | Asset.Rejected _ => false
    end /\
  Sound.isSoundLoaded "jump"
    (fst (Sound.loadSound Sound.AudioWorks (Asset.Rejected "404") "jump" "jump.wav" None None
            soundReady)) =
    snd (Sound.loadSound Sound.AudioWorks (Asset.Rejected "404") "jump" "jump.wav" None None
           soundReady) /\
  Sound.loadSound Sound.AudioWorks (Asset.Resolved "pcm") "jump" "jump.wav" None None
      (fst (Sound.loadSound Sound.AudioWorks (Asset.Rejected "404") "jump" "jump.wav" None None
              soundReady)) =
    (fst (Sound.loadSound Sound.AudioWorks (Asset.Rejected "404") "jump" "jump.wav" None None
            soundReady), true).
Proof.
  apply (loadSound_first_answer_only Sound.AudioWorks Sound.AudioWorks (Asset.Rejected "404")
           (Asset.Resolved "pcm") "jump" "jump.wav" "jump.wav" None None None None soundReady);
    reflexivity.
Defined.

(** ** InputManager: key edges *)

Lemma isTrue_mapSet k k' v (m : list (string * bool)) :
  Input.isTrue k' (mapSet k v m) = if String.eqb k' k then v else Input.isTrue k' m.
Proof.
  unfold Input.isTrue. destruct (String.eqb k' k) eqn:E.
  - apply String.eqb_eq in E. subst k'. rewrite mapGet_mapSet_eq. reflexivity.
  - rewrite mapGet_mapSet_ne; [reflexivity|].
    intros Heq. subst k'. rewrite String.eqb_refl in E. discriminate.
Qed.

Lemma mapGet_absent {V} k (m : list (string * V)) :
  ~ In k (mapKeys m) -> mapGet k m = None.
Proof.
  induction m as [|[k' v] m IH]; [reflexivity|]. cbn [mapKeys map fst In mapGet].
  intros H. destruct (String.eqb k k') eqn:E.
  - apply String.eqb_eq in E. subst k'. exfalso. apply H. left. reflexivity.
  - apply IH. intros Hin. apply H. right. exact Hin.
Qed.

(** What the loop of [update] has done after the entries [l], each key of
    which occurs once. *)
Lemma visitKeys_effect l : forall acc,
  List.NoDup (mapKeys l) ->
  Input.keys (fold_left Input.visitKey l acc) = Input.keys acc /\
  (forall k,
     Input.isTrue k (Input.keysJustPressed (fold_left Input.visitKey l acc)) =
     match mapGet k l with
     | Some p => p && negb (Input.isTrue k (Input.keysPrevious acc))
                 || Input.isTrue k (Input.keysJustPressed acc)
     | None => Input.isTrue k (Input.keysJustPressed acc)
     end) /\
  (forall k,
     Input.isTrue k (Input.keysJustReleased (fold_left Input.visitKey l acc)) =
     match mapGet k l with
     | Some p => negb p && Input.isTrue k (Input.keysPrevious acc)
                 || Input.isTrue k (Input.keysJustReleased acc)
     | None => Input.isTrue k (Input.keysJustReleased acc)
     end) /\
  (forall k,
     Input.isTrue k (Input.keysPrevious (fold_left Input.visitKey l acc)) =
     match mapGet k l with
     | Some p => p
     | None => Input.isTrue k (Input.keysPrevious acc)
     end).
Proof.
  induction l as [|[k0 p0] l IH]; intros acc Hnd; cbn [fold_left].
  - repeat split; reflexivity.
  - cbn [mapKeys map fst] in Hnd. apply List.NoDup_cons_iff in Hnd.
    destruct Hnd as [Hk0 Hnd].
    destruct (IH (Input.visitKey acc (k0, p0)) Hnd) as (Hkeys & Hp & Hr & Hv).
    assert (Hacc1 : Input.keys (Input.visitKey acc (k0, p0)) = Input.keys acc).
    { unfold Input.visitKey.
      destruct (p0 && negb _); [reflexivity|]. destruct (negb p0 && _); reflexivity. }
    assert (Hprev1 : forall k, Input.isTrue k (Input.keysPrevious (Input.visitKey acc (k0, p0))) =
                                if String.eqb k k0 then p0
                                else Input.isTrue k (Input.keysPrevious acc)).
    { intros k. unfold Input.visitKey.
      destruct (p0 && negb _); cbn [Input.keysPrevious]; [apply isTrue_mapSet|].
      destruct (negb p0 && _); cbn [Input.keysPrevious]; apply isTrue_mapSet. }
    assert (Hjp1 : forall k, Input.isTrue k (Input.keysJustPressed (Input.visitKey acc (k0, p0))) =
                              (if String.eqb k k0
                               then p0 && negb (Input.isTrue k0 (Input.keysPrevious acc))
                               else false)
                              || Input.isTrue k (Input.keysJustPressed acc)).
    { intros k. unfold Input.visitKey.
      destruct (p0 && negb (Input.isTrue k0 (Input.keysPrevious acc))) eqn:E1;
        cbn [Input.keysJustPressed].
      - rewrite isTrue_mapSet. destruct (String.eqb k k0); reflexivity.
      - destruct (negb p0 && _); cbn [Input.keysJustPressed];
          destruct (String.eqb k k0); reflexivity. }
    assert (Hjr1 : forall k, Input.isTrue k (Input.keysJustReleased (Input.visitKey acc (k0, p0))) =
                              (if String.eqb k k0
                               then negb p0 && Input.isTrue k0 (Input.keysPrevious acc)
                               else false)
                              || Input.isTrue k (Input.keysJustReleased acc)).
    { intros k. unfold Input.visitKey.
      destruct (p0 && negb (Input.isTrue k0 (Input.keysPrevious acc))) eqn:E1;
        cbn [Input.keysJustReleased].
      - destruct (String.eqb k k0); [|reflexivity].
        destruct p0; [reflexivity|discriminate E1].
      - destruct (negb p0 && Input.isTrue k0 (Input.keysPrevious acc)) eqn:E2;
          cbn [Input.keysJustReleased].
        + rewrite isTrue_mapSet. destruct (String.eqb k k0); reflexivity.
        + destruct (String.eqb k k0); reflexivity. }
    split; [congruence|].
    split; [|split]; intros k; cbn [mapGet];
      [rewrite Hp, Hjp1, Hprev1 | rewrite Hr, Hjr1, Hprev1 | rewrite Hv, Hprev1];
      (destruct (String.eqb k k0) eqn:E;
       [ apply String.eqb_eq in E; subst k; rewrite (mapGet_absent k0 l Hk0);
         cbn [orb]; try reflexivity
       | cbn [orb]; destruct (mapGet k l); reflexivity ]).
Qed.

(** X25.  After [update] a key is reported as just pressed exactly when it
    is down and was not down at the previous [update], and as just released
    exactly when it has been seen, is up and was down at the previous
    [update]; no key is both.  The key states themselves are not changed,
    and a second [update] with no key event in between reports no edge at
    all. *)
Theorem update_reports_edges st key :
  List.NoDup (mapKeys (Input.keys st)) ->
  Input.isKeyJustPressed key (Input.update st) =
    Input.isKeyDown key st && negb (Input.isTrue key (Input.keysPrevious st)) /\
  Input.isKeyJustReleased key (Input.update st) =
    match mapGet key (Input.keys st) with
    | Some isPressed => negb isPressed && Input.isTrue key (Input.keysPrevious st)
    | None => false
    end /\
  Input.isKeyJustPressed key (Input.update st) && Input.isKeyJustReleased key (Input.update st)
    = false /\
  Input.keys (Input.update st) = Input.keys st /\
  Input.isKeyJustPressed key (Input.update (Input.update st)) = false /\
  Input.isKeyJustReleased key (Input.update (Input.update st)) = false.
Proof.
  intros Hnd.
  destruct (visitKeys_effect (Input.keys st)
              (Input.mk (Input.keys st) (Input.keysPrevious st) [] []) Hnd)
    as (Hkeys & Hp & Hr & Hv).
  fold (Input.update st) in Hkeys, Hp, Hr, Hv.
  cbn [Input.keys Input.keysJustPressed Input.keysJustReleased Input.keysPrevious] in *.
  assert (Hnd' : List.NoDup (mapKeys (Input.keys (Input.update st)))) by (rewrite Hkeys; exact Hnd).
  destruct (visitKeys_effect (Input.keys (Input.update st))
              (Input.mk (Input.keys (Input.update st)) (Input.keysPrevious (Input.update st))
                 [] []) Hnd')
    as (_ & Hp2 & Hr2 & _).
  fold (Input.update (Input.update st)) in Hp2, Hr2.
  cbn [Input.keys Input.keysJustPressed Input.keysJustReleased Input.keysPrevious] in *.
  unfold Input.isKeyJustPressed, Input.isKeyJustReleased, Input.isKeyDown.
  rewrite Hp2, Hr2, Hp, Hr, Hv, Hkeys.
  change (Input.isTrue key []) with false.
  generalize (Input.isTrue key (Input.keysPrevious st)) as prev. intros prev.
  unfold Input.isTrue.
  destruct (mapGet key (Input.keys st)) as [p|].
  - destruct p, prev; repeat split; reflexivity.
  - repeat split; reflexivity.
Qed.

Lemma update_reports_edges_witness :
  Input.isKeyJustPressed "Space" (Input.update keyboard) =
    Input.isKeyDown "Space" keyboard &&
    negb (Input.isTrue "Space" (Input.keysPrevious keyboard)) /\
  Input.isKeyJustReleased "Space" (Input.update keyboard) =
    match mapGet "Space" (Input.keys keyboard) with
    | Some isPressed => negb isPressed && Input.isTrue "Space" (Input.keysPrevious keyboard)
    | None => false
    end /\
  Input.isKeyJustPressed "Space" (Input.update keyboard) &&
    Input.isKeyJustReleased "Space" (Input.update keyboard) = false /\
  Input.keys (Input.update keyboard) = Input.keys keyboard /\
  Input.isKeyJustPressed "Space" (Input.update (Input.update keyboard)) = false /\
  Input.isKeyJustReleased "Space" (Input.update (Input.update keyboard)) = false.
Proof.
  apply (update_reports_edges keyboard "Space").
  vm_compute. repeat constructor; simpl; intuition discriminate.
Defined.

(** ** GameEngine: collecting, and moving platforms *)

(** X27.  When the player overlaps an active collectible the collectible
    rule raises the score by the collectible's value, counts one more
    collected item and hides and deactivates the collectible; this holds
    also when the completion check that follows throws.  Applied again to
    the state it leaves, the rule does nothing: an item is collected once. *)
Theorem collectRule_collects_once player c st p e value :
  Engine.heap st !! player = Some p ->
  Engine.heap st !! c = Some e ->
  active e = true ->
  Engine.checkCollision p e = true ->
  Engine.toNumber (js_or (getData "value" e) (VNum 10)) = Some value ->
  exists st',
    stateOf (Engine.collectRule player st c) = Some st' /\
    Engine.score st' = Engine.score st + value /\
    Engine.collectedItems st' = S (Engine.collectedItems st) /\
    (exists e', Engine.heap st' !! c = Some e' /\ active e' = false /\ visible e' = false) /\
    Engine.collectRule player st' c = Engine.Normal st'.
Proof.
  intros Hp He Hact Hcol Hval. unfold Engine.collectRule at 1.
  rewrite Hp, He, Hact, Hcol. cbn [andb]. rewrite Hval.
  match goal with
  | |- context [Engine.checkLevelCompletion ?s] =>
      destruct (checkLevelCompletion_effects s) as (st' & Hst & Hheap & _ & _ & _ & Hsc & Hci & _);
      assert (Hs : Engine.heap s =
                   mutate c (set_visible false) (mutate c (set_active false) (Engine.heap st)) /\
                   Engine.score s = Engine.score st + value /\
                   Engine.collectedItems s = S (Engine.collectedItems st))
        by (destruct (truthy (getData "sound" e)); repeat split; reflexivity)
  end.
  destruct Hs as (Hh & Hs1 & Hs2).
  assert (Hc' : Engine.heap st' !! c = Some (set_visible false (set_active false e))).
  { rewrite Hheap, Hh, !mutate_lookup_eq, He. reflexivity. }
  exists st'. split; [exact Hst|]. split; [congruence|]. split; [congruence|]. split.
  - eexists. split; [exact Hc'|]. split; reflexivity.
  - unfold Engine.collectRule. rewrite Hc'.
    destruct (Engine.heap st' !! player); reflexivity.
Qed.

Lemma collectRule_collects_once_witness :
  exists st',
    stateOf (Engine.collectRule 0%nat coinState 1%nat) = Some st' /\
    Engine.score st' = Engine.score coinState + 10 /\
    Engine.collectedItems st' = S (Engine.collectedItems coinState) /\
    (exists e', Engine.heap st' !! 1%nat = Some e' /\ active e' = false /\ visible e' = false) /\
    Engine.collectRule 0%nat st' 1%nat = Engine.Normal st'.
Proof.
  apply (collectRule_collects_once 0%nat 1%nat coinState stomper coin 10);
    [reflexivity | reflexivity | reflexivity | vm_compute; reflexivity | reflexivity].
Defined.

Lemma remainder_defined a b : ~ b == 0 -> exists r, Engine.remainder a b = Some r.
Proof.
  intros Hb. unfold Engine.remainder.
  destruct (Qeqb b 0) eqn:E; [apply Qeqb_eq in E; contradiction|]. eauto.
Qed.

(** X28.  A horizontally moving platform never leaves its track.  With a
    sine between -1 and 1, a platform whose stored start position is [sx]
    (not 0) and whose stored distance is [dist] is put by
    [updateMovingPlatform] within [dist] of [sx], at its old height; the
    call returns, and the stored start, distance, direction and speed are
    kept and the phase stays a number, so that the same holds in every later
    frame. *)
Theorem updateMovingPlatform_on_track (Math_sin : Q -> Q) (Math_PI : Q)
    platform deltaTime st p sx dist ph sp :
  (forall q, -1 <= Math_sin q <= 1) -> ~ Math_PI == 0 ->
  Engine.heap st !! platform = Some p ->
  getData "startX" p = VNum sx -> ~ sx == 0 ->
  getData "moveDistance" p = VNum dist -> 0 < dist ->
  getData "moveDirection" p = VStr "horizontal" ->
  Engine.toNumber (js_or (getData "movePhase" p) (VNum 0)) = Some ph ->
  Engine.toNumber (js_or (getData "moveSpeed" p) (VNum 1)) = Some sp ->
  exists st' p',
    Engine.updateMovingPlatform Math_sin Math_PI platform deltaTime st = Engine.Normal st' /\
    Engine.heap st' !! platform = Some p' /\
    sx - dist <= x p' /\ x p' <= sx + dist /\ y p' = y p /\
    getData "startX" p' = VNum sx /\ getData "moveDistance" p' = VNum dist /\
    getData "moveDirection" p' = VStr "horizontal" /\
    getData "moveSpeed" p' = getData "moveSpeed" p /\
    exists ph', getData "movePhase" p' = VNum ph'.
Proof.
  intros Hsin Hpi Hp Hsx Hsx0 Hd Hd0 Hdir Hph Hsp.
  destruct (remainder_defined (ph + sp * deltaTime) (Math_PI * 2)) as (ph' & Hrem).
  { intros H. apply Hpi. lra. }
  assert (Tsx : truthy (VNum sx) = true).
  { cbn [truthy]. destruct (Qeqb sx 0) eqn:E; [apply Qeqb_eq in E; contradiction|reflexivity]. }
  assert (Td : truthy (VNum dist) = true).
  { cbn [truthy]. destruct (Qeqb dist 0) eqn:E; [apply Qeqb_eq in E; lra|reflexivity]. }
  unfold Engine.updateMovingPlatform. rewrite Hp, Hph, Hsp, Hsx, Hd, Hdir.
  unfold js_or at 1 2 3. rewrite Td, Tsx. cbn [truthy String.eqb negb Engine.toNumber].
  change (truthy (VStr "horizontal")) with true. cbv iota.
  cbn [Engine.toNumber]. rewrite Hrem.
  change (str_is (VStr "horizontal") "horizontal") with true. cbv iota.
  eexists. eexists. split; [reflexivity|].
  unfold Engine.onHeap. cbn [Engine.heap Engine.set_heap].
  rewrite !mutate_lookup_eq, Hp. cbn [fmap option_fmap option_map].
  split; [reflexivity|]. cbn [x y set_x].
  destruct (Hsin ph') as [Hlo Hhi].
  assert (B1 : Math_sin ph' * dist <= 1 * dist) by (apply Qmult_le_compat_r; lra).
  assert (B2 : (-1) * dist <= Math_sin ph' * dist) by (apply Qmult_le_compat_r; lra).
  split; [lra|]. split; [lra|]. split; [reflexivity|].
  unfold getData, setData in *. cbn [data set_x set_data].
  rewrite !lookup_insert_ne by discriminate. rewrite lookup_insert_eq.
  repeat split; try assumption. eexists. reflexivity.
Qed.

Lemma updateMovingPlatform_on_track_witness :
  exists st' p',
    Engine.updateMovingPlatform flatSine roughPi 0%nat 1 sliderState = Engine.Normal st' /\
    Engine.heap st' !! 0%nat = Some p' /\
    200 - 50 <= x p' /\ x p' <= 200 + 50 /\ y p' = y slider /\
    getData "startX" p' = VNum 200 /\ getData "moveDistance" p' = VNum 50 /\
    getData "moveDirection" p' = VStr "horizontal" /\
    getData "moveSpeed" p' = getData "moveSpeed" slider /\
    exists ph', getData "movePhase" p' = VNum ph'.
Proof.
  apply (updateMovingPlatform_on_track flatSine roughPi 0%nat 1 sliderState slider 200 50 0 1).
  - intros q. unfold flatSine. split; lra.
  - unfold roughPi. intros H. vm_compute in H. discriminate H.
  - reflexivity.
  - reflexivity.
  - intros H. vm_compute in H. discriminate H.
  - reflexivity.
  - reflexivity.
  - reflexivity.
  - reflexivity.
  - reflexivity.
Defined.

(** ** GameEngine: what a level load creates *)

Lemma mapSet_absent {V} k (v : V) m :
  ~ In k (mapKeys m) -> mapSet k v m = m ++ [(k, v)].
Proof.
  induction m as [|[k' v'] m IH]; [reflexivity|]. cbn [mapKeys map fst In mapSet app].
  intros H. destruct (String.eqb k k') eqn:E.
  - apply String.eqb_eq in E. subst k'. exfalso. apply H. left. reflexivity.
  - rewrite IH; [reflexivity|]. intros Hin. apply H. right. exact Hin.
Qed.

Lemma builtFrom_length {A : Type} freshId (build : string -> nat -> A -> Entity) l :
  forall g index, List.length (builtFrom freshId build g index l) = List.length l.
Proof.
  induction l as [|a l IH]; intros g index; cbn [builtFrom List.length]; [reflexivity|].
  rewrite IH. reflexivity.
Qed.

Section LevelPopulation.
Variable freshId : nat -> string.

Lemma spawn_populates build from old built total st :
  distinctIds freshId from total -> (List.length built < total)%nat ->
  (forall g, id (build g) = g) ->
  populated freshId from old built st ->
  populated freshId from old (built ++ [build (freshId (from + List.length built))])
    (Engine.spawn freshId build st).
Proof.
  intros Hids Hlt Hid (sc & Hsc & Hu & Hh & Hi & He & Hg).
  unfold Engine.spawn. rewrite Hsc. unfold alloc, Scene.addEntity. rewrite Hu.
  unfold Scene.insertEntity.
  rewrite lookup_app_r by reflexivity. rewrite Nat.sub_diag. cbn [lookup list_lookup].
  rewrite Hid, Hg, Hh.
  assert (Hnew : ~ In (freshId (from + List.length built)) (mapKeys (Scene.entities sc))).
  { rewrite He. unfold mapKeys. rewrite map_map. cbn [fst]. intros Hin.
    apply in_map_iff in Hin. destruct Hin as (j & Hj & Hin).
    apply in_seq in Hin. apply Hids in Hj; lia. }
  rewrite (mapSet_absent _ _ _ Hnew).
  eexists. split; [reflexivity|].
  cbn [Engine.activeScene Engine.set_activeScene Engine.set_generated Engine.set_heap
       Engine.generated Engine.heap Scene.isUpdating Scene.set_entities Scene.entities].
  split; [exact Hu|]. split; [rewrite app_assoc; reflexivity|].
  rewrite !length_app. cbn [List.length]. rewrite Nat.add_1_r, !seq_S, !map_app, Hi, He.
  cbn [map]. rewrite Hid. repeat split; try reflexivity. lia.
Qed.

Lemma spawn_all_populates {A : Type} (build : string -> nat -> A -> Entity) from old total l :
  distinctIds freshId from total ->
  (forall g i a, id (build g i a) = g) ->
  forall index built st,
    (List.length built + List.length l <= total)%nat ->
    populated freshId from old built st ->
    populated freshId from old
      (built ++ builtFrom freshId build (from + List.length built) index l)
      (Engine.forEachIndexed (fun index a => Engine.spawn freshId (fun g => build g index a))
         index l st).
Proof.
  intros Hids Hid. induction l as [|a l IH]; intros index built st Hle Hp;
    cbn [Engine.forEachIndexed List.length builtFrom] in *.
  - rewrite app_nil_r. exact Hp.
  - pose proof (spawn_populates (fun g => build g index a) from old built total st Hids
                  ltac:(lia) (fun g => Hid g index a) Hp) as Hp1.
    assert (Hle1 : (List.length (built ++ [build (freshId (from + List.length built)) index a])
                    + List.length l <= total)%nat)
      by (rewrite length_app; cbn [List.length]; lia).
    specialize (IH (S index) _ _ Hle1 Hp1).
    rewrite length_app in IH. cbn [List.length] in IH.
    rewrite Nat.add_1_r, <- plus_n_Sm, <- app_assoc in IH. exact IH.
Qed.

Lemma populated_same from old built st st' :
  Engine.activeScene st' = Engine.activeScene st ->
  Engine.generated st' = Engine.generated st ->
  Engine.heap st' = Engine.heap st ->
  populated freshId from old built st -> populated freshId from old built st'.
Proof.
  intros H1 H2 H3 (sc & Hsc & H). exists sc. rewrite H1, H2, H3. split; assumption.
Qed.

Lemma playerEntity_id g p : id (Engine.playerEntity g p) = g.
Proof. reflexivity. Qed.

Lemma enemyEntity_id g i e : id (Engine.enemyEntity g i e) = g.
Proof. reflexivity. Qed.

Lemma collectibleEntity_id g i c : id (Engine.collectibleEntity g i c) = g.
Proof. reflexivity. Qed.

Lemma platformEntity_id g i p : id (Engine.platformEntity g i p) = g.
Proof.
  unfold Engine.platformEntity.
  destruct (Engine.pf_movingPlatform p);
    destruct (match Engine.pf_type p with Some ty => String.eqb ty "temporary" | None => false end);
    reflexivity.
Qed.

Lemma player_phase (player : option Engine.PlayerParams) from old total st :
  distinctIds freshId from total ->
  (match player with Some _ => 1 | None => 0 end <= total)%nat ->
  populated freshId from old [] st ->
  populated freshId from old
    (match player with
     | Some p => [Engine.playerEntity (freshId from) p]
     | None => []
     end)
    (match player with
     | Some p => Engine.spawn freshId (fun g => Engine.playerEntity g p) st
     | None => st
     end).
Proof.
  intros Hids Hle H. destruct player as [p|]; [|exact H].
  pose proof (spawn_populates (fun g => Engine.playerEntity g p) from old [] total st Hids
                ltac:(cbn [List.length]; lia) (fun g => playerEntity_id g p) H) as H1.
  cbn [List.length app] in H1. rewrite Nat.add_0_r in H1. exact H1.
Qed.

Lemma collectibles_phase (cs : list Engine.CollectibleParams) from old total built st :
  distinctIds freshId from total -> (List.length built + List.length cs <= total)%nat ->
  populated freshId from old built st ->
  populated freshId from old
    (built ++ builtFrom freshId Engine.collectibleEntity (from + List.length built) 0 cs)
    (match cs with
     | [] => st
     | c :: l =>
         Engine.forEachIndexed
           (fun index c => Engine.spawn freshId (fun g => Engine.collectibleEntity g index c))
           0 (c :: l) (Engine.set_totalCollectibles (List.length (c :: l)) st)
     end).
Proof.
  intros Hids Hle H. destruct cs as [|c cs].
  - cbn [builtFrom]. rewrite app_nil_r. exact H.
  - apply (spawn_all_populates Engine.collectibleEntity from old total);
      [exact Hids | intros; apply collectibleEntity_id | exact Hle |].
    revert H. apply populated_same; reflexivity.
Qed.

Lemma platforms_phase (ps : option (list Engine.PlatformParams)) from old total built st :
  distinctIds freshId from total ->
  (List.length built + List.length (default [] ps) <= total)%nat ->
  populated freshId from old built st ->
  populated freshId from old
    (built ++ builtFrom freshId Engine.platformEntity (from + List.length built) 0
                (default [] ps))
    (match ps with
     | Some ps =>
         Engine.forEachIndexed
           (fun index p => Engine.spawn freshId (fun g => Engine.platformEntity g index p))
           0 ps st
     | None => st
     end).
Proof.
  intros Hids Hle H. destruct ps as [ps|]; cbn [default List.length] in *.
  - apply (spawn_all_populates Engine.platformEntity from old total);
      [exact Hids | intros; apply platformEntity_id | exact Hle | exact H].
  - cbn [builtFrom]. rewrite app_nil_r. exact H.
Qed.

Lemma background_phase (background : option string) from old built st :
  populated freshId from old built st ->
  populated freshId from old built
    (match background, Engine.rendererBackground st with
     | Some bg, Some _ =>
         if String.eqb bg "" then st else Engine.set_rendererBackground (Some bg) st
     | _, _ => st
     end).
Proof.
  intros H. destruct background as [bg|]; [|exact H].
  destruct (Engine.rendererBackground st); [|exact H].
  destruct (String.eqb bg ""); [exact H|].
  revert H. apply populated_same; reflexivity.
Qed.

(** X29.  Loading an existing level into a scene at rest replaces the
    content of the scene by exactly the entities the game data describe.
    The heap after the load is the old heap, with the entities of the
    cleared scene destroyed, followed by the new objects in the order of
    their construction: the player entity, then the entity of each enemy
    record, then of each collectible record, then of each platform record
    of the level, each built by its constructor from the next generated id;
    the entity map of the scene lists exactly these objects, under their
    ids and in this order.  This needs the ids generated during the load to
    be pairwise different; the constructor draws them from the clock and a
    random number. *)
Theorem loadLevel_populates levelIndex st sc level :
  Engine.activeScene st = Some sc -> Scene.isUpdating sc = false ->
  Engine.levelAt (Engine.gameData st) levelIndex = Some level ->
  distinctIds freshId (Engine.generated st)
    (List.length (levelEntities freshId (Engine.generated st) (Engine.gameData st) level)) ->
  populated freshId (Engine.generated st) (fst (Scene.clear (Engine.heap st, sc)))
    (levelEntities freshId (Engine.generated st) (Engine.gameData st) level)
    (Engine.loadLevel freshId levelIndex st).
Proof.
  intros Hsc Hu Hlevel Hids. unfold Engine.loadLevel. rewrite Hsc.
  unfold Scene.clear. cbv zeta.
  cbn [Engine.gameData Engine.set_activeScene Engine.set_heap fst]. rewrite Hlevel.
  unfold levelEntities in *. cbv zeta in *.
  apply background_phase.
  apply (platforms_phase _ _ _ _ _ _ Hids);
    [rewrite !length_app, !builtFrom_length; lia|].
  apply (collectibles_phase _ _ _ _ _ _ Hids);
    [rewrite !length_app, !builtFrom_length; lia|].
  apply (spawn_all_populates Engine.enemyEntity _ _ _ _ Hids);
    [intros; apply enemyEntity_id | rewrite !length_app, !builtFrom_length; lia |].
  apply (player_phase _ _ _ _ _ Hids);
    [rewrite !length_app, !builtFrom_length;
     destruct (Engine.player (Engine.gameData st)); cbn [List.length]; lia|].
  eexists. split; [reflexivity|].
  cbn [Scene.isUpdating Scene.set_entitiesToRemove Scene.set_entitiesToAdd
       Scene.set_entities Scene.entities].
  split; [exact Hu|].
  cbn [Engine.generated Engine.log Engine.set_console Engine.set_heap
       Engine.set_activeScene Engine.heap List.length seq map].
  split; [rewrite app_nil_r; reflexivity|]. repeat split; try reflexivity. lia.
Qed.
End LevelPopulation.

Lemma loadLevel_populates_witness :
  populated demoId (Engine.generated (engineOf demoGame))
    (fst (Scene.clear (Engine.heap (engineOf demoGame),
                       Scene.new (Scene.mkOptions "default" None None None))))
    (levelEntities demoId (Engine.generated (engineOf demoGame))
       (Engine.gameData (engineOf demoGame))
       (Engine.mkLevel "One" (Some [demoPlatform]) None (Some 2)))
    (Engine.loadLevel demoId 0 (engineOf demoGame)).
Proof.
  apply (loadLevel_populates demoId 0 (engineOf demoGame)
           (Scene.new (Scene.mkOptions "default" None None None))
           (Engine.mkLevel "One" (Some [demoPlatform]) None (Some 2)));
    [reflexivity | reflexivity | reflexivity |].
  intros i j Hi Hj H. vm_compute in Hi, Hj.
  do 5 (destruct i as [|i];
        [do 5 (destruct j as [|j]; [first [reflexivity | discriminate H]|]); lia|]).
  lia.
Defined.

(** ** Physics: an entity on the ground *)

(** X7.  Gravity acts only on entities that are not on the ground, and
    [update] takes an entity off the ground only when it already moves down
    by more than 1 per step.  So an entity that is on the ground with no
    vertical velocity keeps its height and stays on the ground through any
    number of physics steps, whether or not anything is underneath it. *)
Theorem grounded_never_falls ph e n :
  onGround e = true -> velocityY e = 0 -> 0 <= Physics.terminalVelocity ph ->
  onGround (Nat.iter n (Physics.update ph) e) = true /\
  velocityY (Nat.iter n (Physics.update ph) e) = 0 /\
  y (Nat.iter n (Physics.update ph) e) == y e.
Proof.
  intros Hg Hv Ht. induction n as [|n IH].
  - change (Nat.iter 0 (Physics.update ph) e) with e.
    split; [exact Hg|]. split; [exact Hv | reflexivity].
  - change (Nat.iter (S n) (Physics.update ph) e)
      with (Physics.update ph (Nat.iter n (Physics.update ph) e)).
    destruct IH as (IHg & IHv & IHy).
    remember (Nat.iter n (Physics.update ph) e) as e1 eqn:He1. clear He1.
    destruct e1 as [i px py w h vx vy ac gr fr co so bo bc ma tg act vis og bh da].
    cbn [onGround velocityY y] in IHg, IHv, IHy. subst og vy.
    unfold Physics.update. physics_step;
      repeat match goal with
             | H : _ && true = _ |- _ => rewrite andb_true_r in H
             | H : Qltb _ _ = true |- _ => apply Qltb_lt in H
             | H : Qltb _ _ = false |- _ => apply Qltb_ge in H
             end;
      try (exfalso; lra);
      (split; [reflexivity|]; split; [reflexivity|]; lra).
Qed.

Lemma grounded_never_falls_witness :
  onGround (Nat.iter 3 (Physics.update defaultPhysics)
              (set_onGround true (box "a" 0 0 10 10 2 0 []))) = true /\
  velocityY (Nat.iter 3 (Physics.update defaultPhysics)
               (set_onGround true (box "a" 0 0 10 10 2 0 []))) = 0 /\
  y (Nat.iter 3 (Physics.update defaultPhysics)
       (set_onGround true (box "a" 0 0 10 10 2 0 []))) ==
  y (set_onGround true (box "a" 0 0 10 10 2 0 [])).
Proof.
  apply (grounded_never_falls defaultPhysics (set_onGround true (box "a" 0 0 10 10 2 0 [])) 3).
  - reflexivity.
  - reflexivity.
  - vm_compute. discriminate.
Defined.

(** ** InputManager: the key table *)

Lemma mapSet_keys_NoDup {V} k (v : V) m :
  List.NoDup (mapKeys m) -> List.NoDup (mapKeys (mapSet k v m)).
Proof.
  induction m as [|[k' v'] m IH]; cbn [mapSet mapKeys map fst].
  - intros _. constructor; [intros []|constructor].
  - intros Hnd. apply List.NoDup_cons_iff in Hnd. destruct Hnd as [Hk Hnd].
    destruct (String.eqb k k') eqn:E.
    + apply String.eqb_eq in E. subst k'. cbn [map fst]. constructor; assumption.
    + cbn [map fst]. constructor; [|apply IH; exact Hnd].
      intros Hin. apply in_map_iff in Hin. destruct Hin as ([k0 v0] & Hk0 & Hin).
      cbn [fst] in Hk0. subst k0. apply mapSet_In in Hin.
      destruct Hin as [Hin | Hin].
      * apply Hk. apply in_map_iff. exists (k', v0). auto.
      * injection Hin as -> _. rewrite String.eqb_refl in E. discriminate.
Qed.

Lemma getInputs_down (m : list (string * bool)) key :
  List.NoDup (mapKeys m) ->
  In key (mapKeys (List.filter (fun entry => snd entry) m)) <-> Input.isTrue key m = true.
Proof.
  unfold Input.isTrue.
  induction m as [|[k p] m IH]; cbn [mapKeys map fst List.filter In mapGet snd].
  - intros _. split; [intros [] | discriminate].
  - intros Hnd. apply List.NoDup_cons_iff in Hnd. destruct Hnd as [Hk Hnd].
    specialize (IH Hnd). destruct (String.eqb key k) eqn:E.
    + apply String.eqb_eq in E. subst k. destruct p; cbn [mapKeys map fst In].
      * split; [reflexivity | intros _; left; reflexivity].
      * split; [|discriminate]. intros Hin. exfalso. apply Hk.
        apply in_map_iff in Hin. destruct Hin as (entry & <- & Hin).
        apply filter_In in Hin. apply in_map_iff. exists entry. tauto.
    + assert (Hne : k <> key).
      { intros ->. rewrite String.eqb_refl in E. discriminate. }
      destruct p; cbn [mapKeys map fst In]; rewrite <- IH; unfold mapKeys; tauto.
Qed.

(** X26.  The key table holds each key once, whatever keys go down or up,
    and on such a table [getInputs] and [isKeyDown] agree: the set handed to
    the game holds exactly the keys that are down; a key that was released
    stays in the table but is not in the set. *)
Theorem getInputs_agrees_with_isKeyDown st code key :
  List.NoDup (mapKeys (Input.keys st)) ->
  List.NoDup (mapKeys (Input.keys (Input.handleKeyDown code st))) /\
  List.NoDup (mapKeys (Input.keys (Input.handleKeyUp code st))) /\
  (In key (Input.getInputs st) <-> Input.isKeyDown key st = true) /\
  (In key (Input.getInputs (Input.handleKeyDown code st)) <->
   key = code \/ In key (Input.getInputs st)) /\
  (In key (Input.getInputs (Input.handleKeyUp code st)) <->
   key <> code /\ In key (Input.getInputs st)).
Proof.
  intros Hnd.
  pose proof (mapSet_keys_NoDup code true (Input.keys st) Hnd) as Hd.
  pose proof (mapSet_keys_NoDup code false (Input.keys st) Hnd) as Hu.
  split; [exact Hd|]. split; [exact Hu|].
  unfold Input.getInputs, Input.isKeyDown, Input.handleKeyDown, Input.handleKeyUp.
  cbn [Input.keys].
  rewrite !getInputs_down by assumption. rewrite !isTrue_mapSet.
  split; [tauto|].
  destruct (String.eqb key code) eqn:E.
  - apply String.eqb_eq in E. subst key. split; split; try tauto; try discriminate.
  - assert (key <> code) by (intros Heq; subst key; rewrite String.eqb_refl in E; discriminate).
    split; split; tauto.
Qed.

Lemma getInputs_agrees_with_isKeyDown_witness :
  List.NoDup (mapKeys (Input.keys (Input.handleKeyDown "KeyA" keyboard))) /\
  List.NoDup (mapKeys (Input.keys (Input.handleKeyUp "KeyA" keyboard))) /\
  (In "Space" (Input.getInputs keyboard) <-> Input.isKeyDown "Space" keyboard = true) /\
  (In "Space" (Input.getInputs (Input.handleKeyDown "KeyA" keyboard)) <->
   "Space" = "KeyA" \/ In "Space" (Input.getInputs keyboard)) /\
  (In "Space" (Input.getInputs (Input.handleKeyUp "KeyA" keyboard)) <->
   "Space" <> "KeyA" /\ In "Space" (Input.getInputs keyboard)).
Proof.
  apply (getInputs_agrees_with_isKeyDown keyboard "KeyA" "Space").
  vm_compute. repeat constructor; simpl; intuition discriminate.
Defined.

